(** * Employee store (manager.py): a shallow embedding and its properties

    The store keeps employee records in a flat text file.  Every operation
    of [manager.py] is embedded here as a Rocq function over the content of
    that file:

    - text is a list of characters ([str]); a character is an 8-bit code
      point, and [isspace] is Python's [str.isspace] on that range;
    - an employee is a Python dict with string keys and string values:
      a [gmap string str];
    - the backing file is [option str]: [None] when the file does not exist;
    - the parts of Python's [csv] module and of text-file iteration that
      [manager.py] calls are embedded in [Module csv] (default "excel"
      dialect, file opened with [newline='']).

    The content of a file is its decoded text: decoding is outside the
    model.  The reader of the csv module refuses a field of more than 131072
    characters; the definitions named [_checked] carry that limit and return
    [None] where the reader raises, the others are the same functions as
    they go when it does not raise. *)

From Stdlib Require Import Ascii String List Arith Lia.
From stdpp Require Import gmap strings list fin_maps.
Import ListNotations.

Local Open Scope list_scope.

Abbreviation str := (list ascii).

(** [chars "abc"] is the text [abc]. *)
Definition chars (s : string) : str := list_ascii_of_string s.

Definition COMMA : ascii := ","%char.
Definition QUOTE : ascii := "034"%char.
Definition CR : ascii := "013"%char.
Definition LF : ascii := "010"%char.

(** ** Python's [str.strip] *)

(** [str.isspace] for one character with code point below 256. *)
Definition isspace (c : ascii) : bool :=
  let n := nat_of_ascii c in
  ((9 <=? n) && (n <=? 13)) || ((28 <=? n) && (n <=? 32))
  || (n =? 133) || (n =? 160).

Fixpoint lstrip (s : str) : str :=
  match s with
  | [] => []
  | c :: s' => if isspace c then lstrip s' else s
  end.

Definition rstrip (s : str) : str := reverse (lstrip (reverse s)).

Definition strip (s : str) : str := rstrip (lstrip s).

(** ** The csv module, as called by the store *)

Module csv.

(** Iteration over a text file opened with [newline='']: lines end at
    LF, CR or CR LF, and keep their terminator. *)
Fixpoint readlines_aux (cur : str) (s : str) : list str :=
  match s with
  | [] => match cur with [] => [] | _ => [cur] end
  | c :: s' =>
      if decide (c = LF) then (cur ++ [LF]) :: readlines_aux [] s'
      else if decide (c = CR) then
        match s' with
        | c2 :: s'' =>
            if decide (c2 = LF) then (cur ++ [CR; LF]) :: readlines_aux [] s''
            else (cur ++ [CR]) :: readlines_aux [] s'
        | [] => [cur ++ [CR]]
        end
      else readlines_aux (cur ++ [c]) s'
  end.

Definition readlines (s : str) : list str := readlines_aux [] s.

(** The states of the reader that the default dialect can reach (it has no
    escape character). *)
Inductive ParserState :=
| START_RECORD | START_FIELD | IN_FIELD | IN_QUOTED_FIELD
| QUOTE_IN_QUOTED_FIELD | EAT_CRNL.

Global Instance ParserState_eq_dec : EqDecision ParserState.
Proof. solve_decision. Defined.

Record Reader := mkReader {
  state : ParserState;
  fields : list str;
  field : str
}.

Definition parse_reset : Reader := mkReader START_RECORD [] [].

Definition parse_save_field (r : Reader) : Reader :=
  mkReader (state r) (fields r ++ [field r]) [].

Definition parse_add_char (r : Reader) (c : ascii) : Reader :=
  mkReader (state r) (fields r) (field r ++ [c]).

Definition set_state (r : Reader) (s : ParserState) : Reader :=
  mkReader s (fields r) (field r).

Definition is_newline (c : ascii) : bool :=
  bool_decide (c = LF) || bool_decide (c = CR).

(** What the reader does in state [START_FIELD]; [START_RECORD] falls
    through to it on an ordinary character. *)
Definition start_field (r : Reader) (c : option ascii) : Reader :=
  match c with
  | None => set_state (parse_save_field r) START_RECORD
  | Some ch =>
      if is_newline ch then set_state (parse_save_field r) EAT_CRNL
      else if decide (ch = QUOTE) then set_state r IN_QUOTED_FIELD
      else if decide (ch = COMMA) then set_state (parse_save_field r) START_FIELD
      else set_state (parse_add_char r ch) IN_FIELD
  end.

(** One step of the reader; [None] is the end-of-line mark that the reader
    feeds itself after the last character of every line. *)
Definition parse_process_char (r : Reader) (c : option ascii) : Reader :=
  match state r with
  | START_RECORD =>
      match c with
      | None => r
      | Some ch =>
          if is_newline ch then set_state r EAT_CRNL
          else start_field r c
      end
  | START_FIELD => start_field r c
  | IN_FIELD =>
      match c with
      | None => set_state (parse_save_field r) START_RECORD
      | Some ch =>
          if is_newline ch then set_state (parse_save_field r) EAT_CRNL
          else if decide (ch = COMMA) then
            set_state (parse_save_field r) START_FIELD
          else parse_add_char r ch
      end
  | IN_QUOTED_FIELD =>
      match c with
      | None => r
      | Some ch =>
          if decide (ch = QUOTE) then set_state r QUOTE_IN_QUOTED_FIELD
          else parse_add_char r ch
      end
  | QUOTE_IN_QUOTED_FIELD =>
      match c with
      | None => set_state (parse_save_field r) START_RECORD
      | Some ch =>
          if decide (ch = QUOTE) then
            set_state (parse_add_char r ch) IN_QUOTED_FIELD
          else if decide (ch = COMMA) then
            set_state (parse_save_field r) START_FIELD
          else if is_newline ch then set_state (parse_save_field r) EAT_CRNL
          else set_state (parse_add_char r ch) IN_FIELD
      end
  | EAT_CRNL =>
      match c with
      | None => set_state r START_RECORD
      | Some _ => r
      end
  end.

(** All characters of one line, then the end-of-line mark. *)
Definition parse_line (r : Reader) (line : str) : Reader :=
  parse_process_char (fold_left parse_process_char (map Some line) r) None.

(** The rows the reader yields over the remaining lines.  A row is complete
    when a line leaves the reader in [START_RECORD]; when the lines run out
    inside a row, the pending field is saved and the row is yielded. *)
Fixpoint reader_from (r : Reader) (lines : list str) : list (list str) :=
  match lines with
  | [] =>
      if negb (bool_decide (field r = []))
         || bool_decide (state r = IN_QUOTED_FIELD)
      then [fields (parse_save_field r)]
      else []
  | l :: ls =>
      let r' := parse_line r l in
      if decide (state r' = START_RECORD)
      then fields r' :: reader_from parse_reset ls
      else reader_from r' ls
  end.

Definition reader (lines : list str) : list (list str) :=
  reader_from parse_reset lines.

(** The writer, with minimal quoting: a field is quoted when it holds the
    delimiter, the quote character or a character of the line terminator;
    a quote character inside it is doubled. *)
Definition needs_quote (c : ascii) : bool :=
  bool_decide (c = COMMA) || bool_decide (c = QUOTE)
  || bool_decide (c = CR) || bool_decide (c = LF).

Fixpoint double_quotes (s : str) : str :=
  match s with
  | [] => []
  | c :: s' =>
      if decide (c = QUOTE) then QUOTE :: QUOTE :: double_quotes s'
      else c :: double_quotes s'
  end.

Definition join_append (rec : str) (num_fields : nat) (fld : str)
    (quoted : bool) : str :=
  rec ++ (match num_fields with 0 => [] | _ => [COMMA] end)
      ++ (if quoted || existsb needs_quote fld
          then QUOTE :: double_quotes fld ++ [QUOTE]
          else fld).

Fixpoint join_fields (rec : str) (num_fields : nat) (row : list str) : str :=
  match row with
  | [] => rec
  | f :: row' => join_fields (join_append rec num_fields f false)
                             (S num_fields) row'
  end.

Definition lineterminator : str := [CR; LF].

Definition writerow (row : list str) : str :=
  let rec := join_fields [] 0 row in
  (match row, rec with
   | _ :: _, [] => join_append [] 0 [] true
   | _, _ => rec
   end) ++ lineterminator.

(** *** The field size limit of the reader

    [parse_add_char] refuses a character for a field that already holds
    [field_limit] characters, and the reader raises [_csv.Error].  The
    reader above leaves that test out.  The reader below has it: it is the
    same machine, with [None] for the error. *)
Definition field_limit : N := 131072%N.

Definition parse_add_char_checked (r : Reader) (c : ascii) : option Reader :=
  if (field_limit <=? N.of_nat (length (field r)))%N then None
  else Some (parse_add_char r c).

Definition start_field_checked (r : Reader) (c : option ascii)
    : option Reader :=
  match c with
  | None => Some (set_state (parse_save_field r) START_RECORD)
  | Some ch =>
      if is_newline ch then Some (set_state (parse_save_field r) EAT_CRNL)
      else if decide (ch = QUOTE) then Some (set_state r IN_QUOTED_FIELD)
      else if decide (ch = COMMA) then
        Some (set_state (parse_save_field r) START_FIELD)
      else
        match parse_add_char_checked r ch with
        | Some r' => Some (set_state r' IN_FIELD)
        | None => None
        end
  end.

Definition parse_process_char_checked (r : Reader) (c : option ascii)
    : option Reader :=
  match state r with
  | START_RECORD =>
      match c with
      | None => Some r
      | Some ch =>
          if is_newline ch then Some (set_state r EAT_CRNL)
          else start_field_checked r c
      end
  | START_FIELD => start_field_checked r c
  | IN_FIELD =>
      match c with
      | None => Some (set_state (parse_save_field r) START_RECORD)
      | Some ch =>
          if is_newline ch then Some (set_state (parse_save_field r) EAT_CRNL)
          else if decide (ch = COMMA) then
            Some (set_state (parse_save_field r) START_FIELD)
          else parse_add_char_checked r ch
      end
  | IN_QUOTED_FIELD =>
      match c with
      | None => Some r
      | Some ch =>
          if decide (ch = QUOTE) then Some (set_state r QUOTE_IN_QUOTED_FIELD)
          else parse_add_char_checked r ch
      end
  | QUOTE_IN_QUOTED_FIELD =>
      match c with
      | None => Some (set_state (parse_save_field r) START_RECORD)
      | Some ch =>
          if decide (ch = QUOTE) then
            match parse_add_char_checked r ch with
            | Some r' => Some (set_state r' IN_QUOTED_FIELD)
            | None => None
            end
          else if decide (ch = COMMA) then
            Some (set_state (parse_save_field r) START_FIELD)
          else if is_newline ch then
            Some (set_state (parse_save_field r) EAT_CRNL)
          else
            match parse_add_char_checked r ch with
            | Some r' => Some (set_state r' IN_FIELD)
            | None => None
            end
      end
  | EAT_CRNL =>
      match c with
      | None => Some (set_state r START_RECORD)
      | Some _ => Some r
      end
  end.

(** The characters of a line, one after the other, up to the first that
    raises. *)
Fixpoint feed_checked (r : Reader) (line : str) : option Reader :=
  match line with
  | [] => Some r
  | c :: line' =>
      match parse_process_char_checked r (Some c) with
      | Some r' => feed_checked r' line'
      | None => None
      end
  end.

Definition parse_line_checked (r : Reader) (line : str) : option Reader :=
  match feed_checked r line with
  | Some r' => parse_process_char_checked r' None
  | None => None
  end.

(** The rows read over the remaining lines, or [None] when a line raises:
    the loop over the reader then ends with the error, whatever rows it had
    before. *)
Fixpoint reader_from_checked (r : Reader) (lines : list str)
    : option (list (list str)) :=
  match lines with
  | [] =>
      Some (if negb (bool_decide (field r = []))
               || bool_decide (state r = IN_QUOTED_FIELD)
            then [fields (parse_save_field r)]
            else [])
  | l :: ls =>
      match parse_line_checked r l with
      | None => None
      | Some r' =>
          if decide (state r' = START_RECORD)
          then match reader_from_checked parse_reset ls with
               | Some rows => Some (fields r' :: rows)
               | None => None
               end
          else reader_from_checked r' ls
      end
  end.

Definition reader_checked (lines : list str) : option (list (list str)) :=
  reader_from_checked parse_reset lines.

End csv.

(** ** The store *)

Definition FIELDNAMES : list string :=
  ["id"%string; "name"%string; "department"%string; "role"%string].

(** [d.get(k, default)] *)
Definition dict_get (d : gmap string str) (k : string) (dflt : str) : str :=
  default dflt (d !! k).

(** [dict(pairs)]: later pairs win. *)
Definition dict_of (pairs : list (string * str)) : gmap string str :=
  fold_left (fun d kv => <[kv.1 := kv.2]> d) pairs ∅.

(** [ensure_data_file]: an absent file is created empty. *)
Definition ensure_data_file (file : option str) : option str :=
  match file with
  | None => Some []
  | Some c => Some c
  end.

(** [while len(parts) < 4: parts.append("")]; four rounds always suffice. *)
Fixpoint pad_loop (rounds : nat) (parts : list str) : list str :=
  match rounds with
  | 0 => parts
  | S k => if length parts <? 4 then pad_loop k (parts ++ [[]]) else parts
  end.

Definition row_to_emp (row : list str) : gmap string str :=
  let parts := pad_loop 4 (map strip row) in
  dict_of (zip FIELDNAMES (take 4 parts)).

Fixpoint load_rows (rows : list (list str)) : list (gmap string str) :=
  match rows with
  | [] => []
  | row :: rows' =>
      match row with
      | [] => load_rows rows'
      | _ => row_to_emp row :: load_rows rows'
      end
  end.

(** [load_employees] where the reader does not raise: the file after the
    call, and the list returned. *)
Definition load_employees (file : option str)
    : option str * list (gmap string str) :=
  let file1 := ensure_data_file file in
  (file1, load_rows (csv.reader (csv.readlines (default [] file1)))).

(** [load_employees] with the reader's field size limit: [None] when the
    reader raises [_csv.Error], which [load_employees] does not catch. *)
Definition load_employees_checked (file : option str)
    : option (option str * list (gmap string str)) :=
  let file1 := ensure_data_file file in
  match csv.reader_checked (csv.readlines (default [] file1)) with
  | Some rows => Some (file1, load_rows rows)
  | None => None
  end.

(** *** Saving: the file-system steps of [atomic_save_employees] *)

(** The two files the save touches: the backing file and the temporary
    file that [mkstemp] creates for this call. *)
Record fs := mkFs {
  data_file : option str;
  tmp_file : option str
}.

(** [shutil.move(tmpname, path)] first calls [os.rename].  Where that
    succeeds, the backing file is replaced in one step.  Where it raises
    [OSError] (on Windows it does whenever the target exists),
    [shutil.move] copies the temporary file over the backing file and then
    unlinks the temporary file: [copy2] opens the target for writing, which
    empties it, and writes the content piece by piece, [bufsize] characters
    at a time. *)
Inductive move_kind :=
| RenameWorks
| RenameRaises (bufsize : nat).

Inductive fs_op :=
| Mkstemp                       (* tempfile.mkstemp, os.close *)
| OpenTruncate                  (* open(tmpname, 'w') *)
| WriteRow (row : list str)     (* writer.writerow(row) *)
| CloseFile                     (* leaving the with block *)
| Rename                        (* shutil.move: os.rename succeeds *)
| CopyOpen                      (* shutil.move, copy2: open(path, 'wb') *)
| CopyPiece (n : nat)           (* copy2: the next n characters *)
| Unlink                        (* shutil.move: os.unlink(tmpname) *)
| RemoveTmp.                    (* finally: remove tmpname if it exists *)

Definition step (s : fs) (op : fs_op) : fs :=
  match op with
  | Mkstemp => mkFs (data_file s) (Some [])
  | OpenTruncate => mkFs (data_file s) (Some [])
  | WriteRow row =>
      mkFs (data_file s) ((fun c => c ++ csv.writerow row) <$> tmp_file s)
  | CloseFile => s
  | Rename =>
      match tmp_file s with
      | Some c => mkFs (Some c) None
      | None => s
      end
  | CopyOpen => mkFs (Some []) (tmp_file s)
  | CopyPiece n =>
      match data_file s, tmp_file s with
      | Some d, Some t =>
          mkFs (Some (d ++ take n (drop (length d) t))) (tmp_file s)
      | _, _ => s
      end
  | Unlink => mkFs (data_file s) None
  | RemoveTmp => mkFs (data_file s) None
  end.

Definition exec (ops : list fs_op) (s : fs) : fs := fold_left step ops s.

(** The row written for one employee: absent keys are written empty. *)
Definition emp_row (e : gmap string str) : list str :=
  [dict_get e "id" []; dict_get e "name" [];
   dict_get e "department" []; dict_get e "role" []].

(** The text a save writes for a list of records. *)
Definition save_content (employees : list (gmap string str)) : str :=
  concat (map (fun e => csv.writerow (emp_row e)) employees).

(** The steps of the [with] block. *)
Definition save_steps (employees : list (gmap string str)) : list fs_op :=
  OpenTruncate :: map (fun e => WriteRow (emp_row e)) employees
    ++ [CloseFile].

(** The steps of [shutil.move].  The copy loop ends when nothing is left
    to copy; every round before that copies at least one character, so as
    many rounds as the content has characters are always enough, and a
    round that finds nothing left changes nothing. *)
Definition move_steps (m : move_kind) (employees : list (gmap string str))
    : list fs_op :=
  match m with
  | RenameWorks => [Rename]
  | RenameRaises bufsize =>
      CopyOpen
        :: repeat (CopyPiece bufsize) (length (save_content employees))
        ++ [Unlink]
  end.

(** The body of the [try] block. *)
Definition save_body (m : move_kind) (employees : list (gmap string str))
    : list fs_op :=
  save_steps employees ++ move_steps m employees.

Definition save_ops (m : move_kind) (employees : list (gmap string str))
    : list fs_op :=
  Mkstemp :: save_body m employees ++ [RemoveTmp].

(** The backing file after a save that runs to its end.  Both ways of the
    move end with the same files; the one taken here is the rename. *)
Definition atomic_save_employees (employees : list (gmap string str))
    (file : option str) : option str :=
  data_file (exec (save_ops RenameWorks employees) (mkFs file None)).

(** The save stopped dead after its first [k] steps. *)
Definition interrupted_save (m : move_kind) (k : nat)
    (employees : list (gmap string str)) (file : option str) : fs :=
  exec (take k (save_ops m employees)) (mkFs file None).

(** The save when step [k] of the [try] block raises: the steps before it
    have run, then the [finally] clause runs. *)
Definition failed_save (m : move_kind) (k : nat)
    (employees : list (gmap string str)) (file : option str) : fs :=
  step (exec (take k (save_body m employees)) (step (mkFs file None) Mkstemp))
       RemoveTmp.

(** *** Lookup and the three mutating operations *)

(** [e.get('id')]: the id of a record, [None] when it has none. *)
Definition id_of (e : gmap string str) : option str := e !! "id"%string.

Fixpoint find_employee_by_id (emp_id : str)
    (employees : list (gmap string str)) : option (gmap string str) :=
  match employees with
  | [] => None
  | e :: rest =>
      if decide (id_of e = Some emp_id) then Some e
      else find_employee_by_id emp_id rest
  end.

(** Truth value of what [find_employee_by_id] returns: [None] and the empty
    dict are false. *)
Definition truthy (r : option (gmap string str)) : bool :=
  match r with
  | None => false
  | Some e => negb (bool_decide (e = ∅))
  end.

(** What an operation hands back: the success flag and the message. *)
Definition outcome : Type := bool * string.

Definition add_employee (emp_dict : gmap string str) (file : option str)
    : option str * outcome :=
  let '(file1, employees) := load_employees file in
  if truthy (find_employee_by_id (strip (dict_get emp_dict "id" [])) employees)
  then (file1, (false, "ID already exists"%string))
  else (atomic_save_employees (employees ++ [emp_dict]) file1,
        (true, "Added"%string)).

Definition delete_employee (emp_id : str) (file : option str)
    : option str * outcome :=
  let '(file1, employees) := load_employees file in
  let before := length employees in
  let employees' :=
    filter (fun e => id_of e <> Some emp_id) employees in
  if length employees' =? before
  then (file1, (false, "ID not found"%string))
  else (atomic_save_employees employees' file1, (true, "Deleted"%string)).

(** How the [for] loop of [update_employee] ends. *)
Inductive loop_end :=
| Returned (r : outcome)
| Finished (found : bool) (employees : list (gmap string str)).

Fixpoint update_loop (emp_id : str) (updated_dict : gmap string str)
    (employees : list (gmap string str)) (i : nat)
    (rest : list (gmap string str)) : loop_end :=
  match rest with
  | [] => Finished false employees
  | e :: rest' =>
      if decide (id_of e = Some emp_id) then
        let new_id := strip (dict_get updated_dict "id" emp_id) in
        if negb (bool_decide (new_id = emp_id))
           && truthy (find_employee_by_id new_id employees)
        then Returned (false, "Target ID already exists"%string)
        else Finished true (<[i := updated_dict]> employees)
      else update_loop emp_id updated_dict employees (S i) rest'
  end.

Definition update_employee (emp_id : str) (updated_dict : gmap string str)
    (file : option str) : option str * outcome :=
  let '(file1, employees) := load_employees file in
  match update_loop emp_id updated_dict employees 0 employees with
  | Returned r => (file1, r)
  | Finished false _ => (file1, (false, "ID not found"%string))
  | Finished true employees' =>
      (atomic_save_employees employees' file1, (true, "Updated"%string))
  end.

(** The records a later [load_employees] returns: the persisted collection. *)
Definition persisted (file : option str) : list (gmap string str) :=
  (load_employees file).2.

(** No two records share an id. *)
Definition unique_ids (employees : list (gmap string str)) : Prop :=
  NoDup (map (id_of) employees).

(** *** The three operations with the reader's limit

    The same three functions over [load_employees_checked]: [None] when the
    load raises. *)

Definition add_employee_checked (emp_dict : gmap string str)
    (file : option str) : option (option str * outcome) :=
  match load_employees_checked file with
  | None => None
  | Some (file1, employees) =>
      if truthy (find_employee_by_id (strip (dict_get emp_dict "id" []))
                                     employees)
      then Some (file1, (false, "ID already exists"%string))
      else Some (atomic_save_employees (employees ++ [emp_dict]) file1,
                 (true, "Added"%string))
  end.

Definition delete_employee_checked (emp_id : str) (file : option str)
    : option (option str * outcome) :=
  match load_employees_checked file with
  | None => None
  | Some (file1, employees) =>
      let before := length employees in
      let employees' :=
        filter (fun e => id_of e <> Some emp_id) employees in
      if length employees' =? before
      then Some (file1, (false, "ID not found"%string))
      else Some (atomic_save_employees employees' file1,
                 (true, "Deleted"%string))
  end.

Definition update_employee_checked (emp_id : str)
    (updated_dict : gmap string str) (file : option str)
    : option (option str * outcome) :=
  match load_employees_checked file with
  | None => None
  | Some (file1, employees) =>
      match update_loop emp_id updated_dict employees 0 employees with
      | Returned r => Some (file1, r)
      | Finished false _ => Some (file1, (false, "ID not found"%string))
      | Finished true employees' =>
          Some (atomic_save_employees employees' file1,
                (true, "Updated"%string))
      end
  end.

(** ** The form (gui.py) *)

(** *** Python's string operations, as the form calls them *)

(** [str.lower] on code points below 256. *)
Definition lower_char (c : ascii) : ascii :=
  let n := nat_of_ascii c in
  if ((65 <=? n) && (n <=? 90))
     || ((192 <=? n) && (n <=? 222) && negb (n =? 215))
  then ascii_of_nat (n + 32)
  else c.

Definition lower (s : str) : str := map lower_char s.

(** [str.isdigit]: not empty, and every character a digit (the digits
    below 256 are [0] to [9] and the superscripts one, two and three). *)
Definition isdigit_char (c : ascii) : bool :=
  let n := nat_of_ascii c in
  ((48 <=? n) && (n <=? 57)) || (n =? 178) || (n =? 179) || (n =? 185).

Definition isdigit (s : str) : bool :=
  negb (bool_decide (s = [])) && forallb isdigit_char s.

(** [s.startswith(p)] and [needle in hay]. *)
Fixpoint starts_with (p s : str) : bool :=
  match p, s with
  | [], _ => true
  | _ :: _, [] => false
  | a :: p', b :: s' => bool_decide (a = b) && starts_with p' s'
  end.

Fixpoint contains (needle hay : str) : bool :=
  starts_with needle hay
  || match hay with
     | [] => false
     | _ :: hay' => contains needle hay'
     end.

(** [s.split()]: the runs of characters between whitespace. *)
Fixpoint split_ws_aux (cur s : str) : list str :=
  match s with
  | [] => match cur with [] => [] | _ => [cur] end
  | c :: s' =>
      if isspace c then
        match cur with
        | [] => split_ws_aux [] s'
        | _ => cur :: split_ws_aux [] s'
        end
      else split_ws_aux (cur ++ [c]) s'
  end.

Definition split_ws (s : str) : list str := split_ws_aux [] s.

(** [sep.join(words)] *)
Fixpoint join (sep : str) (words : list str) : str :=
  match words with
  | [] => []
  | w :: rest =>
      match rest with
      | [] => w
      | _ => w ++ sep ++ join sep rest
      end
  end.

(** The text before and after the first occurrence of a separator. *)
Fixpoint split_once (sep s : str) : option (str * str) :=
  if starts_with sep s then Some ([], drop (length sep) s)
  else match s with
       | [] => None
       | c :: s' =>
           match split_once sep s' with
           | Some (a, b) => Some (c :: a, b)
           | None => None
           end
       end.

(** [s.split(sep, 1)] for a separator that is not empty. *)
Definition split1 (sep s : str) : list str :=
  match split_once sep s with
  | Some (a, b) => [a; b]
  | None => [s]
  end.

(** [s.split(sep)] for a separator that is not empty; every cut takes at
    least one character, so [length s] rounds are enough. *)
Fixpoint split_rounds (rounds : nat) (sep s : str) : list str :=
  match rounds with
  | 0 => [s]
  | S k =>
      match split_once sep s with
      | Some (a, b) => a :: split_rounds k sep b
      | None => [s]
      end
  end.

Definition split (sep s : str) : list str := split_rounds (length s) sep s.

(** [a, b = parts]: [None] stands for the ValueError of a list that has
    not exactly two items. *)
Definition unpack2 (parts : list str) : option (str * str) :=
  match parts with
  | [a; b] => Some (a, b)
  | _ => None
  end.

(** *** The window and its handlers *)

(** What the handlers read and write: the four entry fields (and whether
    the id entry is disabled), the department choices, the selected id and
    the lines of the list box. *)
Record EmployeeApp := mkApp {
  entry_id : str;
  entry_id_disabled : bool;
  entry_name : str;
  entry_dept : str;
  entry_role : str;
  dept_values : list str;
  selected_id : option str;
  listbox : list str
}.

(** The message box a handler ends with, if any. *)
Inductive dialog :=
| ShowWarning (title message : string)
| ShowError (title message : string)
| ShowInfo (title message : string)
| NoDialog.

(** [b1 or b2] where reading either side may raise ([None]): the right
    side is not read when the left is true. *)
Definition or_else (b1 b2 : option bool) : option bool :=
  match b1 with
  | Some true => Some true
  | Some false => b2
  | None => None
  end.

(** [not emp[k]]; [None] stands for the KeyError of a missing key. *)
Definition is_blank (emp : gmap string str) (k : string) : option bool :=
  match emp !! k with
  | Some v => Some (bool_decide (v = []))
  | None => None
  end.

(** The line of the list box for one record:
    [ID - Name (Department) | Role]. *)
Definition display_line (emp : gmap string str) : option str :=
  match emp !! "id"%string, emp !! "name"%string,
        emp !! "department"%string, emp !! "role"%string with
  | Some i, Some n, Some d, Some r =>
      Some (i ++ chars " - " ++ n ++ chars " (" ++ d ++ chars ") | " ++ r)
  | _, _, _, _ => None
  end.

Fixpoint display_lines (emps : list (gmap string str)) : option (list str) :=
  match emps with
  | [] => Some []
  | e :: rest =>
      match display_line e, display_lines rest with
      | Some l, Some ls => Some (l :: ls)
      | _, _ => None
      end
  end.

Definition clear_fields (a : EmployeeApp) : EmployeeApp :=
  mkApp [] false [] [] [] (dept_values a) None (listbox a).

(** [refresh_list]: the window and the file after it; [None] stands for a
    KeyError while a line is built. *)
Definition refresh_list (a : EmployeeApp) (file : option str)
    : option (EmployeeApp * option str) :=
  let '(file1, employees) := load_employees file in
  match display_lines employees with
  | Some ls =>
      Some (mkApp (entry_id a) (entry_id_disabled a) (entry_name a)
                  (entry_dept a) (entry_role a) (dept_values a)
                  (selected_id a) ls, file1)
  | None => None
  end.

(** [on_select], given what [curselection] returns; [None] stands for the
    ValueError of a line that does not split as expected. *)
Definition on_select (a : EmployeeApp) (sel : list nat) : option EmployeeApp :=
  match sel with
  | [] => Some a
  | i :: _ =>
      match unpack2 (split1 (chars " - ") (default [] (listbox a !! i))) with
      | None => None
      | Some (emp_id, rest) =>
          match unpack2 (split1 (chars " (") rest) with
          | None => None
          | Some (name, rest') =>
              match unpack2 (split (chars ") | ") rest') with
              | None => None
              | Some (department, role) =>
                  Some (mkApp emp_id true name department role
                              (dept_values a) (Some emp_id) (listbox a))
              end
          end
      end
  end.

(** [not self.selected_id]: nothing selected, or the empty id. *)
Definition no_selection (a : EmployeeApp) : bool :=
  match selected_id a with
  | None => true
  | Some i => bool_decide (i = [])
  end.

(** One round of the loop of [on_search]: whether the record is skipped. *)
Definition search_skips (id_q name_q dept_q role_q : str)
    (e : gmap string str) : option bool :=
  or_else
    (if bool_decide (id_q = []) then Some false
     else match e !! "id"%string with
          | Some v => Some (negb (bool_decide (id_q = v)))
          | None => None
          end)
    (or_else
       (if bool_decide (name_q = []) then Some false
        else match e !! "name"%string with
             | Some v => Some (negb (contains name_q (lower v)))
             | None => None
             end)
       (or_else
          (if bool_decide (dept_q = []) then Some false
           else match e !! "department"%string with
                | Some v => Some (negb (contains dept_q (lower v)))
                | None => None
                end)
          (if bool_decide (role_q = []) then Some false
           else match e !! "role"%string with
                | Some v => Some (negb (contains role_q (lower v)))
                | None => None
                end))).

Fixpoint search_loop (id_q name_q dept_q role_q : str)
    (employees : list (gmap string str)) : option (list (gmap string str)) :=
  match employees with
  | [] => Some []
  | e :: rest =>
      match search_skips id_q name_q dept_q role_q e,
            search_loop id_q name_q dept_q role_q rest with
      | Some true, Some results => Some results
      | Some false, Some results => Some (e :: results)
      | _, _ => None
      end
  end.

Definition on_search (a : EmployeeApp) (file : option str)
    : option (EmployeeApp * option str) :=
  let id_q := strip (entry_id a) in
  let name_q := lower (strip (entry_name a)) in
  let dept_q := lower (strip (entry_dept a)) in
  let role_q := lower (strip (entry_role a)) in
  let '(file1, employees) := load_employees file in
  match search_loop id_q name_q dept_q role_q employees with
  | None => None
  | Some results =>
      match display_lines results with
      | Some ls =>
          Some (mkApp (entry_id a) (entry_id_disabled a) (entry_name a)
                      (entry_dept a) (entry_role a) (dept_values a)
                      (selected_id a) ls, file1)
      | None => None
      end
  end.

(** [on_delete], given the answer to the confirmation. *)
Definition on_delete (a : EmployeeApp) (confirm : bool) (file : option str)
    : option (EmployeeApp * option str * dialog) :=
  if no_selection a then
    Some (a, file, ShowWarning "Delete" "Select an employee to delete.")
  else if negb confirm then Some (a, file, NoDialog)
  else
    let '(file1, _) := delete_employee (default [] (selected_id a)) file in
    match refresh_list a file1 with
    | Some (a2, file2) => Some (clear_fields a2, file2, NoDialog)
    | None => None
    end.

(** The handlers that go through [smart_title].  Python's [str.upper] and
    [str.capitalize] can leave the code points below 256; they are taken as
    they are, as two functions on texts. *)
Section form.
Variables upper capitalize : str -> str.

Definition special : list str :=
  [chars "IT"; chars "HR"; chars "CEO"; chars "CTO"; chars "CFO";
   chars "UI"; chars "UX"].

Definition title_word (w : str) : str :=
  if bool_decide (upper w ∈ special) then upper w else capitalize w.

Definition smart_title (text : str) : str :=
  join (chars " ") (map title_word (split_ws (strip text))).

Definition get_fields (a : EmployeeApp) : EmployeeApp * gmap string str :=
  let name := smart_title (entry_name a) in
  let dept := smart_title (entry_dept a) in
  let role := smart_title (entry_role a) in
  let a' :=
    if negb (bool_decide (dept = []))
       && negb (bool_decide (dept ∈ dept_values a))
    then mkApp (entry_id a) (entry_id_disabled a) (entry_name a)
               (entry_dept a) (entry_role a) (dept_values a ++ [dept])
               (selected_id a) (listbox a)
    else a in
  (a', dict_of [("id"%string, strip (entry_id a)); ("name"%string, name);
                ("department"%string, dept); ("role"%string, role)]).

(** The two checks of [on_add] and [on_update] on the record of the form. *)
Definition some_field_blank (emp : gmap string str) : option bool :=
  or_else (is_blank emp "id")
    (or_else (is_blank emp "name")
       (or_else (is_blank emp "department") (is_blank emp "role"))).

Definition id_invalid (emp : gmap string str) : option bool :=
  match emp !! "id"%string with
  | Some i => Some (negb (isdigit i) || negb (length i =? 6))
  | None => None
  end.

Definition on_add (a : EmployeeApp) (file : option str)
    : option (EmployeeApp * option str * dialog) :=
  let '(a1, emp) := get_fields a in
  match some_field_blank emp with
  | None => None
  | Some true =>
      Some (a1, file,
            ShowWarning "Validation Error"
              "All fields (ID, Name, Department, Role) are required.")
  | Some false =>
      match id_invalid emp with
      | None => None
      | Some true =>
          Some (a1, file,
                ShowError "Invalid ID" "Employee ID must be exactly 6 digits.")
      | Some false =>
          let '(file1, (ok, msg)) := add_employee emp file in
          if ok then
            match refresh_list a1 file1 with
            | Some (a2, file2) =>
                Some (clear_fields a2, file2,
                      ShowInfo "Success" "Employee added successfully")
            | None => None
            end
          else Some (a1, file1, ShowError "Error" msg)
      end
  end.

(** [on_update], given the answer to the confirmation. *)
Definition on_update (a : EmployeeApp) (confirm : bool) (file : option str)
    : option (EmployeeApp * option str * dialog) :=
  if no_selection a then
    Some (a, file, ShowWarning "Update" "Select an employee to update.")
  else
    let '(a1, emp) := get_fields a in
    match some_field_blank emp with
    | None => None
    | Some true =>
        Some (a1, file,
              ShowWarning "Validation Error"
                "All fields must be filled before updating.")
    | Some false =>
        match id_invalid emp with
        | None => None
        | Some true =>
            Some (a1, file,
                  ShowError "Invalid ID"
                            "Employee ID must be exactly 6 digits.")
        | Some false =>
            if negb confirm then Some (a1, file, NoDialog)
            else
              let '(file1, (ok, msg)) :=
                update_employee (default [] (selected_id a)) emp file in
              if ok then
                match refresh_list a1 file1 with
                | Some (a2, file2) =>
                    Some (clear_fields a2, file2,
                          ShowInfo "Updated" "Employee updated successfully")
                | None => None
                end
              else Some (a1, file1, ShowError "Error" msg)
        end
    end.

End form.

(** *** The handlers that change the store, with the reader's limit

    The same handlers over the operations with the limit: [None] when a
    load raises [_csv.Error] or a key is missing. *)

Definition refresh_list_checked (a : EmployeeApp) (file : option str)
    : option (EmployeeApp * option str) :=
  match load_employees_checked file with
  | None => None
  | Some (file1, employees) =>
      match display_lines employees with
      | Some ls =>
          Some (mkApp (entry_id a) (entry_id_disabled a) (entry_name a)
                      (entry_dept a) (entry_role a) (dept_values a)
                      (selected_id a) ls, file1)
      | None => None
      end
  end.

Definition on_delete_checked (a : EmployeeApp) (confirm : bool)
    (file : option str) : option (EmployeeApp * option str * dialog) :=
  if no_selection a then
    Some (a, file, ShowWarning "Delete" "Select an employee to delete.")
  else if negb confirm then Some (a, file, NoDialog)
  else
    match delete_employee_checked (default [] (selected_id a)) file with
    | None => None
    | Some (file1, _) =>
        match refresh_list_checked a file1 with
        | Some (a2, file2) => Some (clear_fields a2, file2, NoDialog)
        | None => None
        end
    end.

Section form_checked.
Variables upper capitalize : str -> str.

Definition on_add_checked (a : EmployeeApp) (file : option str)
    : option (EmployeeApp * option str * dialog) :=
  let '(a1, emp) := get_fields upper capitalize a in
  match some_field_blank emp with
  | None => None
  | Some true =>
      Some (a1, file,
            ShowWarning "Validation Error"
              "All fields (ID, Name, Department, Role) are required.")
  | Some false =>
      match id_invalid emp with
      | None => None
      | Some true =>
          Some (a1, file,
                ShowError "Invalid ID" "Employee ID must be exactly 6 digits.")
      | Some false =>
          match add_employee_checked emp file with
          | None => None
          | Some (file1, (ok, msg)) =>
              if ok then
                match refresh_list_checked a1 file1 with
                | Some (a2, file2) =>
                    Some (clear_fields a2, file2,
                          ShowInfo "Success" "Employee added successfully")
                | None => None
                end
              else Some (a1, file1, ShowError "Error" msg)
          end
      end
  end.

Definition on_update_checked (a : EmployeeApp) (confirm : bool)
    (file : option str) : option (EmployeeApp * option str * dialog) :=
  if no_selection a then
    Some (a, file, ShowWarning "Update" "Select an employee to update.")
  else
    let '(a1, emp) := get_fields upper capitalize a in
    match some_field_blank emp with
    | None => None
    | Some true =>
        Some (a1, file,
              ShowWarning "Validation Error"
                "All fields must be filled before updating.")
    | Some false =>
        match id_invalid emp with
        | None => None
        | Some true =>
            Some (a1, file,
                  ShowError "Invalid ID"
                            "Employee ID must be exactly 6 digits.")
        | Some false =>
            if negb confirm then Some (a1, file, NoDialog)
            else
              match update_employee_checked (default [] (selected_id a))
                                            emp file with
              | None => None
              | Some (file1, (ok, msg)) =>
                  if ok then
                    match refresh_list_checked a1 file1 with
                    | Some (a2, file2) =>
                        Some (clear_fields a2, file2,
                              ShowInfo "Updated"
                                       "Employee updated successfully")
                    | None => None
                    end
                  else Some (a1, file1, ShowError "Error" msg)
              end
        end
    end.

End form_checked.

(** * Auxiliary definitions

    Notions the statements and proofs below are phrased with. *)

Module csv_scan.
Import csv.

(** ** The reader over a text: lines and parsing fused

    [scan r ne s] is what the reader yields on the text [s] when its state
    is [r] after the characters of the current line read so far; [ne] tells
    whether the current line has any character yet. *)

Definition feed (r : Reader) (l : str) : Reader :=
  fold_left parse_process_char (map Some l) r.

Definition at_eof (r : Reader) : list (list str) :=
  if negb (bool_decide (field r = []))
     || bool_decide (state r = IN_QUOTED_FIELD)
  then [fields (parse_save_field r)]
  else [].

Definition finish_line (r : Reader) (k : Reader -> list (list str))
    : list (list str) :=
  let r' := parse_process_char r None in
  if decide (state r' = START_RECORD) then fields r' :: k parse_reset
  else k r'.

Fixpoint scan (r : Reader) (ne : bool) (s : str) : list (list str) :=
  match s with
  | [] => if ne then finish_line r at_eof else at_eof r
  | c :: s' =>
      if decide (c = LF) then
        finish_line (parse_process_char r (Some c))
                    (fun r' => scan r' false s')
      else if decide (c = CR) then
        match s' with
        | c2 :: s'' =>
            if decide (c2 = LF) then
              finish_line
                (parse_process_char (parse_process_char r (Some CR)) (Some LF))
                (fun r' => scan r' false s'')
            else
              finish_line (parse_process_char r (Some CR))
                          (fun r' => scan r' false s')
        | [] => finish_line (parse_process_char r (Some CR)) at_eof
        end
      else scan (parse_process_char r (Some c)) true s'
  end.

(** One field as written. *)
Definition enc (f : str) : str :=
  if existsb needs_quote f then QUOTE :: double_quotes f ++ [QUOTE] else f.

(** The fields after the first, each behind its delimiter. *)
Fixpoint join_tail (row : list str) : str :=
  match row with
  | [] => []
  | f :: row' => COMMA :: enc f ++ join_tail row'
  end.

End csv_scan.

(** The dict with exactly the four fields of an employee. *)
Definition mk_emp (a b c d : str) : gmap string str :=
  dict_of (zip FIELDNAMES [a; b; c; d]).

(** A record as it is read back once saved: its four fields, each
    stripped, an absent one empty. *)
Definition stored_form (e : gmap string str) : gmap string str :=
  row_to_emp (emp_row e).

(** The steps of a save before the move. *)
Definition save_prefix (employees : list (gmap string str)) : list fs_op :=
  Mkstemp :: save_steps employees.

(** A text within the reader's field size limit. *)
Definition fits (f : str) : Prop :=
  (N.of_nat (length f) <= csv.field_limit)%N.

(** Every field of every row the reader splits the file into is within the
    limit. *)
Definition fields_fit (file : option str) : Prop :=
  Forall (Forall fits) (csv.reader (csv.readlines (default [] file))).

(** The four fields a record is written with are within the limit. *)
Definition record_fits (e : gmap string str) : Prop :=
  Forall fits (emp_row e).

(** What the reader holds of the current row is within the limit. *)
Definition seen_fit (r : csv.Reader) : Prop :=
  fits (csv.field r) /\ Forall fits (csv.fields r).

(** The reader holds no character of a field at the start of a row and
    after a line end. *)
Definition idle_empty (r : csv.Reader) : Prop :=
  (csv.state r = csv.START_RECORD \/ csv.state r = csv.EAT_CRNL) ->
  csv.field r = [].

(** Some record of the list has this id. *)
Definition has_id (i : str) (employees : list (gmap string str)) : Prop :=
  exists e, e ∈ employees /\ id_of e = Some i.

(** The two error kinds, as the outcomes that report them. *)
Definition DuplicateID (r : outcome) : Prop :=
  r = (false, "ID already exists"%string)
  \/ r = (false, "Target ID already exists"%string).

Definition NotFound (r : outcome) : Prop :=
  r = (false, "ID not found"%string).

(** The line of the list box for the four fields of a record. *)
Definition line_text (i n d r : str) : str :=
  i ++ chars " - " ++ n ++ chars " (" ++ d ++ chars ") | " ++ r.

(** The window with another content of the list box. *)
Definition with_listbox (a : EmployeeApp) (ls : list str) : EmployeeApp :=
  mkApp (entry_id a) (entry_id_disabled a) (entry_name a) (entry_dept a)
        (entry_role a) (dept_values a) (selected_id a) ls.

(** The line of the list box for a record, an absent field read as empty. *)
Definition line_of (e : gmap string str) : str :=
  line_text (dict_get e "id" []) (dict_get e "name" [])
            (dict_get e "department" []) (dict_get e "role" []).

(** What [on_search] asks of a record: every query that is not empty is
    met, the id by equality, the others by occurring in the lower-cased
    field. *)
Definition meets_query (id_q name_q dept_q role_q : str)
    (e : gmap string str) : Prop :=
  (id_q = [] \/ id_of e = Some id_q)
  /\ (name_q = [] \/ contains name_q (lower (dict_get e "name" [])) = true)
  /\ (dept_q = []
      \/ contains dept_q (lower (dict_get e "department" [])) = true)
  /\ (role_q = [] \/ contains role_q (lower (dict_get e "role" [])) = true).

(** The form passes the two checks of [on_add] and [on_update]: no field
    of its record is empty, and the id is six digits. *)
Definition form_valid (upper capitalize : str -> str) (a : EmployeeApp)
    : bool :=
  negb (bool_decide (strip (entry_id a) = [])
        || bool_decide (smart_title upper capitalize (entry_name a) = [])
        || bool_decide (smart_title upper capitalize (entry_dept a) = [])
        || bool_decide (smart_title upper capitalize (entry_role a) = []))
  && (isdigit (strip (entry_id a)) && (length (strip (entry_id a)) =? 6)).

(** The id of a record is six digits. *)
Definition six_digit_id (e : gmap string str) : Prop :=
  exists i, id_of e = Some i /\ isdigit i = true /\ length i = 6.

(** [str.upper] and [str.capitalize] on texts of ASCII characters, where
    they stay below code point 256; the examples take them for the two
    functions of [smart_title]. *)
Definition upper_char (c : ascii) : ascii :=
  let n := nat_of_ascii c in
  if (97 <=? n) && (n <=? 122) then ascii_of_nat (n - 32) else c.

Definition ascii_upper (s : str) : str := map upper_char s.

Definition ascii_capitalize (s : str) : str :=
  match s with
  | [] => []
  | c :: rest => upper_char c :: lower rest
  end.

(** A word: a text that is not empty and holds no whitespace. *)
Definition is_word (w : str) : bool :=
  negb (bool_decide (w = [])) && forallb (fun c => negb (isspace c)) w.

(** [upper] and [capitalize] turn every word of the text into a word. *)
Definition words_kept (upper capitalize : str -> str) (text : str) : Prop :=
  Forall (fun w => is_word (upper w) = true /\ is_word (capitalize w) = true)
         (split_ws (strip text)).

(** On every word of the text, [upper] and [capitalize] change nothing when
    applied again, and [capitalize] does not change what [upper] gives. *)
Definition case_stable (upper capitalize : str -> str) (text : str) : Prop :=
  Forall (fun w => upper (upper w) = upper w
                   /\ capitalize (capitalize w) = capitalize w
                   /\ upper (capitalize w) = upper w)
         (split_ws (strip text)).

(** * Facts about the csv model *)

Module csv_facts.
Import csv csv_scan.

Lemma feed_app r a b : feed r (a ++ b) = feed (feed r a) b.
Proof. unfold feed. by rewrite map_app, fold_left_app. Qed.

Lemma reader_from_nil r : reader_from r [] = at_eof r.
Proof. reflexivity. Qed.

Lemma reader_from_line r0 cur t ls (k : Reader -> list (list str)) :
  (forall r, reader_from r ls = k r) ->
  reader_from r0 ((cur ++ t) :: ls) = finish_line (feed (feed r0 cur) t) k.
Proof.
  intros Hk. cbn [reader_from]. unfold parse_line, finish_line.
  fold (feed r0 (cur ++ t)). rewrite feed_app.
  destruct (decide _); by rewrite Hk.
Qed.

Lemma reader_from_scan_bounded n :
  forall s r0 cur, length s <= n ->
    reader_from r0 (readlines_aux cur s)
    = scan (feed r0 cur) (negb (bool_decide (cur = []))) s.
Proof.
  induction n as [|n IH]; intros s r0 cur Hn.
  - destruct s; [|simpl in Hn; lia].
    destruct cur as [|c cur]; [reflexivity|].
    cbn [readlines_aux scan]. rewrite bool_decide_eq_false_2 by done.
    cbn [negb].
    exact (reader_from_line r0 [] (c :: cur) [] at_eof (fun _ => eq_refl)).
  - destruct s as [|c s].
    { destruct cur as [|c cur]; [reflexivity|].
      cbn [readlines_aux scan]. rewrite bool_decide_eq_false_2 by done.
      cbn [negb].
      exact (reader_from_line r0 [] (c :: cur) [] at_eof (fun _ => eq_refl)). }
    simpl in Hn. cbn [readlines_aux scan].
    destruct (decide (c = LF)) as [->|HLF].
    { apply (reader_from_line r0 cur [LF]). intros r.
      rewrite IH by lia. reflexivity. }
    destruct (decide (c = CR)) as [->|HCR].
    { destruct s as [|c2 s].
      - exact (reader_from_line r0 cur [CR] [] at_eof (fun _ => eq_refl)).
      - simpl in Hn. destruct (decide (c2 = LF)) as [->|H2].
        + apply (reader_from_line r0 cur [CR; LF]). intros r.
          rewrite IH by lia. reflexivity.
        + apply (reader_from_line r0 cur [CR]). intros r.
          rewrite IH by (simpl; lia). reflexivity. }
    rewrite IH by lia. rewrite feed_app.
    rewrite bool_decide_eq_false_2; [reflexivity|].
    by destruct cur.
Qed.

Lemma reader_scan s : reader (readlines s) = scan parse_reset false s.
Proof.
  unfold reader, readlines.
  by rewrite (reader_from_scan_bounded (length s)).
Qed.

(** ** What the writer emits *)

Lemma join_fields_S rec n row :
  join_fields rec (S n) row = rec ++ join_tail row.
Proof.
  revert rec n. induction row as [|f row IH]; intros rec n; cbn.
  - by rewrite app_nil_r.
  - rewrite IH. unfold join_append, enc. cbn. by rewrite <- app_assoc.
Qed.

Lemma join_fields_0 f row :
  join_fields [] 0 (f :: row) = enc f ++ join_tail row.
Proof. cbn. by rewrite join_fields_S. Qed.

Lemma enc_nil_inv f : enc f = [] -> f = [].
Proof. unfold enc. by destruct (existsb needs_quote f). Qed.

Lemma writerow_cons f row :
  writerow (f :: row)
  = (if bool_decide (f = [] /\ row = []) then [QUOTE; QUOTE]
     else enc f ++ join_tail row) ++ [CR; LF].
Proof.
  unfold writerow. rewrite join_fields_0.
  destruct (enc f ++ join_tail row) as [|c t] eqn:E.
  - apply app_eq_nil in E as [Hf Ht]. apply enc_nil_inv in Hf.
    assert (row = []) as -> by (by destruct row).
    subst f. reflexivity.
  - rewrite bool_decide_eq_false_2; [done|].
    intros [-> ->]. discriminate E.
Qed.

(** ** Reading back what was written *)

Lemma QUOTE_LF : QUOTE <> LF. Proof. done. Qed.
Lemma QUOTE_CR : QUOTE <> CR. Proof. done. Qed.
Lemma COMMA_LF : COMMA <> LF. Proof. done. Qed.
Lemma COMMA_CR : COMMA <> CR. Proof. done. Qed.
Lemma COMMA_QUOTE : COMMA <> QUOTE. Proof. done. Qed.
Lemma CR_LF : CR <> LF. Proof. done. Qed.

Lemma scan_other r ne c s :
  c <> LF -> c <> CR ->
  scan r ne (c :: s) = scan (parse_process_char r (Some c)) true s.
Proof. intros. cbn [scan]. by rewrite !decide_False. Qed.

Lemma scan_LF r ne s :
  scan r ne (LF :: s)
  = finish_line (parse_process_char r (Some LF)) (fun r' => scan r' false s).
Proof. reflexivity. Qed.

Lemma scan_CRLF r ne s :
  scan r ne (CR :: LF :: s)
  = finish_line (parse_process_char (parse_process_char r (Some CR)) (Some LF))
                (fun r' => scan r' false s).
Proof. reflexivity. Qed.

Lemma scan_CR r ne s :
  head s <> Some LF ->
  scan r ne (CR :: s)
  = finish_line (parse_process_char r (Some CR)) (fun r' => scan r' false s).
Proof.
  intros H. cbn [scan]. rewrite decide_False by apply CR_LF.
  rewrite decide_True by done.
  destruct s as [|c2 s]; [reflexivity|].
  rewrite decide_False; [reflexivity|]. intros ->. by apply H.
Qed.

Lemma head_double_quotes q rest :
  head q <> Some LF -> head (double_quotes q ++ QUOTE :: rest) <> Some LF.
Proof.
  destruct q as [|c q]; cbn.
  - intros _ [=].
  - destruct (decide (c = QUOTE)); cbn; [intros _ [=]|done].
Qed.

Lemma needs_quote_false c :
  needs_quote c = false -> c <> COMMA /\ c <> QUOTE /\ c <> CR /\ c <> LF.
Proof.
  unfold needs_quote. rewrite !orb_false_iff, !bool_decide_eq_false.
  tauto.
Qed.

Lemma is_newline_false c : c <> LF -> c <> CR -> is_newline c = false.
Proof.
  intros. unfold is_newline. by rewrite !bool_decide_eq_false_2.
Qed.

Lemma is_newline_CR : is_newline CR = true. Proof. reflexivity. Qed.
Lemma is_newline_LF : is_newline LF = true. Proof. reflexivity. Qed.

(** Unfold one reader step and settle its tests on the character. *)
Ltac reader_step :=
  unfold parse_process_char, start_field, set_state, parse_save_field,
    parse_add_char;
  cbn [state fields field];
  repeat first
    [ rewrite is_newline_CR | rewrite is_newline_LF
    | rewrite is_newline_false by done
    | rewrite decide_True by done
    | rewrite decide_False by done ];
  try reflexivity.

Section steps.
Context (fs : list str) (f : str).

Lemma step_quoted_quote :
  parse_process_char (mkReader IN_QUOTED_FIELD fs f) (Some QUOTE)
  = mkReader QUOTE_IN_QUOTED_FIELD fs f.
Proof. reader_step. Qed.

Lemma step_quoted_other c :
  c <> QUOTE ->
  parse_process_char (mkReader IN_QUOTED_FIELD fs f) (Some c)
  = mkReader IN_QUOTED_FIELD fs (f ++ [c]).
Proof. intros. reader_step. Qed.

Lemma step_closing_quote :
  parse_process_char (mkReader QUOTE_IN_QUOTED_FIELD fs f) (Some QUOTE)
  = mkReader IN_QUOTED_FIELD fs (f ++ [QUOTE]).
Proof. reader_step. Qed.

Lemma step_closing_comma :
  parse_process_char (mkReader QUOTE_IN_QUOTED_FIELD fs f) (Some COMMA)
  = mkReader START_FIELD (fs ++ [f]) [].
Proof. reader_step. Qed.

Lemma step_closing_CR :
  parse_process_char (mkReader QUOTE_IN_QUOTED_FIELD fs f) (Some CR)
  = mkReader EAT_CRNL (fs ++ [f]) [].
Proof. reader_step. Qed.

Lemma step_field_other c :
  c <> LF -> c <> CR -> c <> COMMA ->
  parse_process_char (mkReader IN_FIELD fs f) (Some c)
  = mkReader IN_FIELD fs (f ++ [c]).
Proof. intros. reader_step. Qed.

Lemma step_field_comma :
  parse_process_char (mkReader IN_FIELD fs f) (Some COMMA)
  = mkReader START_FIELD (fs ++ [f]) [].
Proof. reader_step. Qed.

Lemma step_field_CR :
  parse_process_char (mkReader IN_FIELD fs f) (Some CR)
  = mkReader EAT_CRNL (fs ++ [f]) [].
Proof. reader_step. Qed.

Lemma step_start_CR :
  parse_process_char (mkReader START_FIELD fs f) (Some CR)
  = mkReader EAT_CRNL (fs ++ [f]) [].
Proof. reader_step. Qed.

(** At the start of a field, whether it is the first of its row or not. *)
Lemma step_start_quote st :
  st = START_FIELD \/ st = START_RECORD ->
  parse_process_char (mkReader st fs f) (Some QUOTE)
  = mkReader IN_QUOTED_FIELD fs f.
Proof. intros [-> | ->]; reader_step. Qed.

Lemma step_start_comma st :
  st = START_FIELD \/ st = START_RECORD ->
  parse_process_char (mkReader st fs f) (Some COMMA)
  = mkReader START_FIELD (fs ++ [f]) [].
Proof. intros [-> | ->]; reader_step. Qed.

Lemma step_start_other st c :
  st = START_FIELD \/ st = START_RECORD ->
  c <> LF -> c <> CR -> c <> COMMA -> c <> QUOTE ->
  parse_process_char (mkReader st fs f) (Some c)
  = mkReader IN_FIELD fs (f ++ [c]).
Proof. intros [-> | ->] ? ? ? ?; reader_step. Qed.

(** The line terminator after a saved field ends the row. *)
Lemma finish_after_CRLF (k : Reader -> list (list str)) :
  finish_line
    (parse_process_char (mkReader EAT_CRNL fs f) (Some LF)) k
  = fs :: k parse_reset.
Proof. reflexivity. Qed.

Lemma finish_quoted (k : Reader -> list (list str)) :
  finish_line (mkReader IN_QUOTED_FIELD fs f) k
  = k (mkReader IN_QUOTED_FIELD fs f).
Proof. reflexivity. Qed.

End steps.

(** Inside quotes: the doubled text up to the closing quote gives back the
    text, line ends included. *)
Lemma scan_quoted_bounded n :
  forall q, length q <= n -> forall fs f ne rest,
    scan (mkReader IN_QUOTED_FIELD fs f) ne (double_quotes q ++ QUOTE :: rest)
    = scan (mkReader QUOTE_IN_QUOTED_FIELD fs (f ++ q)) true rest.
Proof.
  induction n as [|n IH]; intros q Hq fs f ne rest.
  { destruct q; [|simpl in Hq; lia]. cbn [double_quotes app].
    rewrite scan_other, step_quoted_quote by done. by rewrite app_nil_r. }
  destruct q as [|c q].
  { cbn [double_quotes app].
    rewrite scan_other, step_quoted_quote by done. by rewrite app_nil_r. }
  simpl in Hq. cbn [double_quotes].
  destruct (decide (c = QUOTE)) as [->|HQ].
  { cbn [app]. rewrite !scan_other by done.
    rewrite step_quoted_quote, step_closing_quote.
    rewrite IH by lia. by rewrite <- app_assoc. }
  cbn [app].
  destruct (decide (c = LF)) as [->|HLF].
  { rewrite scan_LF, step_quoted_other, finish_quoted by done.
    rewrite IH by lia. by rewrite <- app_assoc. }
  destruct (decide (c = CR)) as [->|HCR].
  { destruct (decide (head q = Some LF)) as [Hh|Hh].
    - destruct q as [|c2 q]; [done|]. injection Hh as ->.
      cbn [double_quotes]. rewrite decide_False by (symmetry; apply QUOTE_LF).
      cbn [app]. rewrite scan_CRLF. simpl in Hq.
      rewrite !step_quoted_other, finish_quoted by done.
      rewrite IH by lia. by rewrite <- !app_assoc.
    - rewrite scan_CR by by apply head_double_quotes.
      rewrite step_quoted_other, finish_quoted by done.
      rewrite IH by lia. by rewrite <- app_assoc. }
  rewrite scan_other, step_quoted_other by done.
  rewrite IH by lia. by rewrite <- app_assoc.
Qed.

Lemma scan_quoted q fs f ne rest :
  scan (mkReader IN_QUOTED_FIELD fs f) ne (double_quotes q ++ QUOTE :: rest)
  = scan (mkReader QUOTE_IN_QUOTED_FIELD fs (f ++ q)) true rest.
Proof. by apply (scan_quoted_bounded (length q)). Qed.

(** Outside quotes: a text that needs no quoting is taken as it is. *)
Lemma scan_plain f :
  existsb needs_quote f = false -> forall fs f0 ne c rest,
    scan (mkReader IN_FIELD fs f0) ne (f ++ c :: rest)
    = scan (mkReader IN_FIELD fs (f0 ++ f)) true (c :: rest).
Proof.
  induction f as [|a f IH]; intros Hf fs f0 ne c rest.
  - by rewrite app_nil_r.
  - cbn in Hf. apply orb_false_iff in Hf as [Ha Hf].
    apply needs_quote_false in Ha as (? & ? & ? & ?).
    cbn [app]. rewrite scan_other, step_field_other by done.
    rewrite IH by done. by rewrite <- app_assoc.
Qed.

(** One written field followed by the delimiter. *)
Lemma scan_field_comma st fs ne f rest :
  st = START_FIELD \/ st = START_RECORD ->
  scan (mkReader st fs []) ne (enc f ++ COMMA :: rest)
  = scan (mkReader START_FIELD (fs ++ [f]) []) true rest.
Proof.
  intros Hst. unfold enc. destruct (existsb needs_quote f) eqn:E.
  - cbn [app]. rewrite scan_other, step_start_quote by done.
    rewrite <- app_assoc. cbn [app]. rewrite scan_quoted.
    by rewrite scan_other, step_closing_comma by done.
  - destruct f as [|a f].
    + cbn [app]. by rewrite scan_other, step_start_comma by done.
    + cbn in E. apply orb_false_iff in E as [Ha E].
      apply needs_quote_false in Ha as (? & ? & ? & ?).
      cbn [app]. rewrite scan_other, step_start_other by done.
      rewrite scan_plain by done.
      by rewrite scan_other, step_field_comma by done.
Qed.

(** The last written field of a row, followed by the line terminator. *)
Lemma scan_field_end st fs ne f rest :
  st = START_FIELD \/ (st = START_RECORD /\ enc f <> []) ->
  scan (mkReader st fs []) ne (enc f ++ CR :: LF :: rest)
  = (fs ++ [f]) :: scan parse_reset false rest.
Proof.
  intros Hst.
  assert (st = START_FIELD \/ st = START_RECORD) as Hst' by tauto.
  unfold enc in *. destruct (existsb needs_quote f) eqn:E.
  - cbn [app]. rewrite scan_other, step_start_quote by done.
    rewrite <- app_assoc. cbn [app]. rewrite scan_quoted.
    by rewrite scan_CRLF, step_closing_CR, finish_after_CRLF.
  - destruct f as [|a f].
    + destruct Hst as [-> | [_ ?]]; [|done].
      cbn [app]. by rewrite scan_CRLF, step_start_CR, finish_after_CRLF.
    + cbn in E. apply orb_false_iff in E as [Ha E].
      apply needs_quote_false in Ha as (? & ? & ? & ?).
      cbn [app]. rewrite scan_other, step_start_other by done.
      rewrite scan_plain by done.
      by rewrite scan_CRLF, step_field_CR, finish_after_CRLF.
Qed.

(** A whole written row. *)
Lemma scan_fields row : forall st fs ne f rest,
  st = START_FIELD \/ (st = START_RECORD /\ (enc f <> [] \/ row <> [])) ->
  scan (mkReader st fs []) ne ((enc f ++ join_tail row) ++ CR :: LF :: rest)
  = (fs ++ f :: row) :: scan parse_reset false rest.
Proof.
  induction row as [|f2 row IH]; intros st fs ne f rest Hst.
  - cbn [join_tail]. rewrite app_nil_r. apply scan_field_end.
    destruct Hst as [?|[? [?|?]]]; tauto.
  - cbn [join_tail]. rewrite <- !app_assoc. cbn [app].
    rewrite scan_field_comma by tauto.
    rewrite IH by tauto.
    by rewrite <- app_assoc.
Qed.

Lemma scan_writerow row ne rest :
  row <> [] ->
  scan parse_reset ne (writerow row ++ rest)
  = row :: scan parse_reset false rest.
Proof.
  destruct row as [|f row]; [done|]. intros _.
  rewrite writerow_cons. case_bool_decide as Hc.
  - destruct Hc as [-> ->]. reflexivity.
  - rewrite <- app_assoc. cbn [app]. unfold parse_reset.
    rewrite scan_fields; [reflexivity|].
    right. split; [done|].
    destruct row; [left|by right].
    intros Hf%enc_nil_inv. by apply Hc.
Qed.

(** Round trip of the csv layer: rows that each have a field are read back
    as they were written. *)
Lemma reader_writer rows rest :
  Forall (fun row => row <> []) rows ->
  scan parse_reset false (concat (map writerow rows) ++ rest)
  = rows ++ scan parse_reset false rest.
Proof.
  induction 1 as [|row rows Hrow _ IH]; [reflexivity|].
  cbn [map concat]. rewrite <- app_assoc, scan_writerow by done.
  by rewrite IH.
Qed.

Lemma reader_readlines_writer rows :
  Forall (fun row => row <> []) rows ->
  reader (readlines (concat (map writerow rows))) = rows.
Proof.
  intros H. rewrite reader_scan.
  rewrite <- (app_nil_r (concat _)), reader_writer by done.
  apply app_nil_r.
Qed.

End csv_facts.

(** * Facts about the reader's field size limit *)

Module csv_limit_facts.
Import csv csv_scan.

Lemma fits_nil : fits [].
Proof. unfold fits, field_limit. cbn [length]. lia. Qed.

Lemma fits_app_l f g : fits (f ++ g) -> fits f.
Proof. unfold fits. rewrite length_app. lia. Qed.

Lemma seen_fit_reset : seen_fit parse_reset.
Proof. split; [apply fits_nil|constructor]. Qed.

Lemma idle_empty_reset : idle_empty parse_reset.
Proof. by intros _. Qed.

(** The test of [parse_add_char], read on the field after the step. *)
Lemma limit_test_false f c :
  fits (f ++ [c]) -> (field_limit <=? N.of_nat (length f))%N = false.
Proof.
  unfold fits. rewrite length_app. cbn [length]. intros H.
  apply N.leb_gt. lia.
Qed.

Lemma limit_test_fits f c :
  (field_limit <=? N.of_nat (length f))%N = false -> fits (f ++ [c]).
Proof.
  unfold fits. rewrite length_app. cbn [length]. intros H%N.leb_gt. lia.
Qed.

(** Settle every test of one reader step, with and without the limit. *)
Ltac limit_cases :=
  unfold parse_process_char_checked, parse_process_char,
    start_field_checked, start_field, parse_add_char_checked in *;
  repeat case_match; simplify_eq; try done.

(** A step with the limit that does not raise is the step without it. *)
Lemma step_checked_Some r c r' :
  parse_process_char_checked r c = Some r' -> r' = parse_process_char r c.
Proof. intros H. limit_cases. Qed.

(** The step with the limit does not raise when the field it leaves is
    within the limit. *)
Lemma step_checked_fits r c :
  fits (field (parse_process_char r c)) ->
  parse_process_char_checked r c = Some (parse_process_char r c).
Proof.
  intros H. limit_cases;
    cbn [field set_state parse_add_char] in H;
    apply limit_test_false in H; congruence.
Qed.

(** What the reader holds is within the limit before a step when it is
    after it. *)
Lemma seen_fit_before r c : seen_fit (parse_process_char r c) -> seen_fit r.
Proof.
  unfold seen_fit. intros [Hf Hfs]. limit_cases;
    cbn [field fields set_state parse_add_char parse_save_field] in Hf, Hfs;
    try (apply Forall_app in Hfs as [Hfs Hl]; apply Forall_cons in Hl as [Hl _]);
    try apply fits_app_l in Hf; done.
Qed.

(** And after a step that does not raise when it is before it. *)
Lemma seen_fit_after r c r' :
  parse_process_char_checked r c = Some r' -> seen_fit r -> seen_fit r'.
Proof.
  unfold seen_fit. intros H [Hf Hfs]. limit_cases;
    cbn [field fields set_state parse_add_char parse_save_field];
    repeat split;
    try apply fits_nil; try (by apply limit_test_fits);
    try (apply Forall_app; split; [done|by repeat constructor]); done.
Qed.

Lemma idle_empty_step r c : idle_empty r -> idle_empty (parse_process_char r c).
Proof.
  unfold idle_empty. intros H. limit_cases;
    cbn [state field set_state parse_add_char parse_save_field];
    try (intros _; apply H; by auto); try (intros [?|?]; congruence);
    try (intros _; reflexivity).
Qed.

(** After the end-of-line mark the reader is at the start of a row or
    inside quotes. *)
Lemma state_after_line r :
  state (parse_process_char r None) = START_RECORD
  \/ state (parse_process_char r None) = IN_QUOTED_FIELD.
Proof. limit_cases; cbn [state set_state]; auto. Qed.

(** At the start of a row the reader holds no character. *)
Lemma field_after_line r :
  idle_empty r -> state (parse_process_char r None) = START_RECORD ->
  field (parse_process_char r None) = [].
Proof. intros H Hs. apply (idle_empty_step r None); auto. Qed.

(** *** Over a line *)

Lemma feed_cons r c l : feed r (c :: l) = feed (parse_process_char r (Some c)) l.
Proof. reflexivity. Qed.

Lemma seen_fit_before_feed l : forall r, seen_fit (feed r l) -> seen_fit r.
Proof.
  induction l as [|c l IH]; intros r H; [done|].
  rewrite feed_cons in H. by eapply seen_fit_before, IH.
Qed.

Lemma idle_empty_feed l : forall r, idle_empty r -> idle_empty (feed r l).
Proof.
  induction l as [|c l IH]; intros r H; [done|].
  rewrite feed_cons. by apply IH, idle_empty_step.
Qed.

Lemma feed_checked_fits l : forall r,
  seen_fit (feed r l) -> feed_checked r l = Some (feed r l).
Proof.
  induction l as [|c l IH]; intros r H; [done|].
  rewrite feed_cons in H |- *. cbn [feed_checked].
  rewrite step_checked_fits; [by apply IH|].
  by apply seen_fit_before_feed in H as [? _].
Qed.

Lemma feed_checked_Some l : forall r r',
  feed_checked r l = Some r' ->
  r' = feed r l /\ (seen_fit r -> seen_fit r').
Proof.
  induction l as [|c l IH]; intros r r' H.
  - by injection H as <-.
  - cbn [feed_checked] in H.
    destruct (parse_process_char_checked r (Some c)) as [r1|] eqn:E; [|done].
    apply IH in H as [-> H]. rewrite feed_cons.
    split; [by rewrite (step_checked_Some _ _ _ E)|].
    intros Hr. by eapply H, seen_fit_after.
Qed.

Lemma parse_line_checked_fits r l :
  seen_fit (parse_line r l) ->
  parse_line_checked r l = Some (parse_line r l).
Proof.
  unfold parse_line_checked, parse_line. fold (feed r l). intros H.
  rewrite feed_checked_fits by by eapply seen_fit_before.
  apply step_checked_fits, H.
Qed.

Lemma parse_line_checked_Some r l r' :
  parse_line_checked r l = Some r' ->
  r' = parse_line r l /\ (seen_fit r -> seen_fit r').
Proof.
  unfold parse_line_checked, parse_line. fold (feed r l). intros H.
  destruct (feed_checked r l) as [r1|] eqn:E; [|done].
  apply feed_checked_Some in E as [-> E].
  split; [by apply step_checked_Some|].
  intros Hr. by eapply seen_fit_after, E.
Qed.

Lemma idle_empty_line r l : idle_empty r -> idle_empty (parse_line r l).
Proof.
  intros H. unfold parse_line. fold (feed r l).
  by apply idle_empty_step, idle_empty_feed.
Qed.

Lemma seen_fit_before_line r l : seen_fit (parse_line r l) -> seen_fit r.
Proof.
  unfold parse_line. fold (feed r l). intros H.
  by eapply seen_fit_before_feed, seen_fit_before.
Qed.

(** *** Over the lines *)

(** Inside quotes, what the reader holds ends up in a row. *)
Lemma seen_fit_quoted ls : forall r,
  idle_empty r -> state r = IN_QUOTED_FIELD ->
  Forall (Forall fits) (reader_from r ls) -> seen_fit r.
Proof.
  induction ls as [|l ls IH]; intros r Hi Hs H.
  - cbn [reader_from] in H. rewrite Hs in H.
    rewrite orb_true_r in H. apply Forall_cons in H as [H _].
    cbn [fields parse_save_field] in H.
    apply Forall_app in H as [H1 H2]. apply Forall_cons in H2 as [H2 _].
    by split.
  - cbn [reader_from] in H. apply (seen_fit_before_line r l).
    pose proof (idle_empty_line r l Hi) as Hi'.
    destruct (decide (state (parse_line r l) = START_RECORD)) as [E|E].
    + apply Forall_cons in H as [H _]. split; [|done].
      rewrite (Hi' (or_introl E)). apply fits_nil.
    + apply IH; [done| |done].
      unfold parse_line in E |- *.
      by destruct (state_after_line
                     (fold_left parse_process_char (map Some l) r)).
Qed.

(** The reader with the limit does not raise on lines whose rows have
    every field within the limit, and reads the same rows. *)
Lemma reader_from_checked_fits ls : forall r,
  idle_empty r -> Forall (Forall fits) (reader_from r ls) ->
  reader_from_checked r ls = Some (reader_from r ls).
Proof.
  induction ls as [|l ls IH]; intros r Hi H; [reflexivity|].
  cbn [reader_from reader_from_checked] in H |- *.
  pose proof (idle_empty_line r l Hi) as Hi'.
  assert (seen_fit (parse_line r l)) as Hfit.
  { destruct (decide (state (parse_line r l) = START_RECORD)) as [E|E].
    - apply Forall_cons in H as [H _]. split; [|done].
      rewrite (Hi' (or_introl E)). apply fits_nil.
    - apply (seen_fit_quoted ls); [done| |done].
      unfold parse_line in E |- *.
      by destruct (state_after_line
                     (fold_left parse_process_char (map Some l) r)). }
  rewrite parse_line_checked_fits by done.
  destruct (decide (state (parse_line r l) = START_RECORD)) as [E|E].
  - apply Forall_cons in H as [_ H].
    by rewrite IH by (done || apply idle_empty_reset).
  - by apply IH.
Qed.

(** When it does not raise it reads the rows of the reader without the
    limit, and none of their fields is over the limit. *)
Lemma reader_from_checked_Some ls : forall r rows,
  reader_from_checked r ls = Some rows ->
  rows = reader_from r ls /\ (seen_fit r -> Forall (Forall fits) rows).
Proof.
  induction ls as [|l ls IH]; intros r rows H.
  - cbn [reader_from_checked] in H. injection H as <-.
    split; [reflexivity|]. intros [Hf Hfs].
    destruct (negb _ || _); [|constructor].
    constructor; [|constructor]. cbn [fields parse_save_field].
    apply Forall_app. split; [done|by repeat constructor].
  - cbn [reader_from_checked reader_from] in H |- *.
    destruct (parse_line_checked r l) as [r1|] eqn:E; [|done].
    apply parse_line_checked_Some in E as [-> E].
    destruct (decide (state (parse_line r l) = START_RECORD)) as [Es|Es].
    + destruct (reader_from_checked parse_reset ls) as [rows'|] eqn:E';
        [|done].
      injection H as <-. apply IH in E' as [-> E'].
      split; [reflexivity|]. intros Hr. constructor.
      * by apply E.
      * apply E', seen_fit_reset.
    + apply IH in H as [-> H]. split; [reflexivity|].
      intros Hr. by apply H, E.
Qed.

Lemma reader_checked_fits lines :
  Forall (Forall fits) (reader lines) ->
  reader_checked lines = Some (reader lines).
Proof. apply reader_from_checked_fits, idle_empty_reset. Qed.

Lemma reader_checked_Some lines rows :
  reader_checked lines = Some rows ->
  rows = reader lines /\ Forall (Forall fits) rows.
Proof.
  intros H. apply reader_from_checked_Some in H as [-> H].
  split; [reflexivity|apply H, seen_fit_reset].
Qed.

End csv_limit_facts.

(** * Facts about [strip] *)

Section strip_facts.

Lemma lstrip_split s :
  exists l, s = l ++ lstrip s /\ forallb isspace l = true.
Proof.
  induction s as [|c s (l & Hl & Hsp)]; [by exists []|].
  cbn [lstrip]. destruct (isspace c) eqn:E.
  - exists (c :: l). cbn. rewrite E, Hsp. split; [by f_equal|done].
  - by exists [].
Qed.

Lemma lstrip_head s c : head (lstrip s) = Some c -> isspace c = false.
Proof.
  induction s as [|a s IH]; [done|]. cbn [lstrip].
  destruct (isspace a) eqn:E; [done|]. by intros [= <-].
Qed.

Lemma lstrip_fixed s :
  (forall c, head s = Some c -> isspace c = false) -> lstrip s = s.
Proof.
  destruct s as [|c s]; [done|]. intros H. cbn.
  by rewrite (H c).
Qed.

Lemma rstrip_split s :
  exists r, s = rstrip s ++ r /\ forallb isspace r = true.
Proof.
  destruct (lstrip_split (reverse s)) as (l & Hl & Hsp).
  exists (reverse l). split.
  - unfold rstrip. rewrite <- reverse_app, <- Hl.
    by rewrite reverse_involutive.
  - rewrite forallb_forall in *. intros c Hc. apply Hsp.
    apply list_elem_of_In, elem_of_reverse, list_elem_of_In. done.
Qed.

Lemma rstrip_last s c : last (rstrip s) = Some c -> isspace c = false.
Proof. unfold rstrip. rewrite last_reverse. apply lstrip_head. Qed.

Lemma rstrip_fixed s :
  (forall c, last s = Some c -> isspace c = false) -> rstrip s = s.
Proof.
  intros H. unfold rstrip. rewrite lstrip_fixed.
  - apply reverse_involutive.
  - intros c. rewrite head_reverse. apply H.
Qed.

(** [strip] cuts a run of whitespace from each end. *)
Lemma strip_split s :
  exists l r, s = l ++ strip s ++ r
    /\ forallb isspace l = true /\ forallb isspace r = true.
Proof.
  destruct (lstrip_split s) as (l & Hl & Hlsp).
  destruct (rstrip_split (lstrip s)) as (r & Hr & Hrsp).
  exists l, r. unfold strip. by rewrite <- Hr.
Qed.

(** What is left neither starts nor ends with whitespace. *)
Lemma strip_head s c : head (strip s) = Some c -> isspace c = false.
Proof.
  intros H. apply (lstrip_head s).
  destruct (rstrip_split (lstrip s)) as (r & Hr & _).
  rewrite Hr. fold (strip s). rewrite head_app. by rewrite H.
Qed.

Lemma strip_last s c : last (strip s) = Some c -> isspace c = false.
Proof. apply rstrip_last. Qed.

Lemma strip_fixed s :
  (forall c, head s = Some c -> isspace c = false) ->
  (forall c, last s = Some c -> isspace c = false) ->
  strip s = s.
Proof.
  intros Hh Hl. unfold strip. rewrite lstrip_fixed by done.
  by apply rstrip_fixed.
Qed.

Lemma strip_idemp s : strip (strip s) = strip s.
Proof. apply strip_fixed; [apply strip_head | apply strip_last]. Qed.

Lemma strip_nil : strip [] = [].
Proof. reflexivity. Qed.

End strip_facts.

(** * Facts about the store *)

Section store_facts.
Implicit Types (e : gmap string str) (es : list (gmap string str)).
Implicit Types (file : option str) (row : list str).

(** ** Records *)

Lemma dict_get_Some e k v d : e !! k = Some v -> dict_get e k d = v.
Proof. intros H. unfold dict_get. by rewrite H. Qed.

Lemma row_to_emp_nth row :
  row_to_emp row
  = mk_emp (strip (nth 0 row [])) (strip (nth 1 row []))
           (strip (nth 2 row [])) (strip (nth 3 row [])).
Proof.
  destruct row as [|a [|b [|c [|d r]]]]; reflexivity.
Qed.

Lemma emp_row_mk_emp a b c d : emp_row (mk_emp a b c d) = [a; b; c; d].
Proof. reflexivity. Qed.

Lemma stored_form_mk_emp a b c d :
  stored_form (mk_emp a b c d)
  = mk_emp (strip a) (strip b) (strip c) (strip d).
Proof. reflexivity. Qed.

Lemma stored_form_eq e :
  stored_form e
  = mk_emp (strip (dict_get e "id" [])) (strip (dict_get e "name" []))
           (strip (dict_get e "department" [])) (strip (dict_get e "role" [])).
Proof. reflexivity. Qed.

Lemma id_of_stored_form e :
  id_of (stored_form e) = Some (strip (dict_get e "id" [])).
Proof. reflexivity. Qed.

Lemma stored_form_idemp e : stored_form (stored_form e) = stored_form e.
Proof.
  rewrite (stored_form_eq e), stored_form_mk_emp.
  by rewrite !strip_idemp.
Qed.

Lemma stored_form_row row : stored_form (row_to_emp row) = row_to_emp row.
Proof.
  rewrite row_to_emp_nth, stored_form_mk_emp. by rewrite !strip_idemp.
Qed.

(** ** Loading *)

Lemma load_rows_app rows1 rows2 :
  load_rows (rows1 ++ rows2) = load_rows rows1 ++ load_rows rows2.
Proof.
  induction rows1 as [|[|f row] rows1 IH]; cbn [load_rows app];
    [reflexivity|assumption|].
  by rewrite IH.
Qed.

Lemma load_rows_emp_rows es :
  load_rows (map emp_row es) = map stored_form es.
Proof.
  induction es as [|e es IH]; [reflexivity|].
  change (stored_form e :: load_rows (map emp_row es)
          = stored_form e :: map stored_form es).
  by rewrite IH.
Qed.

(** Every loaded record already is in stored form. *)
Lemma load_rows_stored rows :
  Forall (fun e => stored_form e = e) (load_rows rows).
Proof.
  induction rows as [|[|f row] rows IH]; cbn [load_rows];
    [constructor|assumption|].
  constructor; [apply stored_form_row|assumption].
Qed.

Lemma map_stored_form_id es :
  Forall (fun e => stored_form e = e) es -> map stored_form es = es.
Proof.
  induction 1 as [|e es He _ IH]; cbn [map]; [reflexivity|].
  by rewrite He, IH.
Qed.

Lemma persisted_ensure file :
  persisted (ensure_data_file file) = persisted file.
Proof. destruct file; reflexivity. Qed.

Lemma persisted_stored file :
  Forall (fun e => stored_form e = e) (persisted file).
Proof. apply load_rows_stored. Qed.

(** ** Saving *)

Lemma exec_app ops1 ops2 s : exec (ops1 ++ ops2) s = exec ops2 (exec ops1 s).
Proof. apply fold_left_app. Qed.

Lemma exec_writes es d c :
  exec (map (fun e => WriteRow (emp_row e)) es) (mkFs d (Some c))
  = mkFs d (Some (c ++ save_content es)).
Proof.
  revert c. induction es as [|e es IH]; intros c; cbn.
  - by rewrite app_nil_r.
  - unfold exec in IH. rewrite IH. unfold save_content. cbn.
    by rewrite <- app_assoc.
Qed.

Lemma exec_cons op ops s : exec (op :: ops) s = exec ops (step s op).
Proof. reflexivity. Qed.

Lemma exec_save_steps es d t :
  exec (save_steps es) (mkFs d t) = mkFs d (Some (save_content es)).
Proof.
  unfold save_steps. cbn [exec fold_left step data_file tmp_file].
  fold (exec (map (fun e => WriteRow (emp_row e)) es ++ [CloseFile])
             (mkFs d (Some []))).
  by rewrite exec_app, exec_writes.
Qed.

Lemma atomic_save_employees_content es file :
  atomic_save_employees es file = Some (save_content es).
Proof.
  unfold atomic_save_employees, save_ops, save_body.
  rewrite exec_cons, !exec_app. cbn [step data_file tmp_file].
  by rewrite exec_save_steps.
Qed.

Lemma save_ops_split m es :
  save_ops m es = save_prefix es ++ move_steps m es ++ [RemoveTmp].
Proof.
  unfold save_ops, save_body, save_prefix. cbn [app]. f_equal.
  by rewrite <- app_assoc.
Qed.

Lemma exec_save_prefix es file :
  exec (save_prefix es) (mkFs file None)
  = mkFs file (Some (save_content es)).
Proof.
  unfold save_prefix. cbn [exec fold_left step data_file].
  apply exec_save_steps.
Qed.

(** Only the steps of the move touch the backing file. *)
Lemma exec_no_move ops s :
  Forall (fun op => match op with
                    | Rename | CopyOpen | CopyPiece _ => False
                    | _ => True
                    end) ops ->
  data_file (exec ops s) = data_file s.
Proof.
  intros H. revert s. induction H as [|op ops Hop _ IH]; intros s; [done|].
  rewrite exec_cons, IH. by destruct op.
Qed.

Lemma save_steps_no_move es :
  Forall (fun op => match op with
                    | Rename | CopyOpen | CopyPiece _ => False
                    | _ => True
                    end) (save_steps es).
Proof.
  unfold save_steps. constructor; [done|]. apply Forall_app. split.
  - induction es as [|e es IH]; cbn [map]; constructor; done.
  - by constructor.
Qed.

Lemma save_prefix_no_move es :
  Forall (fun op => match op with
                    | Rename | CopyOpen | CopyPiece _ => False
                    | _ => True
                    end) (save_prefix es).
Proof. constructor; [done|apply save_steps_no_move]. Qed.

(** Where the rename works, a save stopped after any number of steps
    leaves the backing file as it was or with the whole new content. *)
Lemma interrupted_rename_old_or_new k es file :
  data_file (interrupted_save RenameWorks k es file) = file
  \/ data_file (interrupted_save RenameWorks k es file)
     = atomic_save_employees es file.
Proof.
  rewrite atomic_save_employees_content.
  unfold interrupted_save. rewrite save_ops_split.
  destruct (decide (k <= length (save_prefix es))) as [Hk|Hk].
  - left. rewrite take_app_le by done.
    rewrite exec_no_move; [done|]. apply Forall_take, save_prefix_no_move.
  - right. rewrite take_app_ge by lia. rewrite exec_app, exec_save_prefix.
    destruct (k - length (save_prefix es)) as [|[|m]] eqn:E;
      [lia|reflexivity|].
    cbn [move_steps app take]. rewrite take_nil. reflexivity.
Qed.

(** Where the rename works and a step of the [try] block raises, the
    temporary file is gone and the backing file is as it was. *)
Lemma failed_rename_old k es file :
  k <= length (save_steps es) ->
  failed_save RenameWorks k es file = mkFs file None.
Proof.
  intros Hk. unfold failed_save, save_body. rewrite take_app_le by done.
  cbn [step data_file tmp_file]. f_equal.
  rewrite exec_no_move; [done|]. apply Forall_take, save_steps_no_move.
Qed.

(** The copy, round by round. *)
Lemma exec_copy_pieces n k : forall d t,
  exec (repeat (CopyPiece n) k) (mkFs (Some d) (Some t))
  = mkFs (Some (d ++ take (k * n) (drop (length d) t))) (Some t).
Proof.
  induction k as [|k IH]; intros d t.
  - cbn [repeat exec fold_left Nat.mul take]. by rewrite app_nil_r.
  - cbn [repeat]. rewrite exec_cons. cbn [step data_file tmp_file].
    rewrite IH. f_equal. f_equal. rewrite <- app_assoc. f_equal.
    rewrite length_app, <- drop_drop.
    set (u := drop (length d) t).
    replace (S k * n) with (n + k * n) by lia.
    destruct (decide (n <= length u)) as [Hn|Hn].
    + rewrite length_take, Nat.min_l by done. apply take_take_drop.
    + rewrite (take_ge u n) by lia. rewrite (take_ge u (n + k * n)) by lia.
      rewrite drop_all, take_nil. apply app_nil_r.
Qed.

(** A save that runs to its end leaves the same files whichever way the
    move goes. *)
Lemma save_end m es file :
  match m with RenameRaises 0 => False | _ => True end ->
  exec (save_ops m es) (mkFs file None)
  = mkFs (atomic_save_employees es file) None.
Proof.
  intros Hm. rewrite atomic_save_employees_content, save_ops_split.
  rewrite exec_app, exec_save_prefix.
  destruct m as [|n]; [reflexivity|].
  cbn [move_steps app]. rewrite exec_cons. cbn [step data_file tmp_file].
  rewrite !exec_app, exec_copy_pieces.
  cbn [length drop app exec fold_left step data_file tmp_file].
  rewrite drop_0, take_ge; [reflexivity|]. destruct n; [done|]. nia.
Qed.

(** Saved records are read back in stored form, in the same order. *)
Lemma persisted_save es file :
  persisted (atomic_save_employees es file) = map stored_form es.
Proof.
  rewrite atomic_save_employees_content. unfold persisted, load_employees.
  cbn [ensure_data_file default snd]. unfold save_content.
  rewrite <- (map_map emp_row csv.writerow). unfold id.
  rewrite csv_facts.reader_readlines_writer.
  - apply load_rows_emp_rows.
  - clear. induction es as [|e es IH]; cbn [map]; constructor;
      [unfold emp_row; discriminate|assumption].
Qed.

Lemma emp_rows_nonempty es :
  Forall (fun row => row <> []) (map emp_row es).
Proof.
  induction es as [|e es IH]; cbn [map]; constructor;
    [unfold emp_row; discriminate|assumption].
Qed.

(** What is loaded from a text, through the fused reader. *)
Lemma persisted_text s :
  persisted (Some s) = load_rows (csv_scan.scan csv.parse_reset false s).
Proof.
  unfold persisted, load_employees. cbn [snd ensure_data_file default].
  unfold id. by rewrite csv_facts.reader_scan.
Qed.

(** One written row, read back. *)
Lemma persisted_writerow f row :
  persisted (Some (csv.writerow (f :: row))) = [row_to_emp (f :: row)].
Proof.
  rewrite persisted_text.
  rewrite <- (app_nil_r (csv.writerow _)), csv_facts.scan_writerow by done.
  reflexivity.
Qed.

(** ** Lookup *)


Lemma truthy_find i es :
  truthy (find_employee_by_id i es) = true <-> has_id i es.
Proof.
  unfold has_id, id_of. induction es as [|e es IH]; cbn [find_employee_by_id].
  - split; [done|]. intros (e & He & _). by apply elem_of_nil in He.
  - destruct (decide (id_of e = Some i)) as [Hid|Hid].
    + cbn [truthy]. split.
      * intros _. exists e. split; [apply list_elem_of_here|done].
      * intros _. apply negb_true_iff, bool_decide_eq_false.
        intros ->. unfold id_of in Hid. by rewrite lookup_empty in Hid.
    + rewrite IH. split.
      * intros (e' & He' & Hi). exists e'.
        split; [by apply list_elem_of_further|done].
      * intros (e' & [->|He']%elem_of_cons & Hi); [done|]. by exists e'.
Qed.

Lemma truthy_find_false i es :
  truthy (find_employee_by_id i es) = false <-> ~ has_id i es.
Proof. rewrite <- truthy_find. by destruct (truthy _). Qed.

Global Instance has_id_dec i es : Decision (has_id i es).
Proof.
  destruct (truthy (find_employee_by_id i es)) eqn:E.
  - left. by apply truthy_find.
  - right. by apply truthy_find_false.
Defined.

Lemma truthy_find_bool i es :
  truthy (find_employee_by_id i es) = bool_decide (has_id i es).
Proof.
  case_bool_decide as Hh.
  - by apply truthy_find.
  - by apply truthy_find_false.
Qed.

Lemma has_id_elem i es : has_id i es <-> Some i ∈ map id_of es.
Proof.
  unfold has_id. change (map id_of es) with (id_of <$> es).
  rewrite list_elem_of_fmap. split.
  - intros (e & He & Hi). by exists e.
  - intros (e & Hi & He). by exists e.
Qed.

(** ** add_employee *)

Lemma add_employee_duplicate e file :
  has_id (strip (dict_get e "id" [])) (persisted file) ->
  add_employee e file
  = (ensure_data_file file, (false, "ID already exists"%string)).
Proof.
  intros H%truthy_find. unfold add_employee, load_employees.
  unfold persisted, load_employees in H. cbn [snd] in H. by rewrite H.
Qed.

Lemma add_employee_fresh e file :
  ~ has_id (strip (dict_get e "id" [])) (persisted file) ->
  add_employee e file
  = (Some (save_content (persisted file ++ [e])), (true, "Added"%string)).
Proof.
  intros H%truthy_find_false. unfold add_employee, load_employees.
  unfold persisted, load_employees in H. cbn [snd] in H. rewrite H.
  by rewrite atomic_save_employees_content.
Qed.

Lemma persisted_content es :
  persisted (Some (save_content es)) = map stored_form es.
Proof.
  rewrite <- (atomic_save_employees_content es None). apply persisted_save.
Qed.

Lemma persisted_add_fresh e file :
  ~ has_id (strip (dict_get e "id" [])) (persisted file) ->
  persisted (add_employee e file).1 = persisted file ++ [stored_form e].
Proof.
  intros H. rewrite add_employee_fresh by done. cbn [fst].
  rewrite persisted_content, map_app. cbn [map].
  by rewrite (map_stored_form_id _ (persisted_stored file)).
Qed.

(** ** delete_employee *)

Lemma filter_all_length es i :
  length (filter (fun e => id_of e <> Some i) es) = length es
  <-> ~ has_id i es.
Proof.
  split.
  - intros Hlen (e & He & Hi).
    pose proof (length_filter_lt (fun e => id_of e <> Some i) es e He)
      as Hlt.
    unfold id_of in Hi. assert (~ id_of e <> Some i) as Hn by tauto.
    specialize (Hlt Hn). lia.
  - intros Hno. f_equal. induction es as [|e es IH]; [done|].
    rewrite filter_cons_True.
    + f_equal. apply IH. intros (e' & He' & Hi). apply Hno.
      exists e'. split; [by apply list_elem_of_further|done].
    + intros Hi. apply Hno. exists e. split; [apply list_elem_of_here|done].
Qed.

Lemma filter_all_keep es i :
  ~ has_id i es -> filter (fun e => id_of e <> Some i) es = es.
Proof.
  intros Hno. induction es as [|e es IH]; [done|].
  rewrite filter_cons_True.
  - f_equal. apply IH. intros (e' & He' & Hi). apply Hno.
    exists e'. split; [by apply list_elem_of_further|done].
  - intros Hi. apply Hno. exists e. split; [apply list_elem_of_here|done].
Qed.

Lemma delete_employee_missing i file :
  ~ has_id i (persisted file) ->
  delete_employee i file
  = (ensure_data_file file, (false, "ID not found"%string)).
Proof.
  intros H%filter_all_length. unfold delete_employee, load_employees.
  unfold persisted, load_employees in H. cbn [snd] in H.
  by rewrite H, Nat.eqb_refl.
Qed.

Lemma delete_employee_present i file :
  has_id i (persisted file) ->
  delete_employee i file
  = (Some (save_content
             (filter (fun e => id_of e <> Some i) (persisted file))),
     (true, "Deleted"%string)).
Proof.
  intros H. unfold delete_employee, load_employees.
  unfold persisted, load_employees in H. cbn [snd] in H.
  destruct (Nat.eqb_spec
    (length (filter (fun e => id_of e <> Some i)
       (load_rows (csv.reader
          (csv.readlines (default [] (ensure_data_file file)))))))
    (length (load_rows (csv.reader
          (csv.readlines (default [] (ensure_data_file file))))))) as [E|E].
  - by apply filter_all_length in E.
  - by rewrite atomic_save_employees_content.
Qed.

Lemma Forall_stored_filter (P : gmap string str -> Prop)
    `{forall e, Decision (P e)} es :
  Forall (fun e => stored_form e = e) es ->
  Forall (fun e => stored_form e = e) (filter P es).
Proof.
  induction 1 as [|e es He _ IH]; [constructor|].
  rewrite filter_cons. destruct (decide (P e)); [by constructor|done].
Qed.

Lemma persisted_delete_present i file :
  has_id i (persisted file) ->
  persisted (delete_employee i file).1
  = filter (fun e => id_of e <> Some i) (persisted file).
Proof.
  intros H. rewrite delete_employee_present by done. cbn [fst].
  rewrite persisted_content. apply map_stored_form_id.
  apply Forall_stored_filter, persisted_stored.
Qed.

(** ** update_employee *)

(** The loop stops at the first record with the id looked for. *)
Lemma update_loop_missing i upd all rest n :
  ~ has_id i rest -> update_loop i upd all n rest = Finished false all.
Proof.
  revert n. induction rest as [|e rest IH]; intros n Hno; [done|].
  cbn [update_loop]. rewrite decide_False.
  - apply IH. intros (e' & He' & Hi). apply Hno. exists e'.
    split; [by apply list_elem_of_further|done].
  - intros Hi. apply Hno. exists e. split; [apply list_elem_of_here|done].
Qed.

Lemma update_loop_found i upd pre mid e post :
  ~ has_id i mid -> id_of e = Some i ->
  update_loop i upd (pre ++ mid ++ e :: post) (length pre) (mid ++ e :: post)
  = if negb (bool_decide (strip (dict_get upd "id" i) = i))
       && truthy (find_employee_by_id (strip (dict_get upd "id" i))
                    (pre ++ mid ++ e :: post))
    then Returned (false, "Target ID already exists"%string)
    else Finished true (pre ++ mid ++ upd :: post).
Proof.
  revert pre. induction mid as [|m mid IH]; intros pre Hno Hid.
  - cbn [app update_loop]. rewrite decide_True by done.
    destruct (_ && _); [done|]. f_equal.
    rewrite <- (Nat.add_0_r (length pre)), insert_app_r. done.
  - cbn [app update_loop]. rewrite decide_False.
    + specialize (IH (pre ++ [m])). rewrite length_app in IH. cbn in IH.
      rewrite Nat.add_1_r in IH. rewrite <- !app_assoc in IH. cbn in IH.
      apply IH; [|done]. intros (e' & He' & Hi). apply Hno. exists e'.
      split; [by apply list_elem_of_further|done].
    + intros Hi. apply Hno. exists m. split; [apply list_elem_of_here|done].
Qed.

(** A list that has the id splits at its first record with it. *)
Lemma has_id_first i es :
  has_id i es ->
  exists mid e post, es = mid ++ e :: post /\ ~ has_id i mid /\ id_of e = Some i.
Proof.
  induction es as [|a es IH]; intros (e & He & Hi).
  { by apply elem_of_nil in He. }
  destruct (decide (id_of a = Some i)) as [Ha|Ha].
  - exists [], a, es. split; [done|]. split; [|done].
    intros (x & Hx & _). by apply elem_of_nil in Hx.
  - apply elem_of_cons in He as [->|He]; [done|].
    destruct IH as (mid & e' & post & -> & Hmid & He'); [by exists e|].
    exists (a :: mid), e', post. split; [done|]. split; [|done].
    intros (x & [->|Hx]%elem_of_cons & Hxi); [done|].
    apply Hmid. by exists x.
Qed.

Lemma update_employee_missing i upd file :
  ~ has_id i (persisted file) ->
  update_employee i upd file
  = (ensure_data_file file, (false, "ID not found"%string)).
Proof.
  intros H. unfold update_employee, load_employees.
  unfold persisted, load_employees in H. cbn [snd] in H.
  by rewrite update_loop_missing.
Qed.

Lemma update_employee_found i upd file mid e post :
  persisted file = mid ++ e :: post ->
  ~ has_id i mid -> id_of e = Some i ->
  update_employee i upd file
  = if negb (bool_decide (strip (dict_get upd "id" i) = i))
       && bool_decide (has_id (strip (dict_get upd "id" i)) (persisted file))
    then (ensure_data_file file, (false, "Target ID already exists"%string))
    else (Some (save_content (mid ++ upd :: post)), (true, "Updated"%string)).
Proof.
  intros Hes Hmid He. unfold update_employee, load_employees.
  unfold persisted, load_employees in Hes |- *. cbn [snd] in Hes |- *.
  rewrite Hes.
  pose proof (update_loop_found i upd [] mid e post Hmid He) as Hloop.
  cbn [app length] in Hloop. rewrite Hloop.
  rewrite truthy_find_bool.
  destruct (negb _ && bool_decide _); [reflexivity|].
  by rewrite atomic_save_employees_content.
Qed.

End store_facts.

(** * Uniqueness of ids *)

Section uniqueness.
Implicit Types (e : gmap string str) (es : list (gmap string str)).
Implicit Types (file : option str).

Lemma unique_ids_app_inv es1 e es2 i :
  unique_ids (es1 ++ e :: es2) -> id_of e = Some i ->
  ~ has_id i es1 /\ ~ has_id i es2.
Proof.
  unfold unique_ids. rewrite map_app. cbn [map].
  intros (_ & Hdisj & [Hnot _]%NoDup_cons)%NoDup_app Hid. split.
  - intros Hh%has_id_elem. apply (Hdisj _ Hh). rewrite <- Hid. left.
  - intros Hh%has_id_elem. apply Hnot. by rewrite Hid.
Qed.

Lemma unique_ids_snoc es e i :
  unique_ids es -> id_of e = Some i -> ~ has_id i es ->
  unique_ids (es ++ [e]).
Proof.
  unfold unique_ids. rewrite map_app. cbn [map].
  intros Hes Hid Hno. apply NoDup_app. split; [done|]. split.
  - intros x Hx [->|Hn%elem_of_nil]%elem_of_cons; [|done].
    apply Hno, has_id_elem. by rewrite <- Hid.
  - apply NoDup_singleton.
Qed.

Lemma unique_ids_filter (P : gmap string str -> Prop)
    `{forall e, Decision (P e)} es :
  unique_ids es -> unique_ids (filter P es).
Proof.
  unfold unique_ids. induction es as [|e es IH]; [done|]. cbn [map].
  intros [Hnot Hes]%NoDup_cons. rewrite filter_cons.
  destruct (decide (P e)); [|by apply IH].
  cbn [map]. apply NoDup_cons. split; [|by apply IH].
  intros Hin. apply Hnot.
  change (map ?f ?l) with (f <$> l) in Hin |- *.
  apply list_elem_of_fmap in Hin as (x & Hx & Hxin).
  apply list_elem_of_fmap. exists x. split; [done|].
  by apply list_elem_of_filter in Hxin as [_ ?].
Qed.

Lemma unique_ids_replace es1 e es2 e' i' :
  unique_ids (es1 ++ e :: es2) -> id_of e' = Some i' ->
  (id_of e = Some i' \/ ~ has_id i' (es1 ++ e :: es2)) ->
  unique_ids (es1 ++ e' :: es2).
Proof.
  unfold unique_ids. rewrite !map_app. cbn [map].
  intros Hu Hid' [He|Hno]; [by rewrite Hid', <- He|].
  apply NoDup_app in Hu as (H1 & Hdisj & [Hnot H2]%NoDup_cons).
  assert (~ has_id i' es1 /\ ~ has_id i' es2) as [Hn1 Hn2].
  { split; intros (x & Hx & Hxi); apply Hno; exists x; (split; [|done]);
      apply elem_of_app; [by left|right; by apply list_elem_of_further]. }
  apply NoDup_app. split; [done|]. split.
  - intros x Hx [->|Hx2]%elem_of_cons.
    + apply Hn1, has_id_elem. by rewrite <- Hid'.
    + apply (Hdisj x Hx). by apply list_elem_of_further.
  - apply NoDup_cons. split; [|done].
    rewrite Hid'. intros Hin. by apply Hn2, has_id_elem.
Qed.

Lemma add_employee_unique e file :
  unique_ids (persisted file) ->
  unique_ids (persisted (add_employee e file).1).
Proof.
  intros Hu. destruct (decide (has_id (strip (dict_get e "id" []))
                                 (persisted file))) as [Hh|Hh].
  - rewrite add_employee_duplicate by done. cbn [fst].
    by rewrite persisted_ensure.
  - rewrite persisted_add_fresh by done.
    by apply (unique_ids_snoc _ _ (strip (dict_get e "id" []))).
Qed.

Lemma delete_employee_unique i file :
  unique_ids (persisted file) ->
  unique_ids (persisted (delete_employee i file).1).
Proof.
  intros Hu. destruct (decide (has_id i (persisted file))) as [Hh|Hh].
  - rewrite persisted_delete_present by done. by apply unique_ids_filter.
  - rewrite delete_employee_missing by done. cbn [fst].
    by rewrite persisted_ensure.
Qed.

(** What [update_employee] leaves in the store when it succeeds. *)
Lemma persisted_update_replaced i upd file mid e post :
  persisted file = mid ++ e :: post ->
  ~ has_id i mid -> id_of e = Some i ->
  (update_employee i upd file).2.1 = true ->
  persisted (update_employee i upd file).1 = mid ++ stored_form upd :: post.
Proof.
  intros Hes Hmid He. rewrite (update_employee_found _ _ _ _ _ _ Hes Hmid He).
  destruct (negb _ && bool_decide _); [done|]. intros _. cbn [fst].
  rewrite persisted_content, map_app. cbn [map].
  pose proof (persisted_stored file) as Hst. rewrite Hes in Hst.
  apply Forall_app in Hst as [H1 [_ H2]%Forall_cons].
  by rewrite !map_stored_form_id.
Qed.

(** With an id in the new record, [update_employee] keeps ids unique. *)
Lemma update_employee_unique i upd file :
  is_Some (upd !! "id"%string) ->
  unique_ids (persisted file) ->
  unique_ids (persisted (update_employee i upd file).1).
Proof.
  intros [v Hv] Hu.
  destruct (decide (has_id i (persisted file))) as [Hh|Hh]; cycle 1.
  { rewrite update_employee_missing by done. cbn [fst].
    by rewrite persisted_ensure. }
  destruct (has_id_first _ _ Hh) as (mid & e & post & Hes & Hmid & He).
  destruct ((update_employee i upd file).2.1) eqn:Hok; cycle 1.
  { rewrite (update_employee_found _ _ _ _ _ _ Hes Hmid He) in Hok |- *.
    destruct (negb _ && bool_decide _); [|done]. cbn [fst].
    by rewrite persisted_ensure. }
  rewrite (persisted_update_replaced _ _ _ _ _ _ Hes Hmid He Hok).
  rewrite (update_employee_found _ _ _ _ _ _ Hes Hmid He) in Hok.
  rewrite Hes in Hu.
  apply (unique_ids_replace _ e _ _ (strip v) Hu).
  { rewrite id_of_stored_form. unfold dict_get. by rewrite Hv. }
  unfold dict_get in Hok. rewrite Hv in Hok. cbn [default] in Hok.
  destruct (decide (strip v = i)) as [->|Hne]; [by left|right].
  rewrite bool_decide_eq_false_2 in Hok by done. cbn [negb andb] in Hok.
  rewrite Hes in Hok. case_bool_decide; [done|assumption].
Qed.

End uniqueness.

(** * The store within the reader's limit *)

Section limit_facts.
Implicit Types (e : gmap string str) (es : list (gmap string str)).
Implicit Types (file : option str) (row : list str).

(** ** Loading *)

Lemma fields_fit_ensure file : fields_fit (ensure_data_file file) <-> fields_fit file.
Proof. by destruct file. Qed.

(** The load does not raise on a file whose fields are all within the
    limit, and gives what [load_employees] gives. *)
Lemma load_employees_checked_fits file :
  fields_fit file -> load_employees_checked file = Some (load_employees file).
Proof.
  intros H. unfold load_employees_checked, load_employees.
  rewrite csv_limit_facts.reader_checked_fits; [done|]. by destruct file.
Qed.

Lemma load_employees_checked_Some file r :
  load_employees_checked file = Some r ->
  r = load_employees file /\ fields_fit file.
Proof.
  unfold load_employees_checked, load_employees. intros H.
  destruct (csv.reader_checked _) as [rows|] eqn:E; [|done].
  apply csv_limit_facts.reader_checked_Some in E as [-> E].
  injection H as <-. split; [done|]. by destruct file.
Qed.

(** It raises exactly when some field is over the limit. *)
Lemma load_employees_checked_None file :
  load_employees_checked file = None <-> ~ fields_fit file.
Proof.
  split.
  - intros H Hf. by rewrite load_employees_checked_fits in H.
  - intros H. destruct (load_employees_checked file) eqn:E; [|done].
    by apply load_employees_checked_Some in E as [_ E].
Qed.

(** ** Records within the limit *)

Lemma length_lstrip s : length (lstrip s) <= length s.
Proof.
  induction s as [|c s IH]; cbn [lstrip]; [done|].
  destruct (isspace c); cbn [length]; lia.
Qed.

Lemma length_strip s : length (strip s) <= length s.
Proof.
  unfold strip, rstrip. rewrite length_reverse.
  etrans; [apply length_lstrip|]. rewrite length_reverse.
  apply length_lstrip.
Qed.

Lemma fits_strip f : fits f -> fits (strip f).
Proof. unfold fits. pose proof (length_strip f). lia. Qed.

Lemma fits_nth row k : Forall fits row -> fits (nth k row []).
Proof.
  intros H. revert k. induction H as [|f row Hf _ IH]; intros [|k];
    cbn [nth]; auto using csv_limit_facts.fits_nil.
Qed.

Lemma record_fits_row_to_emp row : Forall fits row -> record_fits (row_to_emp row).
Proof.
  intros H. unfold record_fits. rewrite row_to_emp_nth, emp_row_mk_emp.
  repeat constructor; by apply fits_strip, fits_nth.
Qed.

Lemma record_fits_load_rows rows :
  Forall (Forall fits) rows -> Forall record_fits (load_rows rows).
Proof.
  induction 1 as [|row rows Hrow _ IH]; [constructor|].
  destruct row as [|f row]; [done|]. cbn [load_rows].
  constructor; [by apply record_fits_row_to_emp|done].
Qed.

(** The records loaded from a file within the limit are within it. *)
Lemma persisted_fit file : fields_fit file -> Forall record_fits (persisted file).
Proof.
  intros H. apply record_fits_load_rows. by destruct file.
Qed.

(** ** Saving *)

Lemma fields_fit_save_content es :
  Forall record_fits es -> fields_fit (Some (save_content es)).
Proof.
  intros H. unfold fields_fit, save_content. cbn [default]. unfold id.
  rewrite <- (map_map emp_row csv.writerow).
  rewrite csv_facts.reader_readlines_writer by apply emp_rows_nonempty.
  induction H as [|e es He _ IH]; cbn [map]; by constructor.
Qed.

Lemma fields_fit_save es file :
  Forall record_fits es -> fields_fit (atomic_save_employees es file).
Proof.
  rewrite atomic_save_employees_content. apply fields_fit_save_content.
Qed.

Lemma Forall_filter_keep {A} (P Q : A -> Prop) `{forall x, Decision (Q x)}
    (l : list A) :
  Forall P l -> Forall P (filter Q l).
Proof.
  induction 1 as [|x l Hx _ IH]; [constructor|].
  rewrite filter_cons. destruct (decide (Q x)); [by constructor|done].
Qed.

Lemma update_loop_replaces i upd all : forall rest n es',
  update_loop i upd all n rest = Finished true es' ->
  exists k, es' = <[k := upd]> all.
Proof.
  induction rest as [|e rest IH]; intros n es' H; [done|].
  cbn [update_loop] in H. destruct (decide (id_of e = Some i)).
  - destruct (negb _ && _); [done|]. injection H as <-. by exists n.
  - by eapply IH.
Qed.

(** ** The three operations *)

Lemma add_employee_checked_fits e file :
  fields_fit file -> add_employee_checked e file = Some (add_employee e file).
Proof.
  intros H. unfold add_employee_checked, add_employee.
  rewrite load_employees_checked_fits by done.
  destruct (load_employees file) as [file1 es].
  by destruct (truthy _).
Qed.

Lemma delete_employee_checked_fits i file :
  fields_fit file ->
  delete_employee_checked i file = Some (delete_employee i file).
Proof.
  intros H. unfold delete_employee_checked, delete_employee.
  rewrite load_employees_checked_fits by done.
  destruct (load_employees file) as [file1 es]. cbv zeta.
  by destruct (_ =? _).
Qed.

Lemma update_employee_checked_fits i upd file :
  fields_fit file ->
  update_employee_checked i upd file = Some (update_employee i upd file).
Proof.
  intros H. unfold update_employee_checked, update_employee.
  rewrite load_employees_checked_fits by done.
  destruct (load_employees file) as [file1 es].
  by destruct (update_loop _ _ _ _ _) as [r|[|] es'].
Qed.

(** Each of them leaves a file within the limit when the file and the
    record given are. *)
Lemma fields_fit_add e file :
  fields_fit file -> record_fits e -> fields_fit (add_employee e file).1.
Proof.
  intros H He. pose proof (persisted_fit file H) as Hp.
  unfold add_employee, load_employees. unfold persisted, load_employees in Hp.
  cbn [snd] in Hp. destruct (truthy _); cbn [fst].
  - by apply fields_fit_ensure.
  - apply fields_fit_save, Forall_app. split; [done|by constructor].
Qed.

Lemma fields_fit_delete i file :
  fields_fit file -> fields_fit (delete_employee i file).1.
Proof.
  intros H. pose proof (persisted_fit file H) as Hp.
  unfold delete_employee, load_employees. unfold persisted, load_employees in Hp.
  cbn [snd] in Hp. cbv zeta. destruct (_ =? _); cbn [fst].
  - by apply fields_fit_ensure.
  - by apply fields_fit_save, Forall_filter_keep.
Qed.

Lemma fields_fit_update i upd file :
  fields_fit file -> record_fits upd ->
  fields_fit (update_employee i upd file).1.
Proof.
  intros H Hu. pose proof (persisted_fit file H) as Hp.
  unfold update_employee, load_employees. unfold persisted, load_employees in Hp.
  cbn [snd] in Hp.
  destruct (update_loop _ _ _ _ _) as [r|[|] es'] eqn:E; cbn [fst];
    try by apply fields_fit_ensure.
  apply update_loop_replaces in E as [k ->].
  by apply fields_fit_save, Forall_insert.
Qed.

End limit_facts.

(** * The claims *)

Section claims.
Implicit Types (e : gmap string str) (es : list (gmap string str)).
Implicit Types (file : option str).

(** C1, at the input where it fails.  The store holds the two rows
    [1,a,b,c] and [,x,y,z]: their ids, [1] and the empty id, differ.
    [update_employee] is called for id [1] with a new record that has no
    [id] key.  The collision check takes the missing id to be [1]
    ([updated_dict.get('id', emp_id)]) and lets the update through, the
    save writes the missing id as the empty string ([e.get('id','')]):
    the update succeeds and the store then holds two records with the
    empty id. *)
Theorem C1_update_without_id_breaks_unique_ids :
  let file := Some (chars "1,a,b,c" ++ [LF] ++ chars ",x,y,z" ++ [LF]) in
  let upd : gmap string str := {[ "name"%string := chars "n" ]} in
  unique_ids (persisted file)
  /\ (update_employee (chars "1") upd file).2 = (true, "Updated"%string)
  /\ map id_of (persisted (update_employee (chars "1") upd file).1)
     = [Some []; Some []]
  /\ ~ unique_ids (persisted (update_employee (chars "1") upd file).1).
Proof.
  cbv zeta. split; [|split; [|split]].
  - unfold unique_ids.
    assert (map id_of (persisted
              (Some (chars "1,a,b,c" ++ [LF] ++ chars ",x,y,z" ++ [LF])))
            = [Some (chars "1"); Some []]) as -> by (vm_compute; reflexivity).
    apply NoDup_cons. split; [|apply NoDup_singleton].
    intros [=]%list_elem_of_singleton.
  - vm_compute. reflexivity.
  - vm_compute. reflexivity.
  - unfold unique_ids.
    assert (map id_of (persisted (update_employee (chars "1")
              {[ "name"%string := chars "n" ]}
              (Some (chars "1,a,b,c" ++ [LF] ++ chars ",x,y,z" ++ [LF]))).1)
            = [Some []; Some []]) as -> by (vm_compute; reflexivity).
    intros [Hn _]%NoDup_cons. apply Hn. left.
Qed.





(** C4, amended.  [delete_employee] fails with NotFound exactly when no
    stored record has the id.  When one has, it succeeds and a later load
    returns the former records without all those of that id, the others
    unchanged and in their order; when the ids are unique that is the
    former list with exactly the one matching record taken out. *)
Theorem C4_delete_employee i file :
  (NotFound (delete_employee i file).2 <-> ~ has_id i (persisted file))
  /\ (has_id i (persisted file) ->
        (delete_employee i file).2 = (true, "Deleted"%string)
        /\ persisted (delete_employee i file).1
           = filter (fun e => id_of e <> Some i) (persisted file))
  /\ (forall es1 e es2,
        persisted file = es1 ++ e :: es2 -> id_of e = Some i ->
        unique_ids (persisted file) ->
        persisted (delete_employee i file).1 = es1 ++ es2).
Proof.
  split; [|split].
  - split.
    + intros Hnf Hh. rewrite delete_employee_present in Hnf by done.
      cbn [snd] in Hnf. unfold NotFound in Hnf. discriminate Hnf.
    + intros Hh. by rewrite delete_employee_missing.
  - intros Hh. split; [by rewrite delete_employee_present|].
    by apply persisted_delete_present.
  - intros es1 e es2 Hes He Hu.
    rewrite persisted_delete_present; cycle 1.
    { exists e. split; [|done]. rewrite Hes. apply elem_of_app. right. left. }
    rewrite Hes in Hu |- *.
    destruct (unique_ids_app_inv _ _ _ _ Hu He) as [H1 H2].
    rewrite filter_app, filter_cons_False by (intros Hn; by apply Hn).
    f_equal; apply filter_all_keep; done.
Qed.

(** C4 on the store with the rows [1,a,b,c] and [2,d,e,f]: deleting id [1]
    leaves the second record. *)
Lemma C4_delete_employee_witness :
  let file := Some (chars "1,a,b,c" ++ [LF] ++ chars "2,d,e,f" ++ [LF]) in
  has_id (chars "1") (persisted file)
  /\ (delete_employee (chars "1") file).2 = (true, "Deleted"%string)
  /\ persisted (delete_employee (chars "1") file).1
     = filter (fun e => id_of e <> Some (chars "1")) (persisted file).
Proof.
  cbv zeta.
  assert (has_id (chars "1")
    (persisted (Some (chars "1,a,b,c" ++ [LF] ++ chars "2,d,e,f" ++ [LF]))))
    as Hh.
  { exists (mk_emp (chars "1") (chars "a") (chars "b") (chars "c")).
    split; [vm_compute; left|reflexivity]. }
  split; [exact Hh|].
  destruct (C4_delete_employee (chars "1")
    (Some (chars "1,a,b,c" ++ [LF] ++ chars "2,d,e,f" ++ [LF])))
    as (_ & H & _).
  exact (H Hh).
Defined.

(** C4 as stated fails where two stored records share the id.  The store
    holds the rows [1,a,b,c], [2,d,e,f] and [1,g,h,i]: deleting id [1]
    succeeds and takes out both records of that id, not exactly one, so
    that the load after it returns the one record [2,d,e,f]. *)
Lemma C4_counterexample :
  let file := Some (chars "1,a,b,c" ++ [LF] ++ chars "2,d,e,f" ++ [LF]
                    ++ chars "1,g,h,i" ++ [LF]) in
  persisted file
  = [mk_emp (chars "1") (chars "a") (chars "b") (chars "c");
     mk_emp (chars "2") (chars "d") (chars "e") (chars "f");
     mk_emp (chars "1") (chars "g") (chars "h") (chars "i")]
  /\ (delete_employee (chars "1") file).2 = (true, "Deleted"%string)
  /\ persisted (delete_employee (chars "1") file).1
     = [mk_emp (chars "2") (chars "d") (chars "e") (chars "f")]
  /\ length (persisted (delete_employee (chars "1") file).1) + 2
     = length (persisted file).
Proof.
  cbv zeta. repeat split; vm_compute; reflexivity.
Qed.

(** C6.  Whenever one of the three operations reports a failure, the
    outcome is the flag-and-message pair of DuplicateID or NotFound, the
    backing file is what [ensure_data_file] makes of the file before the
    call (the same content, or the empty file where there was none), and
    the persisted collection is the one before the call. *)
Theorem C6_failure_leaves_store e i upd file :
  ((add_employee e file).2.1 = false ->
     DuplicateID (add_employee e file).2
     /\ (add_employee e file).1 = ensure_data_file file
     /\ persisted (add_employee e file).1 = persisted file)
  /\ ((delete_employee i file).2.1 = false ->
        NotFound (delete_employee i file).2
        /\ (delete_employee i file).1 = ensure_data_file file
        /\ persisted (delete_employee i file).1 = persisted file)
  /\ ((update_employee i upd file).2.1 = false ->
        (NotFound (update_employee i upd file).2
         \/ DuplicateID (update_employee i upd file).2)
        /\ (update_employee i upd file).1 = ensure_data_file file
        /\ persisted (update_employee i upd file).1 = persisted file).
Proof.
  split; [|split].
  - destruct (decide (has_id (strip (dict_get e "id" []))
                        (persisted file))) as [Hh|Hh].
    + rewrite add_employee_duplicate by done. cbn [fst snd]. intros _.
      split; [by left|]. split; [done|apply persisted_ensure].
    + by rewrite add_employee_fresh.
  - destruct (decide (has_id i (persisted file))) as [Hh|Hh].
    + by rewrite delete_employee_present.
    + rewrite delete_employee_missing by done. cbn [fst snd]. intros _.
      split; [done|]. split; [done|apply persisted_ensure].
  - destruct (decide (has_id i (persisted file))) as [Hh|Hh].
    + destruct (has_id_first _ _ Hh) as (mid & x & post & Hes & Hmid & Hx).
      rewrite (update_employee_found _ _ _ _ _ _ Hes Hmid Hx).
      destruct (negb _ && bool_decide _); [|done]. cbn [fst snd]. intros _.
      split; [right; by right|]. split; [done|apply persisted_ensure].
    + rewrite update_employee_missing by done. cbn [fst snd]. intros _.
      split; [by left|]. split; [done|apply persisted_ensure].
Qed.

(** C6 on the store with the rows [1,a,b,c] and [2,d,e,f]: changing the
    id of record [1] to [2] fails and leaves both rows. *)
Lemma C6_failure_leaves_store_witness :
  let file := Some (chars "1,a,b,c" ++ [LF] ++ chars "2,d,e,f" ++ [LF]) in
  let upd := mk_emp (chars "2") (chars "a") (chars "b") (chars "c") in
  (update_employee (chars "1") upd file).2.1 = false
  /\ (update_employee (chars "1") upd file).1 = file
  /\ persisted (update_employee (chars "1") upd file).1 = persisted file.
Proof.
  cbv zeta.
  assert ((update_employee (chars "1")
             (mk_emp (chars "2") (chars "a") (chars "b") (chars "c"))
             (Some (chars "1,a,b,c" ++ [LF] ++ chars "2,d,e,f" ++ [LF]))).2.1
          = false) as Hfail by (vm_compute; reflexivity).
  split; [exact Hfail|].
  destruct (C6_failure_leaves_store ∅ (chars "1")
    (mk_emp (chars "2") (chars "a") (chars "b") (chars "c"))
    (Some (chars "1,a,b,c" ++ [LF] ++ chars "2,d,e,f" ++ [LF])))
    as (_ & _ & H).
  destruct (H Hfail) as (_ & H1 & H2). split; [exact H1|exact H2].
Defined.





(** C5 as stated fails on a file that is not in the form a save writes:
    the one row [1, a,b,c] (a space before [a]) is loaded with its fields
    stripped and written back as [1,a,b,c]. *)
Lemma C5_counterexample :
  let file := Some (chars "1, a,b,c" ++ [CR; LF]) in
  atomic_save_employees (load_employees file).2 (load_employees file).1
  = Some (chars "1,a,b,c" ++ [CR; LF])
  /\ atomic_save_employees (load_employees file).2 (load_employees file).1
     <> file.
Proof.
  cbv zeta. split; [vm_compute; reflexivity|].
  vm_compute. intros [=].
Qed.

(** C5, amended.  Saving the result of a load leaves the persisted
    collection unchanged: a load after it returns the same records.  It
    also leaves the content unchanged whenever that content was itself
    written by saving the result of a load. *)
Theorem C5_save_load_round_trip file :
  let resave f := atomic_save_employees (load_employees f).2
                                        (load_employees f).1 in
  persisted (resave file) = persisted file
  /\ resave (resave file) = resave file.
Proof.
  cbv zeta.
  assert (persisted (atomic_save_employees (load_employees file).2
                       (load_employees file).1) = persisted file) as H.
  { rewrite persisted_save. apply map_stored_form_id, persisted_stored. }
  split; [exact H|].
  rewrite !atomic_save_employees_content. f_equal. f_equal.
  rewrite <- (atomic_save_employees_content (load_employees file).2
                (load_employees file).1).
  exact H.
Qed.


(** C8, at the input where it fails.  The backing file holds the row
    [1,a,b,c] and the collection to save is the one record [2,d,e,f]; run to
    its end the save leaves the row [2,d,e,f].  [os.rename] raises, so
    [shutil.move] copies the temporary file over the backing file, four
    characters at a time.  Stopped after the copy has opened the backing
    file, the save leaves it empty; stopped after the first piece it leaves
    [2,d,]: neither the old nor the new content.  When the second piece
    raises, the [finally] clause removes the temporary file and the backing
    file is left with [2,d,].  Where [os.rename] succeeds, the same save
    stopped after any number of steps leaves the old or the new content. *)
Theorem C8_copy_fallback_leaves_partial_file :
  let old := chars "1,a,b,c" ++ [CR; LF] in
  let new := chars "2,d,e,f" ++ [CR; LF] in
  let es := [mk_emp (chars "2") (chars "d") (chars "e") (chars "f")] in
  atomic_save_employees es (Some old) = Some new
  /\ exec (save_ops (RenameRaises 4) es) (mkFs (Some old) None)
     = mkFs (Some new) None
  /\ interrupted_save (RenameRaises 4) 4 es (Some old)
     = mkFs (Some old) (Some new)
  /\ interrupted_save (RenameRaises 4) 5 es (Some old)
     = mkFs (Some []) (Some new)
  /\ interrupted_save (RenameRaises 4) 6 es (Some old)
     = mkFs (Some (chars "2,d,")) (Some new)
  /\ failed_save (RenameRaises 4) 5 es (Some old)
     = mkFs (Some (chars "2,d,")) None
  /\ (forall k,
        data_file (interrupted_save RenameWorks k es (Some old)) = Some old
        \/ data_file (interrupted_save RenameWorks k es (Some old))
           = Some new).
Proof.
  cbv zeta. repeat split; try (vm_compute; reflexivity).
  intros k.
  destruct (interrupted_rename_old_or_new k
    [mk_emp (chars "2") (chars "d") (chars "e") (chars "f")]
    (Some (chars "1,a,b,c" ++ [CR; LF]))) as [H|H]; [by left|right].
  rewrite H. vm_compute. reflexivity.
Qed.


(** C7 as stated fails on a file with a field over the reader's field
    size limit.  The record has a name of 131073 characters; a save writes
    it as the one row of the file, and the load of that file raises
    [_csv.Error] (field larger than field limit), which [load_employees]
    does not catch. *)
Lemma C7_counterexample :
  let long := repeat "a"%char (N.to_nat 131073) in
  let e := mk_emp (chars "1") long (chars "d") (chars "r") in
  let file := atomic_save_employees [e] None in
  length long = N.to_nat 131073
  /\ file = Some (csv.writerow [chars "1"; long; chars "d"; chars "r"])
  /\ load_employees_checked file = None.
Proof.
  cbv zeta.
  set (long := repeat "a"%char (N.to_nat 131073)).
  assert (length long = N.to_nat 131073) as Hlen by apply repeat_length.
  assert (atomic_save_employees
            [mk_emp (chars "1") long (chars "d") (chars "r")] None
          = Some (csv.writerow [chars "1"; long; chars "d"; chars "r"]))
    as Hfile.
  { rewrite atomic_save_employees_content. unfold save_content.
    cbn [map concat]. rewrite emp_row_mk_emp. by rewrite app_nil_r. }
  split; [exact Hlen|]. split; [exact Hfile|].
  rewrite Hfile. apply load_employees_checked_None.
  unfold fields_fit. cbn [default]. unfold id.
  pose proof (csv_facts.reader_readlines_writer
                [[chars "1"; long; chars "d"; chars "r"]]) as Hrows.
  cbn [map concat] in Hrows. rewrite app_nil_r in Hrows.
  rewrite Hrows by (constructor; [discriminate|constructor]).
  intros Hfit. apply Forall_cons in Hfit as [Hfit _].
  apply Forall_cons in Hfit as [_ Hfit].
  apply Forall_cons in Hfit as [Hfit _].
  unfold fits in Hfit. rewrite Hlen, N2Nat.id in Hfit.
  by apply Hfit.
Qed.

(** C7, amended.  On every file in which no field of any row is longer
    than 131072 characters, [load_employees] does not fail: it leaves the
    file as [ensure_data_file] makes it and returns records that each have
    exactly the four fields.  It fails exactly on the files that have a
    longer field.  A row of one, two or three fields gives the record of
    those fields, stripped, with the empty string for every missing field;
    so does such a row, with its fields within the limit, as it stands in a
    file. *)
Theorem C7_load_employees_within_limit :
  (forall file,
     fields_fit file ->
     load_employees_checked file
     = Some (ensure_data_file file, persisted file)
     /\ Forall (fun e => dom e = list_to_set FIELDNAMES) (persisted file))
  /\ (forall file, load_employees_checked file = None <-> ~ fields_fit file)
  /\ (forall a, row_to_emp [a] = mk_emp (strip a) [] [] [])
  /\ (forall a b, row_to_emp [a; b] = mk_emp (strip a) (strip b) [] [])
  /\ (forall a b c,
        row_to_emp [a; b; c] = mk_emp (strip a) (strip b) (strip c) [])
  /\ (forall a,
        fits a ->
        load_employees_checked (Some (csv.writerow [a]))
        = Some (Some (csv.writerow [a]), [mk_emp (strip a) [] [] []]))
  /\ (forall a b,
        fits a -> fits b ->
        load_employees_checked (Some (csv.writerow [a; b]))
        = Some (Some (csv.writerow [a; b]),
                [mk_emp (strip a) (strip b) [] []]))
  /\ (forall a b c,
        fits a -> fits b -> fits c ->
        load_employees_checked (Some (csv.writerow [a; b; c]))
        = Some (Some (csv.writerow [a; b; c]),
                [mk_emp (strip a) (strip b) (strip c) []])).
Proof.
  assert (forall row, row <> [] -> Forall fits row ->
            load_employees_checked (Some (csv.writerow row))
            = Some (Some (csv.writerow row), [row_to_emp row])) as Hrow.
  { intros [|f row] Hne Hfit; [done|].
    rewrite load_employees_checked_fits.
    - unfold load_employees. cbn [ensure_data_file].
      change (load_rows _) with (persisted (Some (csv.writerow (f :: row)))).
      by rewrite persisted_writerow.
    - unfold fields_fit. cbn [default]. unfold id.
      pose proof (csv_facts.reader_readlines_writer [f :: row]) as Hrows.
      cbn [map concat] in Hrows. rewrite app_nil_r in Hrows.
      rewrite Hrows by (constructor; [discriminate|constructor]).
      by constructor. }
  split; [|split; [apply load_employees_checked_None|]].
  - intros file Hfit. split; [by apply load_employees_checked_fits|].
    unfold persisted, load_employees. cbn [snd].
    generalize
      (csv.reader (csv.readlines (default [] (ensure_data_file file)))).
    intros rows. induction rows as [|[|f row] rows IH]; cbn [load_rows];
      [constructor|assumption|].
    constructor; [|assumption]. rewrite row_to_emp_nth. reflexivity.
  - split; [reflexivity|]. split; [reflexivity|]. split; [reflexivity|].
    split; [|split].
    + intros a Ha. apply (Hrow [a]); [done|by repeat constructor].
    + intros a b Ha Hb. apply (Hrow [a; b]); [done|by repeat constructor].
    + intros a b c Ha Hb Hc.
      apply (Hrow [a; b; c]); [done|by repeat constructor].
Qed.

(** C7 on the file with the one row [1, Ann] (a space before the name):
    its fields are within the limit, and the load gives the one record
    with the name stripped and the two missing fields empty. *)
Lemma C7_load_employees_within_limit_witness :
  let file := Some (chars "1, Ann" ++ [CR; LF]) in
  fields_fit file
  /\ load_employees_checked file
     = Some (file, [mk_emp (chars "1") (chars "Ann") [] []]).
Proof.
  cbv zeta.
  assert (fields_fit (Some (chars "1, Ann" ++ [CR; LF]))) as Hfit.
  { apply (bool_decide_unpack _). vm_compute. exact I. }
  split; [exact Hfit|].
  destruct C7_load_employees_within_limit as (H & _).
  destruct (H (Some (chars "1, Ann" ++ [CR; LF])) Hfit) as [-> _].
  vm_compute. reflexivity.
Defined.


(** C10.  The records loaded are those of the rows the reader yields that
    are not empty, in the order of the file.  A blank line, whatever its
    line end, makes the reader yield the empty row; after the rows of a
    saved collection, a blank line in the file changes nothing in what is
    loaded. *)
Theorem C10_blank_lines_skipped :
  (forall file,
     persisted file
     = map row_to_emp
         (filter (fun row => row <> [])
                 (csv.reader (csv.readlines (default [] file)))))
  /\ (forall lines,
        csv.reader ([LF] :: lines) = [] :: csv.reader lines
        /\ csv.reader ([CR] :: lines) = [] :: csv.reader lines
        /\ csv.reader ([CR; LF] :: lines) = [] :: csv.reader lines)
  /\ (forall es s,
        persisted (Some (save_content es ++ [LF] ++ s))
        = persisted (Some (save_content es ++ s))
        /\ persisted (Some (save_content es ++ [CR; LF] ++ s))
           = persisted (Some (save_content es ++ s))).
Proof.
  split; [|split].
  - intros file. unfold persisted, load_employees. cbn [snd].
    replace (default [] (ensure_data_file file)) with (default [] file)
      by (by destruct file).
    generalize (csv.reader (csv.readlines (default [] file))).
    intros rows. induction rows as [|[|f row] rows IH]; [done| |].
    + rewrite filter_cons_False by (intros H; by apply H). apply IH.
    + rewrite filter_cons_True by done. cbn [map load_rows]. by rewrite IH.
  - intros lines. repeat split; reflexivity.
  - intros es s. rewrite !persisted_text. unfold save_content.
    rewrite <- (map_map emp_row csv.writerow).
    rewrite !csv_facts.reader_writer by apply emp_rows_nonempty.
    rewrite !load_rows_app. split; reflexivity.
Qed.

End claims.

(** * Further properties of the store *)

Section store_properties.
Implicit Types (e : gmap string str) (es : list (gmap string str)).
Implicit Types (file : option str).

(** X1.  [find_employee_by_id] returns the first record of the list that
    has the id, and [None] exactly when no record has it. *)
Theorem X1_find_employee_by_id_first i es :
  (find_employee_by_id i es = None <-> ~ has_id i es)
  /\ (forall e,
        find_employee_by_id i es = Some e
        <-> exists es1 es2,
              es = es1 ++ e :: es2 /\ ~ has_id i es1 /\ id_of e = Some i).
Proof.
  induction es as [|a es [IHn IHs]].
  { split.
    - split; [|done]. intros _ (e & He & _). by apply elem_of_nil in He.
    - intros e. split; [done|]. intros (es1 & es2 & H & _).
      by destruct es1. }
  cbn [find_employee_by_id].
  destruct (decide (id_of a = Some i)) as [Ha|Ha].
  - split.
    + split; [done|]. intros Hno. exfalso. apply Hno. exists a.
      split; [apply list_elem_of_here|done].
    + intros e. split.
      * intros [= <-]. exists [], es. split; [done|]. split; [|done].
        intros (x & Hx & _). by apply elem_of_nil in Hx.
      * intros (es1 & es2 & Hes & Hno & He).
        destruct es1 as [|b es1]; [by injection Hes as -> _|].
        injection Hes as <- _. exfalso. apply Hno. exists a.
        split; [apply list_elem_of_here|done].
  - split.
    + rewrite IHn. split.
      * intros Hno (x & [->|Hx]%elem_of_cons & Hi); [done|].
        apply Hno. by exists x.
      * intros Hno (x & Hx & Hi). apply Hno. exists x.
        split; [by apply list_elem_of_further|done].
    + intros e. rewrite IHs. split.
      * intros (es1 & es2 & -> & Hno & He). exists (a :: es1), es2.
        split; [done|]. split; [|done].
        intros (x & [->|Hx]%elem_of_cons & Hi); [done|].
        apply Hno. by exists x.
      * intros (es1 & es2 & Hes & Hno & He).
        destruct es1 as [|b es1].
        { injection Hes as -> _. done. }
        injection Hes as <- ->. exists es1, es2. split; [done|].
        split; [|done]. intros (x & Hx & Hi). apply Hno. exists x.
        split; [by apply list_elem_of_further|done].
Qed.

(** X1 on a list of two records with the id [2]: the first is returned. *)
Lemma X1_find_employee_by_id_first_witness :
  let e1 := mk_emp (chars "1") (chars "a") (chars "b") (chars "c") in
  let e2 := mk_emp (chars "2") (chars "d") (chars "e") (chars "f") in
  let e3 := mk_emp (chars "2") (chars "g") (chars "h") (chars "i") in
  (exists es1 es2, [e1; e2; e3] = es1 ++ e2 :: es2
     /\ ~ has_id (chars "2") es1 /\ id_of e2 = Some (chars "2"))
  /\ find_employee_by_id (chars "2") [e1; e2; e3] = Some e2.
Proof.
  cbv zeta.
  assert (exists es1 es2,
    [mk_emp (chars "1") (chars "a") (chars "b") (chars "c");
     mk_emp (chars "2") (chars "d") (chars "e") (chars "f");
     mk_emp (chars "2") (chars "g") (chars "h") (chars "i")]
    = es1 ++ mk_emp (chars "2") (chars "d") (chars "e") (chars "f") :: es2
    /\ ~ has_id (chars "2") es1
    /\ id_of (mk_emp (chars "2") (chars "d") (chars "e") (chars "f"))
       = Some (chars "2")) as H.
  { exists [mk_emp (chars "1") (chars "a") (chars "b") (chars "c")],
           [mk_emp (chars "2") (chars "g") (chars "h") (chars "i")].
    split; [reflexivity|]. split; [|reflexivity].
    intros (x & Hx & Hi). apply list_elem_of_singleton in Hx. subst x.
    vm_compute in Hi. discriminate Hi. }
  split; [exact H|].
  exact (proj2 (proj2 (X1_find_employee_by_id_first (chars "2") _) _) H).
Defined.


(** X3.  Every record of the persisted collection has an id, and that id
    carries no surrounding whitespace.  So [delete_employee] and
    [update_employee] called with an id that has surrounding whitespace
    fail with NotFound. *)
Theorem X3_stored_ids_stripped file :
  Forall (fun e => exists v, id_of e = Some v /\ strip v = v) (persisted file)
  /\ (forall i upd,
        strip i <> i ->
        NotFound (delete_employee i file).2
        /\ NotFound (update_employee i upd file).2).
Proof.
  assert (Forall (fun e => exists v, id_of e = Some v /\ strip v = v)
                 (persisted file)) as Hids.
  { eapply Forall_impl; [apply persisted_stored|]. intros e He.
    exists (strip (dict_get e "id" [])). split; [|apply strip_idemp].
    rewrite <- He at 1. apply id_of_stored_form. }
  split; [exact Hids|]. intros i upd Hi.
  assert (~ has_id i (persisted file)) as Hno.
  { intros (e & He & Hid). rewrite Forall_forall in Hids.
    destruct (Hids e He) as (v & Hv & Hs). congruence. }
  split.
  - by rewrite delete_employee_missing.
  - by rewrite update_employee_missing.
Qed.

(** X3 on the store with the row [1,a,b,c]: the id [1 ] (with a trailing
    space) is not found. *)
Lemma X3_stored_ids_stripped_witness :
  let file := Some (chars "1,a,b,c" ++ [LF]) in
  strip (chars "1 ") <> chars "1 "
  /\ NotFound (delete_employee (chars "1 ") file).2
  /\ NotFound (update_employee (chars "1 ") ∅ file).2.
Proof.
  cbv zeta.
  assert (strip (chars "1 ") <> chars "1 ") as H
    by (vm_compute; intros [=]).
  split; [exact H|].
  exact (proj2 (X3_stored_ids_stripped (Some (chars "1,a,b,c" ++ [LF])))
               (chars "1 ") ∅ H).
Defined.


(** X4.  [add_employee] keeps ids unique, whether it succeeds or fails and
    whatever the record. *)
Theorem X4_add_employee_keeps_unique_ids e file :
  unique_ids (persisted file) ->
  unique_ids (persisted (add_employee e file).1).
Proof. apply add_employee_unique. Qed.

(** X4 on the store with the row [1,a,b,c], adding a record with id [2]. *)
Lemma X4_add_employee_keeps_unique_ids_witness :
  let file := Some (chars "1,a,b,c" ++ [LF]) in
  let e := mk_emp (chars "2") (chars "d") (chars "e") (chars "f") in
  unique_ids (persisted file)
  /\ unique_ids (persisted (add_employee e file).1).
Proof.
  cbv zeta.
  assert (unique_ids (persisted (Some (chars "1,a,b,c" ++ [LF])))) as H.
  { unfold unique_ids.
    assert (map id_of (persisted (Some (chars "1,a,b,c" ++ [LF])))
            = [Some (chars "1")]) as -> by (vm_compute; reflexivity).
    apply NoDup_singleton. }
  split; [exact H|].
  exact (X4_add_employee_keeps_unique_ids _ _ H).
Defined.

(** X5.  [delete_employee] keeps ids unique, whether it succeeds or
    fails. *)
Theorem X5_delete_employee_keeps_unique_ids i file :
  unique_ids (persisted file) ->
  unique_ids (persisted (delete_employee i file).1).
Proof. apply delete_employee_unique. Qed.

(** X5 on the store with the row [1,a,b,c], deleting id [1]. *)
Lemma X5_delete_employee_keeps_unique_ids_witness :
  let file := Some (chars "1,a,b,c" ++ [LF]) in
  unique_ids (persisted file)
  /\ unique_ids (persisted (delete_employee (chars "1") file).1).
Proof.
  cbv zeta.
  assert (unique_ids (persisted (Some (chars "1,a,b,c" ++ [LF])))) as H.
  { unfold unique_ids.
    assert (map id_of (persisted (Some (chars "1,a,b,c" ++ [LF])))
            = [Some (chars "1")]) as -> by (vm_compute; reflexivity).
    apply NoDup_singleton. }
  split; [exact H|].
  exact (X5_delete_employee_keeps_unique_ids _ _ H).
Defined.

(** X6.  [update_employee] keeps ids unique, whether it succeeds or fails,
    when the new record has an [id] key. *)
Theorem X6_update_employee_keeps_unique_ids i upd file :
  is_Some (upd !! "id"%string) ->
  unique_ids (persisted file) ->
  unique_ids (persisted (update_employee i upd file).1).
Proof. apply update_employee_unique. Qed.

(** X6 on the store with the row [1,a,b,c], changing its id to [2]. *)
Lemma X6_update_employee_keeps_unique_ids_witness :
  let file := Some (chars "1,a,b,c" ++ [LF]) in
  let upd := mk_emp (chars "2") (chars "a") (chars "b") (chars "c") in
  is_Some (upd !! "id"%string)
  /\ unique_ids (persisted file)
  /\ unique_ids (persisted (update_employee (chars "1") upd file).1).
Proof.
  cbv zeta.
  assert (is_Some (mk_emp (chars "2") (chars "a") (chars "b") (chars "c")
                     !! "id"%string)) as Hid by (eexists; reflexivity).
  assert (unique_ids (persisted (Some (chars "1,a,b,c" ++ [LF])))) as H.
  { unfold unique_ids.
    assert (map id_of (persisted (Some (chars "1,a,b,c" ++ [LF])))
            = [Some (chars "1")]) as -> by (vm_compute; reflexivity).
    apply NoDup_singleton. }
  split; [exact Hid|]. split; [exact H|].
  exact (X6_update_employee_keeps_unique_ids _ _ _ Hid H).
Defined.

(** X7.  After [delete_employee], whether it succeeded or failed, no
    persisted record has the id; a second delete of the same id fails with
    NotFound and leaves the file as the first left it. *)
Theorem X7_delete_employee_twice i file :
  ~ has_id i (persisted (delete_employee i file).1)
  /\ NotFound (delete_employee i (delete_employee i file).1).2
  /\ (delete_employee i (delete_employee i file).1).1
     = (delete_employee i file).1.
Proof.
  assert (~ has_id i (persisted (delete_employee i file).1)) as Hno.
  { destruct (decide (has_id i (persisted file))) as [Hh|Hh].
    - rewrite persisted_delete_present by done.
      intros (e & [He _]%list_elem_of_filter & Hi). done.
    - rewrite delete_employee_missing by done. cbn [fst].
      by rewrite persisted_ensure. }
  split; [exact Hno|].
  rewrite (delete_employee_missing i _ Hno). cbn [fst snd].
  split; [done|].
  destruct (decide (has_id i (persisted file))) as [Hh|Hh].
  - by rewrite delete_employee_present.
  - rewrite delete_employee_missing by done. by destruct file.
Qed.




(** X9.  How the number of persisted records changes: [add_employee] adds
    one when it succeeds and none when it fails, [update_employee] never
    changes it, and [delete_employee] leaves the records with another id;
    it succeeds exactly when that is fewer records than before. *)
Theorem X9_record_counts e i upd file :
  length (persisted (add_employee e file).1)
  = length (persisted file) + (if (add_employee e file).2.1 then 1 else 0)
  /\ length (persisted (update_employee i upd file).1)
     = length (persisted file)
  /\ length (persisted (delete_employee i file).1)
     = length (filter (fun x => id_of x <> Some i) (persisted file))
  /\ (delete_employee i file).2.1
     = bool_decide (length (persisted (delete_employee i file).1)
                    < length (persisted file)).
Proof.
  split; [|split].
  - destruct (decide (has_id (strip (dict_get e "id" []))
                        (persisted file))) as [Hh|Hh].
    + rewrite add_employee_duplicate by done. cbn [fst snd].
      rewrite persisted_ensure. lia.
    + rewrite persisted_add_fresh, add_employee_fresh by done.
      cbn [fst snd]. rewrite length_app. reflexivity.
  - destruct (decide (has_id i (persisted file))) as [Hh|Hh]; cycle 1.
    { rewrite update_employee_missing by done. cbn [fst].
      by rewrite persisted_ensure. }
    destruct (has_id_first _ _ Hh) as (mid & x & post & Hes & Hmid & Hx).
    destruct ((update_employee i upd file).2.1) eqn:Hok.
    + rewrite (persisted_update_replaced _ _ _ _ _ _ Hes Hmid Hx Hok), Hes.
      rewrite !length_app. reflexivity.
    + rewrite (update_employee_found _ _ _ _ _ _ Hes Hmid Hx) in Hok |- *.
      destruct (negb _ && bool_decide _); [|done]. cbn [fst].
      by rewrite persisted_ensure.
  - destruct (decide (has_id i (persisted file))) as [Hh|Hh].
    + rewrite persisted_delete_present, delete_employee_present by done.
      cbn [fst snd]. split; [done|]. symmetry. apply bool_decide_eq_true_2.
      destruct Hh as (x & Hx & Hi).
      apply (length_filter_lt _ _ x Hx). intros Hne. by apply Hne.
    + rewrite delete_employee_missing by done. cbn [fst snd].
      rewrite persisted_ensure, filter_all_keep by done.
      split; [done|]. symmetry. apply bool_decide_eq_false_2. lia.
Qed.

(** X10.  An update whose new record carries, once stripped, the id looked
    for leaves the ids of the persisted collection as they were, record by
    record. *)
Theorem X10_update_same_id_keeps_ids i upd file v :
  upd !! "id"%string = Some v -> strip v = i ->
  map id_of (persisted (update_employee i upd file).1)
  = map id_of (persisted file).
Proof.
  intros Hv Hi.
  destruct (decide (has_id i (persisted file))) as [Hh|Hh]; cycle 1.
  { rewrite update_employee_missing by done. cbn [fst].
    by rewrite persisted_ensure. }
  destruct (has_id_first _ _ Hh) as (mid & x & post & Hes & Hmid & Hx).
  assert ((update_employee i upd file).2.1 = true) as Hok.
  { rewrite (update_employee_found _ _ _ _ _ _ Hes Hmid Hx).
    rewrite (dict_get_Some _ _ _ _ Hv).
    by rewrite bool_decide_eq_true_2. }
  rewrite (persisted_update_replaced _ _ _ _ _ _ Hes Hmid Hx Hok), Hes.
  rewrite !map_app. cbn [map]. rewrite id_of_stored_form.
  by rewrite (dict_get_Some _ _ _ _ Hv), Hi, Hx.
Qed.

(** X10 on the store with the rows [1,a,b,c] and [2,d,e,f]: record [2]
    gets a new name. *)
Lemma X10_update_same_id_keeps_ids_witness :
  let file := Some (chars "1,a,b,c" ++ [LF] ++ chars "2,d,e,f" ++ [LF]) in
  let upd := mk_emp (chars "2 ") (chars "n") (chars "e") (chars "f") in
  upd !! "id"%string = Some (chars "2 ")
  /\ strip (chars "2 ") = chars "2"
  /\ map id_of (persisted (update_employee (chars "2") upd file).1)
     = map id_of (persisted file).
Proof.
  cbv zeta.
  assert (mk_emp (chars "2 ") (chars "n") (chars "e") (chars "f")
            !! "id"%string = Some (chars "2 ")) as Hv by reflexivity.
  assert (strip (chars "2 ") = chars "2") as Hs by reflexivity.
  split; [exact Hv|]. split; [exact Hs|].
  exact (X10_update_same_id_keeps_ids _ _ _ _ Hv Hs).
Defined.

(** X11.  After a successful update with a new record that has an id, a
    persisted record has the stripped new id; when the ids were unique and
    the stripped new id differs from the id looked for, no persisted record
    has the old id any more. *)
Theorem X11_update_changes_id i upd file v :
  upd !! "id"%string = Some v ->
  (update_employee i upd file).2.1 = true ->
  has_id (strip v) (persisted (update_employee i upd file).1)
  /\ (unique_ids (persisted file) -> strip v <> i ->
        ~ has_id i (persisted (update_employee i upd file).1)).
Proof.
  intros Hv Hok.
  destruct (decide (has_id i (persisted file))) as [Hh|Hh]; cycle 1.
  { by rewrite update_employee_missing in Hok. }
  destruct (has_id_first _ _ Hh) as (mid & x & post & Hes & Hmid & Hx).
  rewrite (persisted_update_replaced _ _ _ _ _ _ Hes Hmid Hx Hok).
  assert (id_of (stored_form upd) = Some (strip v)) as Hid.
  { by rewrite id_of_stored_form, (dict_get_Some _ _ _ _ Hv). }
  split.
  - exists (stored_form upd). split; [|done].
    apply elem_of_app. right. left.
  - intros Hu Hne. rewrite Hes in Hu.
    destruct (unique_ids_app_inv _ _ _ _ Hu Hx) as [H1 H2].
    intros (y & [Hy|[->|Hy]%elem_of_cons]%elem_of_app & Hyi).
    + apply H1. by exists y.
    + congruence.
    + apply H2. by exists y.
Qed.

(** X11 on the store with the row [1,a,b,c], whose id becomes [2]. *)
Lemma X11_update_changes_id_witness :
  let file := Some (chars "1,a,b,c" ++ [LF]) in
  let upd := mk_emp (chars "2") (chars "a") (chars "b") (chars "c") in
  upd !! "id"%string = Some (chars "2")
  /\ (update_employee (chars "1") upd file).2.1 = true
  /\ has_id (chars "2") (persisted (update_employee (chars "1") upd file).1)
  /\ ~ has_id (chars "1")
         (persisted (update_employee (chars "1") upd file).1).
Proof.
  cbv zeta.
  assert (mk_emp (chars "2") (chars "a") (chars "b") (chars "c")
            !! "id"%string = Some (chars "2")) as Hv by reflexivity.
  assert ((update_employee (chars "1")
             (mk_emp (chars "2") (chars "a") (chars "b") (chars "c"))
             (Some (chars "1,a,b,c" ++ [LF]))).2.1 = true) as Hok
    by (vm_compute; reflexivity).
  split; [exact Hv|]. split; [exact Hok|].
  destruct (X11_update_changes_id _ _ _ _ Hv Hok) as [H1 H2].
  split; [exact H1|]. apply H2.
  - unfold unique_ids.
    assert (map id_of (persisted (Some (chars "1,a,b,c" ++ [LF])))
            = [Some (chars "1")]) as -> by (vm_compute; reflexivity).
    apply NoDup_singleton.
  - vm_compute. intros [=].
Defined.

(** X12.  On a file that a save wrote for records in stored form (such as
    loaded records), a successful [add_employee] leaves every line of the
    file as it is and appends the one line of the new record. *)
Theorem X12_add_employee_appends_line e es :
  ~ has_id (strip (dict_get e "id" [])) (map stored_form es) ->
  atomic_save_employees (map stored_form es) None
  = Some (save_content (map stored_form es))
  /\ (add_employee e (atomic_save_employees (map stored_form es) None)).1
     = Some (save_content (map stored_form es) ++ csv.writerow (emp_row e)).
Proof.
  intros Hno. split; [apply atomic_save_employees_content|].
  assert (persisted (atomic_save_employees (map stored_form es) None)
          = map stored_form es) as Hp.
  { rewrite persisted_save, map_map. clear Hno.
    induction es as [|x es IH]; [done|]. cbn [map].
    by rewrite stored_form_idemp, IH. }
  rewrite add_employee_fresh by (by rewrite Hp).
  cbn [fst]. rewrite Hp. unfold save_content.
  rewrite map_app, concat_app. cbn [map concat]. by rewrite app_nil_r.
Qed.

(** X12 with one saved record of id [1] and a new record of id [2]. *)
Lemma X12_add_employee_appends_line_witness :
  let es := [mk_emp (chars "1") (chars "a") (chars "b") (chars "c")] in
  let e := mk_emp (chars "2") (chars "d") (chars "e") (chars "f") in
  ~ has_id (chars "2") (map stored_form es)
  /\ (add_employee e (atomic_save_employees (map stored_form es) None)).1
     = Some (save_content (map stored_form es) ++ csv.writerow (emp_row e)).
Proof.
  cbv zeta.
  assert (~ has_id (strip (dict_get
              (mk_emp (chars "2") (chars "d") (chars "e") (chars "f"))
              "id" []))
            (map stored_form
               [mk_emp (chars "1") (chars "a") (chars "b") (chars "c")]))
    as H.
  { intros (x & Hx & Hi). apply list_elem_of_singleton in Hx. subst x.
    vm_compute in Hi. discriminate Hi. }
  split; [exact H|].
  exact (proj2 (X12_add_employee_appends_line _ _ H)).
Defined.

End store_properties.

(** * Facts about the text operations of the form *)

Section text_facts.

Lemma starts_with_app p s : starts_with p (p ++ s) = true.
Proof.
  induction p as [|c p IH]; [by destruct s|]. cbn.
  by rewrite bool_decide_eq_true_2, IH.
Qed.

Lemma starts_with_nil_r p : starts_with p [] = true -> p = [].
Proof. by destruct p. Qed.

(** A match at the head of a longer text already is one of the text, when
    the text is long enough. *)
Lemma starts_with_app_l p s t :
  length p <= length s -> starts_with p (s ++ t) = starts_with p s.
Proof.
  revert s. induction p as [|c p IH]; intros s Hl; [by destruct s|].
  destruct s as [|x s]; [simpl in Hl; lia|]. cbn.
  rewrite IH; [done|]. simpl in Hl. lia.
Qed.

Lemma contains_app_r needle s1 s2 :
  starts_with needle s2 = true -> contains needle (s1 ++ s2) = true.
Proof.
  intros H. induction s1 as [|c s1 IH].
  - destruct s2; cbn in *; by rewrite H.
  - cbn. rewrite IH. apply orb_true_r.
Qed.

Lemma contains_false_starts needle s1 s2 :
  contains needle (s1 ++ s2) = false -> starts_with needle s2 = false.
Proof.
  intros H. destruct (starts_with needle s2) eqn:E; [|done].
  by rewrite contains_app_r in H.
Qed.

Lemma split_once_None sep s :
  contains sep s = false -> split_once sep s = None.
Proof.
  induction s as [|c s IH]; cbn.
  - rewrite orb_false_r. by intros ->.
  - intros [-> Hc]%orb_false_iff. by rewrite IH.
Qed.

(** The first occurrence of the separator is found where no occurrence
    starts before it. *)
Lemma split_once_first sep a b :
  (forall a1 a2, a = a1 ++ a2 -> a2 <> [] ->
     starts_with sep (a2 ++ sep ++ b) = false) ->
  split_once sep (a ++ sep ++ b) = Some (a, b).
Proof.
  induction a as [|c a IH]; intros Hno.
  - cbn [app]. destruct (sep ++ b) as [|x t] eqn:E.
    + apply app_eq_nil in E as [-> ->]. reflexivity.
    + cbn [split_once]. rewrite <- E, starts_with_app.
      by rewrite drop_app_length.
  - pose proof (Hno [] (c :: a) eq_refl) as H0.
    cbn [app] in H0. cbn [app split_once]. rewrite H0 by done.
    rewrite IH; [done|]. intros a1 a2 -> Ha2.
    by apply (Hno (c :: a1) a2).
Qed.


Lemma contains_head_elem c p s : contains (c :: p) s = true -> c ∈ s.
Proof.
  induction s as [|x s IH]; [done|]. cbn.
  intros [[Hx _]%andb_true_iff|Hc]%orb_true_iff.
  - apply bool_decide_eq_true in Hx as ->. left.
  - right. by apply IH.
Qed.

(** The three separators of a list box line: where an occurrence cannot
    start. *)
Lemma no_early_dash i b :
  contains (chars " - ") i = false -> ~ chars " -" `suffix_of` i ->
  forall a1 a2, i = a1 ++ a2 -> a2 <> [] ->
    starts_with (chars " - ") (a2 ++ chars " - " ++ b) = false.
Proof.
  intros Hc Hs a1 a2 -> Ha2.
  destruct (starts_with _ _) eqn:E; [exfalso|done].
  destruct a2 as [|x [|y [|z a2]]]; [done| | |].
  - cbn in E. apply andb_true_iff in E as [_ E].
    by apply andb_true_iff in E as [[=]%bool_decide_eq_true _].
  - cbn in E. apply andb_true_iff in E as [<-%bool_decide_eq_true E].
    apply andb_true_iff in E as [<-%bool_decide_eq_true _].
    apply Hs. by exists a1.
  - rewrite (starts_with_app_l _ (x :: y :: z :: a2)) in E
      by (cbn; lia).
    by rewrite (contains_app_r _ a1 _ E) in Hc.
Qed.

Lemma no_early_paren n b :
  contains (chars " (") n = false ->
  forall a1 a2, n = a1 ++ a2 -> a2 <> [] ->
    starts_with (chars " (") (a2 ++ chars " (" ++ b) = false.
Proof.
  intros Hc a1 a2 -> Ha2.
  destruct (starts_with _ _) eqn:E; [exfalso|done].
  destruct a2 as [|x [|y a2]]; [done| |].
  - cbn in E. apply andb_true_iff in E as [_ E].
    by apply andb_true_iff in E as [[=]%bool_decide_eq_true _].
  - rewrite (starts_with_app_l _ (x :: y :: a2)) in E by (cbn; lia).
    by rewrite (contains_app_r _ a1 _ E) in Hc.
Qed.

Lemma no_early_bar d b :
  contains (chars ") | ") d = false ->
  forall a1 a2, d = a1 ++ a2 -> a2 <> [] ->
    starts_with (chars ") | ") (a2 ++ chars ") | " ++ b) = false.
Proof.
  intros Hc a1 a2 -> Ha2.
  destruct (starts_with _ _) eqn:E; [exfalso|done].
  destruct a2 as [|x [|y [|z [|w a2]]]]; [done| | | |].
  - cbn in E. apply andb_true_iff in E as [_ E].
    by apply andb_true_iff in E as [[=]%bool_decide_eq_true _].
  - cbn in E. apply andb_true_iff in E as [_ E].
    apply andb_true_iff in E as [_ E].
    by apply andb_true_iff in E as [[=]%bool_decide_eq_true _].
  - cbn in E. apply andb_true_iff in E as [<-%bool_decide_eq_true E].
    apply andb_true_iff in E as [_ E].
    apply andb_true_iff in E as [_ E].
    by apply andb_true_iff in E as [[=]%bool_decide_eq_true _].
  - rewrite (starts_with_app_l _ (x :: y :: z :: w :: a2)) in E
      by (cbn; lia).
    by rewrite (contains_app_r _ a1 _ E) in Hc.
Qed.

(** A text of digits has no space, so no [ - ] starts in it. *)
Lemma isdigit_no_dash i :
  forallb isdigit_char i = true ->
  contains (chars " - ") i = false /\ ~ chars " -" `suffix_of` i.
Proof.
  intros Hd.
  assert (" "%char ∉ i) as Hsp.
  { intros Hin. rewrite forallb_forall in Hd.
    apply list_elem_of_In in Hin. by specialize (Hd _ Hin). }
  split.
  - destruct (contains _ i) eqn:E; [|done].
    by apply contains_head_elem in E.
  - intros [k ->]. apply Hsp. apply elem_of_app. right. left.
Qed.

(** Splitting a line of the list box back into its fields. *)
Lemma split_line_id i n d r :
  contains (chars " - ") i = false -> ~ chars " -" `suffix_of` i ->
  unpack2 (split1 (chars " - ") (line_text i n d r))
  = Some (i, n ++ chars " (" ++ d ++ chars ") | " ++ r).
Proof.
  intros Hc Hs. unfold split1, line_text.
  rewrite split_once_first; [done|]. by apply no_early_dash.
Qed.

Lemma split_line_name n d r :
  contains (chars " (") n = false ->
  unpack2 (split1 (chars " (") (n ++ chars " (" ++ d ++ chars ") | " ++ r))
  = Some (n, d ++ chars ") | " ++ r).
Proof.
  intros Hc. unfold split1.
  rewrite split_once_first; [done|]. by apply no_early_paren.
Qed.

Lemma split_line_rest d r :
  contains (chars ") | ") d = false -> contains (chars ") | ") r = false ->
  unpack2 (split (chars ") | ") (d ++ chars ") | " ++ r)) = Some (d, r).
Proof.
  intros Hd Hr. unfold split.
  destruct (length (d ++ chars ") | " ++ r)) as [|k] eqn:E.
  { rewrite !length_app in E. cbn in E. lia. }
  cbn [split_rounds].
  rewrite split_once_first by (by apply no_early_bar).
  destruct k; cbn [split_rounds]; [done|].
  by rewrite split_once_None.
Qed.


(** ** Words, [split] and [join] *)

Lemma is_word_inv w :
  is_word w = true ->
  w <> [] /\ forallb (fun c => negb (isspace c)) w = true.
Proof.
  unfold is_word. intros [H1 H2]%andb_true_iff. split; [|done].
  by apply negb_true_iff, bool_decide_eq_false in H1.
Qed.

Lemma is_word_snoc cur c :
  (cur = [] \/ is_word cur = true) -> isspace c = false ->
  is_word (cur ++ [c]) = true.
Proof.
  intros Hcur Hc. unfold is_word. apply andb_true_iff. split.
  - apply negb_true_iff, bool_decide_eq_false. by destruct cur.
  - rewrite forallb_app. cbn. rewrite Hc. cbn.
    destruct Hcur as [-> | [_ H]%is_word_inv]; [done|]. by rewrite H.
Qed.

Lemma split_ws_aux_words s : forall cur,
  (cur = [] \/ is_word cur = true) ->
  Forall (fun w => is_word w = true) (split_ws_aux cur s).
Proof.
  induction s as [|c s IH]; intros cur Hcur; cbn [split_ws_aux].
  - destruct cur; [constructor|].
    destruct Hcur as [?|?]; [done|]. by repeat constructor.
  - destruct (isspace c) eqn:Hc.
    + destruct cur as [|x cur]; [by apply IH; left|].
      destruct Hcur as [?|?]; [done|].
      constructor; [done|]. apply IH. by left.
    + apply IH. right. by apply is_word_snoc.
Qed.

Lemma split_ws_words s : Forall (fun w => is_word w = true) (split_ws s).
Proof. apply split_ws_aux_words. by left. Qed.

Lemma split_ws_aux_nil s cur :
  split_ws_aux cur s = [] <-> cur = [] /\ forallb isspace s = true.
Proof.
  revert cur. induction s as [|c s IH]; intros cur; cbn.
  - destruct cur; split; try done. by intros [? _].
  - destruct (isspace c) eqn:Hc; cbn.
    + destruct cur as [|x cur]; [apply IH|]. split; [done|by intros [? _]].
    + rewrite IH. split; [|by intros [_ ?]]. intros [H _]. by destruct cur.
Qed.

(** A word is read in one piece. *)
Lemma split_ws_aux_word w : forall cur rest,
  forallb (fun c => negb (isspace c)) w = true ->
  split_ws_aux cur (w ++ rest) = split_ws_aux (cur ++ w) rest.
Proof.
  induction w as [|c w IH]; intros cur rest Hw.
  - by rewrite app_nil_r.
  - cbn in Hw. apply andb_true_iff in Hw as [Hc Hw].
    apply negb_true_iff in Hc. cbn [app split_ws_aux]. rewrite Hc.
    rewrite IH by done. by rewrite <- app_assoc.
Qed.

Lemma split_ws_join ws :
  Forall (fun w => is_word w = true) ws ->
  split_ws (join (chars " ") ws) = ws.
Proof.
  unfold split_ws. induction 1 as [|w ws Hw Hws IH]; [done|].
  apply is_word_inv in Hw as [Hne Hno].
  cbn [join]. destruct ws as [|w2 ws].
  - pose proof (split_ws_aux_word w [] [] Hno) as H.
    rewrite app_nil_r in H. rewrite H. cbn. by destruct w.
  - rewrite split_ws_aux_word by done. cbn [app].
    change (chars " " ++ ?x) with (" "%char :: x).
    cbn [split_ws_aux]. change (isspace " ") with true. cbn iota.
    destruct w; [done|]. by rewrite IH.
Qed.

Lemma join_words_nil ws :
  Forall (fun w => is_word w = true) ws ->
  join (chars " ") ws = [] -> ws = [].
Proof.
  intros H Hj. destruct H as [|w ws Hw _]; [done|].
  apply is_word_inv in Hw as [Hne _]. cbn [join] in Hj.
  destruct ws; [done|]. by apply app_eq_nil in Hj as [? _].
Qed.

Lemma join_words_head ws c :
  Forall (fun w => is_word w = true) ws ->
  head (join (chars " ") ws) = Some c -> isspace c = false.
Proof.
  intros H. destruct H as [|w ws Hw _]; [done|].
  apply is_word_inv in Hw as [Hne Hno]. cbn [join].
  assert (head w = Some c -> isspace c = false) as Hw.
  { destruct w as [|x w]; [done|]. intros [= ->]. cbn in Hno.
    apply andb_true_iff in Hno as [Hx _]. by apply negb_true_iff. }
  destruct ws; [done|]. rewrite head_app.
  destruct (head w) eqn:E; [|by destruct w]. intros [= ->]. by apply Hw.
Qed.

Lemma join_words_last ws c :
  Forall (fun w => is_word w = true) ws ->
  last (join (chars " ") ws) = Some c -> isspace c = false.
Proof.
  induction 1 as [|w ws Hw Hws IH]; [done|].
  cbn [join]. destruct ws as [|w2 ws].
  - apply is_word_inv in Hw as [Hne Hno]. intros Hl.
    apply last_Some in Hl as [l ->]. rewrite forallb_app in Hno.
    apply andb_true_iff in Hno as [_ Hno]. cbn in Hno.
    rewrite andb_true_r in Hno. by apply negb_true_iff.
  - rewrite !last_app.
    destruct (last (join (chars " ") (w2 :: ws))) eqn:E; [by intros [= ->]; apply IH|].
    exfalso. apply last_None in E.
    by apply join_words_nil in E.
Qed.

Lemma strip_join_words ws :
  Forall (fun w => is_word w = true) ws ->
  strip (join (chars " ") ws) = join (chars " ") ws.
Proof.
  intros H. apply strip_fixed; intros c.
  - by apply join_words_head.
  - by apply join_words_last.
Qed.

Lemma strip_all_space s :
  forallb isspace (strip s) = true <-> forallb isspace s = true.
Proof.
  destruct (strip_split s) as (l & r & Hs & Hl & Hr).
  rewrite Hs at 2. rewrite !forallb_app, Hl, Hr.
  cbn. by rewrite andb_true_r.
Qed.

End text_facts.

(** * Properties of the form *)

Section form_properties.
Implicit Types (e : gmap string str) (es : list (gmap string str)).
Implicit Types (file : option str) (a : EmployeeApp).

(** X14.  Selecting a line of the list box gives back the four fields the
    line was built from, disables the id entry and selects the id, when the
    fields do not hold the separators of the line: the id does not contain
    [ - ] nor end in [ -], the name does not contain [ (], and neither the
    department nor the role contains [) | ].  An id made of digits always
    meets its condition. *)
Theorem X14_on_select_reads_line_back a k i n d r :
  listbox a !! k = Some (line_text i n d r) ->
  (contains (chars " - ") i = false /\ ~ chars " -" `suffix_of` i)
  \/ forallb isdigit_char i = true ->
  contains (chars " (") n = false ->
  contains (chars ") | ") d = false ->
  contains (chars ") | ") r = false ->
  on_select a [k]
  = Some (mkApp i true n d r (dept_values a) (Some i) (listbox a)).
Proof.
  intros Hk Hi Hn Hd Hr.
  assert (contains (chars " - ") i = false /\ ~ chars " -" `suffix_of` i)
    as [Hi1 Hi2].
  { destruct Hi as [Hi|Hi]; [done|by apply isdigit_no_dash]. }
  unfold on_select. rewrite Hk. cbn [default]. unfold id.
  rewrite split_line_id by done.
  rewrite split_line_name by done.
  by rewrite split_line_rest.
Qed.

(** X14 on the line [100001 - Ann Lee (IT) | Dev]. *)
Lemma X14_on_select_reads_line_back_witness :
  let a := mkApp [] false [] [] [] [] None
             [line_text (chars "100001") (chars "Ann Lee") (chars "IT")
                        (chars "Dev")] in
  forallb isdigit_char (chars "100001") = true
  /\ contains (chars " (") (chars "Ann Lee") = false
  /\ on_select a [0]
     = Some (mkApp (chars "100001") true (chars "Ann Lee") (chars "IT")
                   (chars "Dev") [] (Some (chars "100001")) (listbox a)).
Proof.
  cbv zeta. split; [reflexivity|]. split; [reflexivity|].
  exact (X14_on_select_reads_line_back
           (mkApp [] false [] [] [] [] None
              [line_text (chars "100001") (chars "Ann Lee") (chars "IT")
                         (chars "Dev")])
           0 (chars "100001") (chars "Ann Lee") (chars "IT") (chars "Dev")
           eq_refl (or_intror eq_refl) eq_refl eq_refl eq_refl).
Defined.

(** Records in stored form have the four keys, so their lines are built
    without a KeyError. *)
Lemma display_line_stored e :
  stored_form e = e -> display_line e = Some (line_of e).
Proof. intros <-. reflexivity. Qed.

Lemma display_lines_stored es :
  Forall (fun e => stored_form e = e) es ->
  display_lines es = Some (map line_of es).
Proof.
  induction 1 as [|e es He _ IH]; [done|]. cbn [display_lines map].
  by rewrite (display_line_stored e He), IH.
Qed.

Lemma refresh_list_eq a file :
  refresh_list a file
  = Some (with_listbox a (map line_of (persisted file)),
          ensure_data_file file).
Proof.
  unfold refresh_list, load_employees.
  change (load_rows _) with (persisted file).
  by rewrite (display_lines_stored _ (persisted_stored file)).
Qed.


(** X15.  After [refresh_list], selecting line [k] fills the form with the
    four fields of the [k]-th persisted record and selects its id, when
    those fields do not hold the separators of the line (for the id: when
    it is made of digits, or does not contain [ - ] nor end in [ -]). *)
Theorem X15_select_after_refresh a file k e a1 file1 :
  refresh_list a file = Some (a1, file1) ->
  persisted file !! k = Some e ->
  (contains (chars " - ") (dict_get e "id" []) = false
   /\ ~ chars " -" `suffix_of` dict_get e "id" [])
  \/ forallb isdigit_char (dict_get e "id" []) = true ->
  contains (chars " (") (dict_get e "name" []) = false ->
  contains (chars ") | ") (dict_get e "department" []) = false ->
  contains (chars ") | ") (dict_get e "role" []) = false ->
  on_select a1 [k]
  = Some (mkApp (dict_get e "id" []) true (dict_get e "name" [])
                (dict_get e "department" []) (dict_get e "role" [])
                (dept_values a) (id_of e) (listbox a1)).
Proof.
  rewrite refresh_list_eq. intros [= <- <-] Hk Hi Hn Hd Hr.
  assert (id_of e = Some (dict_get e "id" [])) as ->.
  { pose proof (persisted_stored file) as Hst.
    rewrite Forall_forall in Hst.
    assert (e ∈ persisted file) as He by (by eapply list_elem_of_lookup_2).
    rewrite <- (Hst e He) at 1. rewrite id_of_stored_form.
    f_equal. rewrite <- (Hst e He) at 2. reflexivity. }
  apply (X14_on_select_reads_line_back
           (with_listbox a (map line_of (persisted file))) k); try done.
  cbn [listbox with_listbox].
  change (map line_of (persisted file)) with (line_of <$> persisted file).
  by rewrite list_lookup_fmap, Hk.
Qed.


(** X15 on the store with the row [100001,Ann Lee,IT,Dev]. *)
Lemma X15_select_after_refresh_witness :
  let file := Some (chars "100001,Ann Lee,IT,Dev" ++ [LF]) in
  let a := mkApp [] false [] [] [] [] None [] in
  let e := mk_emp (chars "100001") (chars "Ann Lee") (chars "IT")
                  (chars "Dev") in
  persisted file !! 0 = Some e
  /\ on_select (with_listbox a (map line_of (persisted file))) [0]
     = Some (mkApp (chars "100001") true (chars "Ann Lee") (chars "IT")
                   (chars "Dev") [] (Some (chars "100001"))
                   (map line_of (persisted file))).
Proof.
  cbv zeta.
  assert (persisted (Some (chars "100001,Ann Lee,IT,Dev" ++ [LF])) !! 0
          = Some (mk_emp (chars "100001") (chars "Ann Lee") (chars "IT")
                         (chars "Dev"))) as Hk by (vm_compute; reflexivity).
  split; [exact Hk|].
  exact (X15_select_after_refresh
           (mkApp [] false [] [] [] [] None [])
           (Some (chars "100001,Ann Lee,IT,Dev" ++ [LF])) 0
           (mk_emp (chars "100001") (chars "Ann Lee") (chars "IT")
                   (chars "Dev"))
           _ _ (refresh_list_eq _ _) Hk
           (or_intror eq_refl) eq_refl eq_refl eq_refl).
Defined.


Global Instance meets_query_dec iq nq dq rq e :
  Decision (meets_query iq nq dq rq e).
Proof. unfold meets_query. apply _. Defined.

Lemma lookup_stored_form e :
  stored_form e !! "id"%string = Some (strip (dict_get e "id" []))
  /\ stored_form e !! "name"%string = Some (strip (dict_get e "name" []))
  /\ stored_form e !! "department"%string
     = Some (strip (dict_get e "department" []))
  /\ stored_form e !! "role"%string = Some (strip (dict_get e "role" [])).
Proof. repeat split; reflexivity. Qed.

Lemma or_else_negb (b1 b2 : bool) :
  or_else (Some (negb b1)) (Some (negb b2)) = Some (negb (b1 && b2)).
Proof. by destruct b1, b2. Qed.

Lemma query_test (q : str) (test : bool) :
  (if bool_decide (q = []) then Some false else Some (negb test))
  = Some (negb (bool_decide (q = [] \/ test = true))).
Proof.
  case_bool_decide as Hq.
  - by rewrite bool_decide_eq_true_2 by (by left).
  - destruct test.
    + by rewrite bool_decide_eq_true_2 by (by right).
    + rewrite bool_decide_eq_false_2; [done|]. by intros [?|?].
Qed.

(** On a record in stored form, one round of the search loop skips the
    record exactly when it does not meet the query. *)
Lemma search_skips_stored iq nq dq rq e :
  stored_form e = e ->
  search_skips iq nq dq rq e
  = Some (negb (bool_decide (meets_query iq nq dq rq e))).
Proof.
  intros He.
  destruct (lookup_stored_form e) as (Hi & Hn & Hd & Hr).
  rewrite He in Hi, Hn, Hd, Hr.
  set (vi := strip (dict_get e "id" [])) in Hi. clearbody vi.
  set (vn := strip (dict_get e "name" [])) in Hn. clearbody vn.
  set (vd := strip (dict_get e "department" [])) in Hd. clearbody vd.
  set (vr := strip (dict_get e "role" [])) in Hr. clearbody vr.
  unfold search_skips. rewrite Hi, Hn, Hd, Hr.
  rewrite !query_test, !or_else_negb. do 2 f_equal.
  set (b := (_ && _)).
  assert (b = true <-> meets_query iq nq dq rq e) as Hb.
  { unfold b, meets_query, id_of, dict_get.
    rewrite !andb_true_iff, !bool_decide_eq_true, Hi, Hn, Hd, Hr.
    cbn [default]. split.
    - intros ([?| ->] & ? & ? & ?); (split; [|done]); [by left|by right].
    - intros ([?|[= ->]] & ? & ? & ?); (split; [|done]);
        [by left|by right]. }
  destruct (decide (meets_query iq nq dq rq e)) as [Hm|Hm].
  - rewrite bool_decide_eq_true_2 by done. by apply Hb.
  - rewrite bool_decide_eq_false_2 by done.
    destruct b; [|done]. exfalso. by apply Hm, Hb.
Qed.

Lemma search_loop_stored iq nq dq rq es :
  Forall (fun e => stored_form e = e) es ->
  search_loop iq nq dq rq es = Some (filter (meets_query iq nq dq rq) es).
Proof.
  induction 1 as [|e es He _ IH]; [done|]. cbn [search_loop].
  rewrite (search_skips_stored _ _ _ _ e He), IH, filter_cons.
  destruct (decide (meets_query iq nq dq rq e)) as [Hm|Hm].
  - by rewrite bool_decide_eq_true_2.
  - by rewrite bool_decide_eq_false_2.
Qed.

Lemma on_search_eq a file :
  on_search a file
  = Some (with_listbox a
            (map line_of
               (filter (meets_query (strip (entry_id a))
                                    (lower (strip (entry_name a)))
                                    (lower (strip (entry_dept a)))
                                    (lower (strip (entry_role a))))
                       (persisted file))),
          ensure_data_file file).
Proof.
  unfold on_search, load_employees.
  change (load_rows _) with (persisted file).
  rewrite (search_loop_stored _ _ _ _ _ (persisted_stored file)).
  rewrite display_lines_stored; [done|].
  apply Forall_stored_filter, persisted_stored.
Qed.

Lemma filter_by_id_unique (P : gmap string str -> Prop)
    `{forall e, Decision (P e)} i es :
  (forall e, P e -> id_of e = Some i) ->
  unique_ids es -> length (filter P es) <= 1.
Proof.
  intros HP. unfold unique_ids.
  induction es as [|e es IH]; [cbn; lia|]. cbn [map].
  intros [Hnot Hes]%NoDup_cons. rewrite filter_cons.
  destruct (decide (P e)) as [He|He]; [|by apply IH].
  assert (filter P es = []) as ->; [|cbn; lia].
  destruct (filter P es) as [|x l] eqn:E; [done|]. exfalso.
  assert (x ∈ filter P es) as Hx by (rewrite E; left).
  apply list_elem_of_filter in Hx as [HPx Hx]. apply Hnot.
  rewrite (HP e He), <- (HP x HPx).
  change (map id_of es) with (id_of <$> es). by apply list_elem_of_fmap_2.
Qed.


(** X17.  A search by id (an id entry that is not blank) shows only
    records with exactly that id, and at most one line when the persisted
    ids are unique. *)
Theorem X17_on_search_by_id a file a1 file1 :
  strip (entry_id a) <> [] ->
  on_search a file = Some (a1, file1) ->
  exists shown,
    listbox a1 = map line_of shown
    /\ Forall (fun e => e ∈ persisted file
                        /\ id_of e = Some (strip (entry_id a))) shown
    /\ (unique_ids (persisted file) -> length (listbox a1) <= 1).
Proof.
  intros Hid. rewrite on_search_eq. intros [= <- <-].
  eexists. split; [reflexivity|]. split.
  - apply Forall_forall. intros e [Hm He]%list_elem_of_filter.
    split; [done|]. by destruct Hm as ([?|?] & _).
  - intros Hu. cbn [listbox with_listbox]. rewrite length_map.
    apply (filter_by_id_unique _ (strip (entry_id a))); [|done].
    intros e Hm. by destruct Hm as ([?|?] & _).
Qed.

(** X17 on the store with the rows [1,a,b,c] and [2,d,e,f], searching for
    the id [2]. *)
Lemma X17_on_search_by_id_witness :
  let file := Some (chars "1,a,b,c" ++ [LF] ++ chars "2,d,e,f" ++ [LF]) in
  let a := mkApp (chars " 2 ") false [] [] [] [] None [] in
  strip (entry_id a) <> []
  /\ exists a1 file1 shown,
       on_search a file = Some (a1, file1)
       /\ listbox a1 = map line_of shown
       /\ Forall (fun e => e ∈ persisted file
                           /\ id_of e = Some (strip (entry_id a))) shown.
Proof.
  cbv zeta.
  assert (strip (entry_id (mkApp (chars " 2 ") false [] [] [] [] None []))
          <> []) as Hid by (vm_compute; intros [=]).
  split; [exact Hid|].
  eexists _, _.
  destruct (X17_on_search_by_id
              (mkApp (chars " 2 ") false [] [] [] [] None [])
              (Some (chars "1,a,b,c" ++ [LF] ++ chars "2,d,e,f" ++ [LF]))
              _ _ Hid (on_search_eq _ _)) as (shown & H1 & H2 & _).
  exists shown. split; [reflexivity|]. split; [exact H1|exact H2].
Defined.

(** X18.  With the four entries blank, [on_search] does what
    [refresh_list] does: it lists every persisted record. *)
Theorem X18_on_search_blank a file :
  strip (entry_id a) = [] -> strip (entry_name a) = [] ->
  strip (entry_dept a) = [] -> strip (entry_role a) = [] ->
  on_search a file = refresh_list a file.
Proof.
  intros Hi Hn Hd Hr. rewrite on_search_eq, refresh_list_eq.
  rewrite Hi, Hn, Hd, Hr.
  assert (forall es, filter (meets_query [] (lower []) (lower []) (lower []))
                            es = es) as ->; [|done].
  intros es. induction es as [|e es IH]; [done|].
  rewrite filter_cons_True, IH; [done|].
  unfold meets_query. repeat split; by left.
Qed.

(** X18 with entries that hold only spaces. *)
Lemma X18_on_search_blank_witness :
  let file := Some (chars "1,a,b,c" ++ [LF]) in
  let a := mkApp (chars " ") false (chars "  ") [] (chars " ") [] None [] in
  strip (entry_id a) = []
  /\ on_search a file = refresh_list a file.
Proof.
  cbv zeta. split; [reflexivity|].
  exact (X18_on_search_blank
           (mkApp (chars " ") false (chars "  ") [] (chars " ") [] None [])
           (Some (chars "1,a,b,c" ++ [LF]))
           eq_refl eq_refl eq_refl eq_refl).
Defined.


(** ** The handlers that change the store *)

Section handlers.
Variables upper capitalize : str -> str.

(** The record [get_fields] builds, and the checks on it. *)
Lemma get_fields_record a :
  (get_fields upper capitalize a).2
  = mk_emp (strip (entry_id a))
           (smart_title upper capitalize (entry_name a))
           (smart_title upper capitalize (entry_dept a))
           (smart_title upper capitalize (entry_role a)).
Proof. reflexivity. Qed.

Lemma get_fields_window a :
  let a1 := (get_fields upper capitalize a).1 in
  listbox a1 = listbox a /\ selected_id a1 = selected_id a
  /\ entry_id a1 = entry_id a /\ entry_name a1 = entry_name a
  /\ entry_dept a1 = entry_dept a /\ entry_role a1 = entry_role a.
Proof.
  cbv zeta. unfold get_fields. cbv zeta. cbn [fst].
  by destruct (negb _ && negb _).
Qed.

Lemma lookup_mk_emp i n d r :
  mk_emp i n d r !! "id"%string = Some i
  /\ mk_emp i n d r !! "name"%string = Some n
  /\ mk_emp i n d r !! "department"%string = Some d
  /\ mk_emp i n d r !! "role"%string = Some r.
Proof. repeat split; reflexivity. Qed.

Lemma some_field_blank_mk_emp i n d r :
  some_field_blank (mk_emp i n d r)
  = Some (bool_decide (i = []) || bool_decide (n = [])
          || bool_decide (d = []) || bool_decide (r = [])).
Proof.
  destruct (lookup_mk_emp i n d r) as (Hi & Hn & Hd & Hr).
  unfold some_field_blank, is_blank. rewrite Hi, Hn, Hd, Hr.
  by repeat case_bool_decide.
Qed.

Lemma id_invalid_mk_emp i n d r :
  id_invalid (mk_emp i n d r)
  = Some (negb (isdigit i) || negb (length i =? 6)).
Proof.
  destruct (lookup_mk_emp i n d r) as (Hi & _).
  unfold id_invalid. by rewrite Hi.
Qed.


Lemma form_valid_false_cases a :
  form_valid upper capitalize a = false ->
  (bool_decide (strip (entry_id a) = [])
   || bool_decide (smart_title upper capitalize (entry_name a) = [])
   || bool_decide (smart_title upper capitalize (entry_dept a) = [])
   || bool_decide (smart_title upper capitalize (entry_role a) = [])) = true
  \/ ((bool_decide (strip (entry_id a) = [])
       || bool_decide (smart_title upper capitalize (entry_name a) = [])
       || bool_decide (smart_title upper capitalize (entry_dept a) = [])
       || bool_decide (smart_title upper capitalize (entry_role a) = []))
      = false
      /\ negb (isdigit (strip (entry_id a)))
         || negb (length (strip (entry_id a)) =? 6) = true).
Proof.
  unfold form_valid. destruct (_ || _ || _ || _); [by left|].
  cbn [negb andb]. intros H. right. split; [done|].
  by destruct (isdigit _), (_ =? _).
Qed.

Lemma form_valid_true_cases a :
  form_valid upper capitalize a = true ->
  (bool_decide (strip (entry_id a) = [])
   || bool_decide (smart_title upper capitalize (entry_name a) = [])
   || bool_decide (smart_title upper capitalize (entry_dept a) = [])
   || bool_decide (smart_title upper capitalize (entry_role a) = [])) = false
  /\ negb (isdigit (strip (entry_id a)))
     || negb (length (strip (entry_id a)) =? 6) = false.
Proof.
  unfold form_valid. destruct (_ || _ || _ || _); [done|].
  cbn [negb andb]. by destruct (isdigit _), (_ =? _).
Qed.

(** The id [add_employee] and [update_employee] read in the record of the
    form is the stripped id entry. *)
Lemma form_record_id a :
  strip (dict_get (get_fields upper capitalize a).2 "id" [])
  = strip (entry_id a)
  /\ (get_fields upper capitalize a).2 !! "id"%string
     = Some (strip (entry_id a)).
Proof.
  split; [|reflexivity].
  change (dict_get (get_fields upper capitalize a).2 "id" [])
    with (strip (entry_id a)).
  apply strip_idemp.
Qed.

(** [on_add] when a check fails: a message, and nothing else happens. *)
Lemma on_add_invalid a file :
  form_valid upper capitalize a = false ->
  exists dlg,
    on_add upper capitalize a file
    = Some ((get_fields upper capitalize a).1, file, dlg)
    /\ (dlg = ShowWarning "Validation Error"
                "All fields (ID, Name, Department, Role) are required."
        \/ dlg = ShowError "Invalid ID"
                   "Employee ID must be exactly 6 digits.").
Proof.
  intros Hv. unfold on_add.
  destruct (get_fields upper capitalize a) as [a1 emp] eqn:E.
  pose proof (get_fields_record a) as Hrec. rewrite E in Hrec.
  cbn [fst snd] in *. subst emp.
  rewrite some_field_blank_mk_emp, id_invalid_mk_emp.
  destruct (form_valid_false_cases a Hv) as [-> | [-> ->]].
  - eexists. split; [reflexivity|by left].
  - eexists. split; [reflexivity|by right].
Qed.

(** [on_add] when the checks pass and the id is taken. *)
Lemma on_add_duplicate a file :
  form_valid upper capitalize a = true ->
  has_id (strip (entry_id a)) (persisted file) ->
  on_add upper capitalize a file
  = Some ((get_fields upper capitalize a).1, ensure_data_file file,
          ShowError "Error" "ID already exists").
Proof.
  intros Hv Hh. unfold on_add.
  destruct (form_record_id a) as [Hid _].
  rewrite <- Hid in Hh.
  pose proof (add_employee_duplicate _ _ Hh) as Hadd.
  destruct (get_fields upper capitalize a) as [a1 emp] eqn:E.
  pose proof (get_fields_record a) as Hrec. rewrite E in Hrec.
  cbn [fst snd] in *. rewrite Hadd. subst emp.
  rewrite some_field_blank_mk_emp, id_invalid_mk_emp.
  by destruct (form_valid_true_cases a Hv) as [-> ->].
Qed.

(** [on_add] when the checks pass and the id is free. *)
Lemma on_add_fresh a file :
  form_valid upper capitalize a = true ->
  ~ has_id (strip (entry_id a)) (persisted file) ->
  exists file',
    on_add upper capitalize a file
    = Some (clear_fields
              (with_listbox (get_fields upper capitalize a).1
                 (map line_of (persisted file'))),
            file', ShowInfo "Success" "Employee added successfully")
    /\ file' = (add_employee (get_fields upper capitalize a).2 file).1
    /\ persisted file'
       = persisted file ++ [stored_form (get_fields upper capitalize a).2].
Proof.
  intros Hv Hh. unfold on_add.
  destruct (form_record_id a) as [Hid _].
  rewrite <- Hid in Hh.
  pose proof (add_employee_fresh _ _ Hh) as Hadd.
  pose proof (persisted_add_fresh _ _ Hh) as Hper.
  destruct (get_fields upper capitalize a) as [a1 emp] eqn:E.
  pose proof (get_fields_record a) as Hrec. rewrite E in Hrec.
  cbn [fst snd] in *. rewrite Hadd in Hper |- *. cbn [fst] in Hper.
  eexists. split; [|split; [reflexivity|exact Hper]].
  subst emp.
  rewrite some_field_blank_mk_emp, id_invalid_mk_emp.
  destruct (form_valid_true_cases a Hv) as [-> ->].
  rewrite refresh_list_eq. reflexivity.
Qed.

(** With the file within the reader's limit, the handlers with the limit
    go as those without it. *)
Lemma refresh_list_checked_fits a file :
  fields_fit file -> refresh_list_checked a file = refresh_list a file.
Proof.
  intros H. unfold refresh_list_checked, refresh_list.
  rewrite load_employees_checked_fits by done.
  by destruct (load_employees file).
Qed.

Lemma on_add_checked_fits a file :
  fields_fit file -> record_fits (get_fields upper capitalize a).2 ->
  on_add_checked upper capitalize a file = on_add upper capitalize a file.
Proof.
  intros Hf Hr. unfold on_add_checked, on_add.
  destruct (get_fields upper capitalize a) as [a1 emp]. cbn [snd] in Hr.
  destruct (some_field_blank emp) as [[|]|]; try done.
  destruct (id_invalid emp) as [[|]|]; try done.
  rewrite add_employee_checked_fits by done.
  pose proof (fields_fit_add emp file Hf Hr) as Hf'.
  destruct (add_employee emp file) as [file1 [ok msg]]. cbn [fst] in Hf'.
  destruct ok; [|done]. by rewrite refresh_list_checked_fits.
Qed.

(** X19.  On a backing file in which no field is over the reader's limit,
    and with a form whose record has no field over it, [on_add] raises
    neither for a missing key nor from the reader, leaves a file that is
    within the limit again, and does one of two things.  Either the form
    passes the checks (no empty field, an id of six digits) and no
    persisted record has the stripped id entry: then the record of the form
    is added after the persisted records, the list box shows a line for
    every persisted record, and the entries are cleared.  Or it shows a
    warning or an error, the persisted collection and the list box stay as
    they were, and when a check failed the file is not touched at all. *)
Theorem X19_on_add_outcome a file :
  fields_fit file -> record_fits (get_fields upper capitalize a).2 ->
  exists a' file' dlg,
    on_add_checked upper capitalize a file = Some (a', file', dlg)
    /\ fields_fit file'
    /\ ((form_valid upper capitalize a = true
         /\ ~ has_id (strip (entry_id a)) (persisted file)
         /\ dlg = ShowInfo "Success" "Employee added successfully"
         /\ persisted file'
            = persisted file
              ++ [stored_form (get_fields upper capitalize a).2]
         /\ a' = clear_fields
                   (with_listbox (get_fields upper capitalize a).1
                      (map line_of (persisted file'))))
        \/ ((form_valid upper capitalize a = false
             \/ has_id (strip (entry_id a)) (persisted file))
            /\ (exists t m, dlg = ShowWarning t m \/ dlg = ShowError t m)
            /\ persisted file' = persisted file
            /\ listbox a' = listbox a
            /\ (form_valid upper capitalize a = true \/ file' = file))).
Proof.
  intros Hfit Hrec. rewrite on_add_checked_fits by done.
  destruct (get_fields_window a) as (Hlb & _).
  destruct (form_valid upper capitalize a) eqn:Hv.
  - destruct (decide (has_id (strip (entry_id a)) (persisted file)))
      as [Hh|Hh].
    + eexists _, _, _. split; [by apply on_add_duplicate|].
      split; [by apply fields_fit_ensure|]. right.
      split; [by right|]. split; [eexists _, _; by right|].
      split; [apply persisted_ensure|]. split; [exact Hlb|by left].
    + destruct (on_add_fresh a file Hv Hh) as (file' & Heq & Hf' & Hper).
      eexists _, _, _. split; [exact Heq|].
      split; [rewrite Hf'; by apply fields_fit_add|]. left. done.
  - destruct (on_add_invalid a file Hv) as (dlg & Heq & Hd).
    eexists _, _, _. split; [exact Heq|]. split; [done|]. right.
    split; [by left|]. split.
    { destruct Hd as [-> | ->]; eexists _, _; [by left|by right]. }
    split; [done|]. split; [exact Hlb|by right].
Qed.


(** What [update_employee] does, in two cases. *)
Lemma update_employee_outcome i upd file :
  ((update_employee i upd file).2.1 = false
   /\ (update_employee i upd file).1 = ensure_data_file file)
  \/ ((update_employee i upd file).2.1 = true
      /\ (update_employee i upd file).2.2 = "Updated"%string
      /\ ensure_data_file (update_employee i upd file).1
         = (update_employee i upd file).1
      /\ exists es1 e es2,
           persisted file = es1 ++ e :: es2
           /\ ~ has_id i es1 /\ id_of e = Some i
           /\ persisted (update_employee i upd file).1
              = es1 ++ stored_form upd :: es2).
Proof.
  destruct (decide (has_id i (persisted file))) as [Hh|Hh]; cycle 1.
  { left. by rewrite update_employee_missing. }
  destruct (has_id_first _ _ Hh) as (mid & x & post & Hes & Hmid & Hx).
  destruct ((update_employee i upd file).2.1) eqn:Hok.
  - right. split; [done|].
    pose proof (persisted_update_replaced _ _ _ _ _ _ Hes Hmid Hx Hok) as Hp.
    rewrite (update_employee_found _ _ _ _ _ _ Hes Hmid Hx) in Hok, Hp |- *.
    destruct (negb _ && bool_decide _); [done|]. cbn [fst snd] in Hp |- *.
    split; [done|]. split; [done|]. by exists mid, x, post.
  - left. split; [done|].
    rewrite (update_employee_found _ _ _ _ _ _ Hes Hmid Hx) in Hok |- *.
    by destruct (negb _ && bool_decide _).
Qed.

Lemma on_update_unselected a confirm file :
  no_selection a = true ->
  on_update upper capitalize a confirm file
  = Some (a, file, ShowWarning "Update" "Select an employee to update.").
Proof. intros H. unfold on_update. by rewrite H. Qed.

Lemma on_update_invalid a confirm file :
  no_selection a = false ->
  form_valid upper capitalize a = false ->
  exists dlg,
    on_update upper capitalize a confirm file
    = Some ((get_fields upper capitalize a).1, file, dlg)
    /\ (dlg = ShowWarning "Validation Error"
                "All fields must be filled before updating."
        \/ dlg = ShowError "Invalid ID"
                   "Employee ID must be exactly 6 digits.").
Proof.
  intros Hs Hv. unfold on_update. rewrite Hs.
  destruct (get_fields upper capitalize a) as [a1 emp] eqn:E.
  pose proof (get_fields_record a) as Hrec. rewrite E in Hrec.
  cbn [fst snd] in *. subst emp.
  rewrite some_field_blank_mk_emp, id_invalid_mk_emp.
  destruct (form_valid_false_cases a Hv) as [-> | [-> ->]].
  - eexists. split; [reflexivity|by left].
  - eexists. split; [reflexivity|by right].
Qed.

Lemma on_update_valid a confirm file :
  no_selection a = false ->
  form_valid upper capitalize a = true ->
  on_update upper capitalize a confirm file
  = if negb confirm
    then Some ((get_fields upper capitalize a).1, file, NoDialog)
    else
      let r := update_employee (default [] (selected_id a))
                 (get_fields upper capitalize a).2 file in
      if r.2.1
      then Some (clear_fields
                   (with_listbox (get_fields upper capitalize a).1
                      (map line_of (persisted r.1))),
                 ensure_data_file r.1,
                 ShowInfo "Updated" "Employee updated successfully")
      else Some ((get_fields upper capitalize a).1, r.1,
                 ShowError "Error" r.2.2).
Proof.
  intros Hs Hv. unfold on_update. rewrite Hs. cbv zeta.
  destruct (get_fields upper capitalize a) as [a1 emp] eqn:E.
  pose proof (get_fields_record a) as Hrec. rewrite E in Hrec.
  cbn [fst snd] in *.
  destruct (update_employee (default [] (selected_id a)) emp file)
    as [file1 [ok msg]].
  cbn [fst snd]. subst emp.
  rewrite some_field_blank_mk_emp, id_invalid_mk_emp.
  destruct (form_valid_true_cases a Hv) as [-> ->].
  destruct confirm; cbn [negb]; [|done].
  destruct ok; [|done]. by rewrite refresh_list_eq.
Qed.

(** What [on_update] does to the window and the store. *)
Lemma on_update_outcome a confirm file :
  exists a' file' dlg,
    on_update upper capitalize a confirm file = Some (a', file', dlg)
    /\ ((dlg = ShowInfo "Updated" "Employee updated successfully"
         /\ no_selection a = false
         /\ form_valid upper capitalize a = true /\ confirm = true
         /\ (exists es1 e es2,
               persisted file = es1 ++ e :: es2
               /\ ~ has_id (default [] (selected_id a)) es1
               /\ id_of e = Some (default [] (selected_id a))
               /\ persisted file'
                  = es1 ++ stored_form (get_fields upper capitalize a).2
                        :: es2)
         /\ a' = clear_fields
                   (with_listbox (get_fields upper capitalize a).1
                      (map line_of (persisted file'))))
        \/ ((forall t m, dlg <> ShowInfo t m)
            /\ persisted file' = persisted file
            /\ listbox a' = listbox a
            /\ selected_id a' = selected_id a
            /\ (no_selection a = true
                \/ form_valid upper capitalize a = false
                \/ confirm = false -> file' = file))).
Proof.
  destruct (get_fields_window a) as (Hlb & Hsel & _).
  destruct (no_selection a) eqn:Hs.
  { eexists _, _, _. split; [by apply on_update_unselected|]. right.
    repeat split; done. }
  destruct (form_valid upper capitalize a) eqn:Hv; cycle 1.
  { destruct (on_update_invalid a confirm file Hs Hv) as (dlg & Heq & Hd).
    eexists _, _, _. split; [exact Heq|]. right.
    split; [by destruct Hd as [-> | ->]|]. repeat split; done. }
  rewrite (on_update_valid a confirm file Hs Hv).
  destruct confirm; cbn [negb]; cycle 1.
  { eexists _, _, _. split; [reflexivity|]. right. repeat split; done. }
  cbv zeta.
  destruct (update_employee_outcome (default [] (selected_id a))
              (get_fields upper capitalize a).2 file)
    as [[Hok Hf]|(Hok & _ & Hens & es1 & e & es2 & Hes & Hmid & He & Hp)];
    rewrite Hok.
  - eexists _, _, _. split; [reflexivity|]. right.
    split; [done|]. rewrite Hf. split; [apply persisted_ensure|].
    split; [done|]. split; [done|]. by intros [[=]|[[=]|[=]]].
  - eexists _, _, _. split; [reflexivity|]. left.
    rewrite Hens. repeat split; try done. by exists es1, e, es2.
Qed.

Lemma persisted_delete_always i file :
  persisted (delete_employee i file).1
  = filter (fun e => id_of e <> Some i) (persisted file).
Proof.
  destruct (decide (has_id i (persisted file))) as [Hh|Hh].
  - by apply persisted_delete_present.
  - rewrite delete_employee_missing by done. cbn [fst].
    by rewrite persisted_ensure, filter_all_keep.
Qed.

Lemma delete_employee_file_exists i file :
  ensure_data_file (delete_employee i file).1 = (delete_employee i file).1.
Proof.
  destruct (decide (has_id i (persisted file))) as [Hh|Hh].
  - by rewrite delete_employee_present.
  - rewrite delete_employee_missing by done. by destruct file.
Qed.

(** What [on_delete] does to the window and the store. *)
Lemma on_delete_outcome a confirm file :
  exists a' file' dlg,
    on_delete a confirm file = Some (a', file', dlg)
    /\ (((no_selection a = true \/ confirm = false)
         /\ a' = a /\ file' = file)
        \/ (no_selection a = false /\ confirm = true /\ dlg = NoDialog
            /\ file' = (delete_employee (default [] (selected_id a)) file).1
            /\ persisted file'
               = filter (fun e => id_of e
                                  <> Some (default [] (selected_id a)))
                        (persisted file)
            /\ a' = clear_fields
                      (with_listbox a (map line_of (persisted file'))))).
Proof.
  unfold on_delete. destruct (no_selection a) eqn:Hs.
  { eexists _, _, _. split; [reflexivity|]. left. split; [by left|done]. }
  destruct confirm; cbn [negb]; cycle 1.
  { eexists _, _, _. split; [reflexivity|]. left. split; [by right|done]. }
  pose proof (persisted_delete_always (default [] (selected_id a)) file)
    as Hp.
  pose proof (delete_employee_file_exists (default [] (selected_id a)) file)
    as Hens.
  destruct (delete_employee (default [] (selected_id a)) file)
    as [file1 r]. cbn [fst] in *.
  rewrite refresh_list_eq, Hens.
  eexists _, _, _. split; [reflexivity|]. right. repeat split; done.
Qed.

Lemma on_update_checked_fits a confirm file :
  fields_fit file -> record_fits (get_fields upper capitalize a).2 ->
  on_update_checked upper capitalize a confirm file
  = on_update upper capitalize a confirm file.
Proof.
  intros Hf Hr. unfold on_update_checked, on_update.
  destruct (no_selection a); [done|].
  destruct (get_fields upper capitalize a) as [a1 emp]. cbn [snd] in Hr.
  destruct (some_field_blank emp) as [[|]|]; try done.
  destruct (id_invalid emp) as [[|]|]; try done.
  destruct (negb confirm); [done|].
  rewrite update_employee_checked_fits by done.
  pose proof (fields_fit_update (default [] (selected_id a)) emp file Hf Hr)
    as Hf'.
  destruct (update_employee (default [] (selected_id a)) emp file)
    as [file1 [ok msg]]. cbn [fst] in Hf'.
  destruct ok; [|done]. by rewrite refresh_list_checked_fits.
Qed.

Lemma on_delete_checked_fits a confirm file :
  fields_fit file -> on_delete_checked a confirm file = on_delete a confirm file.
Proof.
  intros Hf. unfold on_delete_checked, on_delete.
  destruct (no_selection a); [done|]. destruct (negb confirm); [done|].
  rewrite delete_employee_checked_fits by done.
  pose proof (fields_fit_delete (default [] (selected_id a)) file Hf) as Hf'.
  destruct (delete_employee (default [] (selected_id a)) file) as [file1 r].
  cbn [fst] in Hf'. by rewrite refresh_list_checked_fits.
Qed.

(** The file [on_update] leaves is within the limit when the file it finds
    and the record of the form are. *)
Lemma on_update_fit a confirm file a' file' dlg :
  fields_fit file -> record_fits (get_fields upper capitalize a).2 ->
  on_update upper capitalize a confirm file = Some (a', file', dlg) ->
  fields_fit file'.
Proof.
  intros Hf Hr. destruct (no_selection a) eqn:Hs.
  { rewrite on_update_unselected by done. by intros [= <- <- <-]. }
  destruct (form_valid upper capitalize a) eqn:Hv; cycle 1.
  { destruct (on_update_invalid a confirm file Hs Hv) as (d & -> & _).
    by intros [= <- <- <-]. }
  rewrite (on_update_valid a confirm file Hs Hv).
  destruct (negb confirm); [by intros [= <- <- <-]|]. cbv zeta.
  pose proof (fields_fit_update (default [] (selected_id a))
                (get_fields upper capitalize a).2 file Hf Hr) as Hf'.
  destruct (update_employee _ _ _).2.1; intros [= <- <- <-]; [|done].
  by apply fields_fit_ensure.
Qed.

(** X20.  On a backing file in which no field is over the reader's limit,
    and with a form whose record has no field over it, [on_update] raises
    neither for a missing key nor from the reader, leaves a file that is
    within the limit again, and does one of two things.  Either an id is
    selected, the form passes the checks, the user confirms and
    [update_employee] succeeds: then the first persisted record with the
    selected id is replaced, at its position, by the record of the form,
    the list box shows a line for every persisted record, and the entries
    and the selection are cleared.  Or no success is reported, and the
    persisted collection, the list box and the selection stay as they
    were; without a selection, with a failed check or without confirmation
    the file is not touched at all. *)
Theorem X20_on_update_outcome a confirm file :
  fields_fit file -> record_fits (get_fields upper capitalize a).2 ->
  exists a' file' dlg,
    on_update_checked upper capitalize a confirm file = Some (a', file', dlg)
    /\ fields_fit file'
    /\ ((dlg = ShowInfo "Updated" "Employee updated successfully"
         /\ no_selection a = false
         /\ form_valid upper capitalize a = true /\ confirm = true
         /\ (exists es1 e es2,
               persisted file = es1 ++ e :: es2
               /\ ~ has_id (default [] (selected_id a)) es1
               /\ id_of e = Some (default [] (selected_id a))
               /\ persisted file'
                  = es1 ++ stored_form (get_fields upper capitalize a).2
                        :: es2)
         /\ a' = clear_fields
                   (with_listbox (get_fields upper capitalize a).1
                      (map line_of (persisted file'))))
        \/ ((exists t m, dlg = ShowWarning t m \/ dlg = ShowError t m)
             \/ dlg = NoDialog)
            /\ persisted file' = persisted file
            /\ listbox a' = listbox a
            /\ selected_id a' = selected_id a
            /\ ((no_selection a = false
                 /\ form_valid upper capitalize a = true /\ confirm = true)
                \/ file' = file)).
Proof.
  intros Hfit Hrec. rewrite on_update_checked_fits by done.
  destruct (on_update_outcome a confirm file)
    as (a' & file' & dlg & Heq & H).
  pose proof (on_update_fit _ _ _ _ _ _ Hfit Hrec Heq) as Hfit'.
  destruct H as [H|(Hd & Hp & Hl & Hs & Hf)].
  { exists a', file', dlg. split; [exact Heq|]. split; [done|by left]. }
  exists a', file', dlg. split; [exact Heq|]. split; [done|]. right.
  split.
  { destruct dlg as [t m|t m|t m|]; [left|left|by destruct (Hd t m)|by right];
      eexists _, _; [by left|by right]. }
  split; [done|]. split; [done|]. split; [done|].
  destruct (no_selection a); [right; apply Hf; by left|].
  destruct (form_valid upper capitalize a);
    [|right; apply Hf; right; by left].
  destruct confirm; [by left|right; apply Hf; right; by right].
Qed.


(** X21.  On a backing file in which no field is over the reader's limit,
    [on_delete] raises neither for a missing key nor from the reader, and
    leaves a file that is within the limit again.  Without a selection or
    without confirmation it changes nothing, neither window nor file.
    Otherwise it removes every persisted record with the selected id, shows
    a line for every record left and clears the entries and the selection;
    it reports nothing, also when no record had the id. *)
Theorem X21_on_delete_outcome a confirm file :
  fields_fit file ->
  exists a' file' dlg,
    on_delete_checked a confirm file = Some (a', file', dlg)
    /\ fields_fit file'
    /\ (((no_selection a = true \/ confirm = false)
         /\ a' = a /\ file' = file)
        \/ (no_selection a = false /\ confirm = true /\ dlg = NoDialog
            /\ file' = (delete_employee (default [] (selected_id a)) file).1
            /\ persisted file'
               = filter (fun e => id_of e
                                  <> Some (default [] (selected_id a)))
                        (persisted file)
            /\ a' = clear_fields
                      (with_listbox a (map line_of (persisted file'))))).
Proof.
  intros Hfit. rewrite on_delete_checked_fits by done.
  destruct (on_delete_outcome a confirm file)
    as (a' & file' & dlg & Heq & H).
  exists a', file', dlg. split; [exact Heq|]. split; [|exact H].
  destruct H as [(_ & _ & ->)|(_ & _ & _ & -> & _)]; [done|].
  by apply fields_fit_delete.
Qed.

(** The persisted collection after each handler. *)
Lemma on_add_store a file a' file' dlg :
  on_add upper capitalize a file = Some (a', file', dlg) ->
  persisted file' = persisted file
  \/ (form_valid upper capitalize a = true
      /\ ~ has_id (strip (entry_id a)) (persisted file)
      /\ persisted file'
         = persisted file ++ [stored_form (get_fields upper capitalize a).2]).
Proof.
  destruct (form_valid upper capitalize a) eqn:Hv.
  - destruct (decide (has_id (strip (entry_id a)) (persisted file)))
      as [Hh|Hh].
    + rewrite on_add_duplicate by done. intros [= <- <- <-]. left.
      apply persisted_ensure.
    + destruct (on_add_fresh a file Hv Hh) as (f & -> & _ & Hp).
      intros [= <- <- <-]. by right.
  - destruct (on_add_invalid a file Hv) as (d & -> & _).
    intros [= <- <- <-]. by left.
Qed.

Lemma on_update_store a confirm file a' file' dlg :
  on_update upper capitalize a confirm file = Some (a', file', dlg) ->
  persisted file' = persisted file
  \/ (form_valid upper capitalize a = true
      /\ exists es1 e es2,
           persisted file = es1 ++ e :: es2
           /\ persisted file'
              = es1 ++ stored_form (get_fields upper capitalize a).2 :: es2).
Proof.
  destruct (on_update_outcome a confirm file)
    as (a2 & f2 & d2 & -> & [H|H]); intros [= <- <- <-].
  - right. destruct H as (_ & _ & Hv & _ & (es1 & e & es2 & H1 & _ & _ & H2)
                          & _).
    split; [done|]. by exists es1, e, es2.
  - left. by destruct H as (_ & ? & _).
Qed.

Lemma on_delete_store a confirm file a' file' dlg :
  on_delete a confirm file = Some (a', file', dlg) ->
  persisted file' = persisted file
  \/ persisted file'
     = filter (fun e => id_of e <> Some (default [] (selected_id a)))
              (persisted file).
Proof.
  destruct (on_delete_outcome a confirm file)
    as (a2 & f2 & d2 & -> & [H|H]); intros [= <- <- <-].
  - left. by destruct H as (_ & _ & ->).
  - right. by destruct H as (_ & _ & _ & _ & ? & _).
Qed.

Lemma id_of_form_record a :
  id_of (stored_form (get_fields upper capitalize a).2)
  = Some (strip (entry_id a)).
Proof.
  rewrite id_of_stored_form. f_equal. by destruct (form_record_id a).
Qed.

(** X22.  Through the form, ids stay unique: if no two persisted records
    share an id, that still holds after [on_add], [on_update] and
    [on_delete], whatever the entries, the selection and the answer to the
    confirmation. *)
Theorem X22_form_keeps_unique_ids a confirm file :
  unique_ids (persisted file) ->
  (forall a' file' dlg,
     on_add upper capitalize a file = Some (a', file', dlg) ->
     unique_ids (persisted file'))
  /\ (forall a' file' dlg,
        on_update upper capitalize a confirm file = Some (a', file', dlg) ->
        unique_ids (persisted file'))
  /\ (forall a' file' dlg,
        on_delete a confirm file = Some (a', file', dlg) ->
        unique_ids (persisted file')).
Proof.
  intros Hu. split; [|split]; intros a' file' dlg Heq.
  - destruct (on_add_store _ _ _ _ _ Heq) as [-> | (_ & Hh & ->)]; [done|].
    by apply (unique_ids_snoc _ _ (strip (entry_id a)) Hu
                (id_of_form_record a)).
  - destruct (no_selection a) eqn:Hs.
    { rewrite on_update_unselected in Heq by done.
      by injection Heq as <- <- <-. }
    destruct (form_valid upper capitalize a) eqn:Hv; cycle 1.
    { destruct (on_update_invalid a confirm file Hs Hv) as (d & Hd & _).
      rewrite Hd in Heq. by injection Heq as <- <- <-. }
    rewrite (on_update_valid a confirm file Hs Hv) in Heq.
    destruct confirm; cbn [negb] in Heq; [|by injection Heq as <- <- <-].
    cbv zeta in Heq.
    pose proof (update_employee_unique (default [] (selected_id a))
                  (get_fields upper capitalize a).2 file) as Hup.
    destruct ((update_employee _ _ file).2.1);
      injection Heq as <- <- <-; rewrite ?persisted_ensure;
      (apply Hup; [|done]); eexists; apply (form_record_id a).
  - destruct (on_delete_store _ _ _ _ _ _ Heq) as [-> | ->]; [done|].
    by apply unique_ids_filter.
Qed.


Lemma form_valid_id a :
  form_valid upper capitalize a = true ->
  isdigit (strip (entry_id a)) = true /\ length (strip (entry_id a)) = 6.
Proof.
  intros Hv. destruct (form_valid_true_cases a Hv) as [_ H].
  apply orb_false_iff in H as [H1 H2].
  apply negb_false_iff in H1, H2. split; [done|].
  by apply Nat.eqb_eq.
Qed.

(** X23.  Through the form, ids stay six digits: if every persisted record
    has an id of six digits, that still holds after [on_add], [on_update]
    and [on_delete]. *)
Theorem X23_form_keeps_six_digit_ids a confirm file :
  Forall six_digit_id (persisted file) ->
  (forall a' file' dlg,
     on_add upper capitalize a file = Some (a', file', dlg) ->
     Forall six_digit_id (persisted file'))
  /\ (forall a' file' dlg,
        on_update upper capitalize a confirm file = Some (a', file', dlg) ->
        Forall six_digit_id (persisted file'))
  /\ (forall a' file' dlg,
        on_delete a confirm file = Some (a', file', dlg) ->
        Forall six_digit_id (persisted file')).
Proof.
  intros Hall.
  assert (form_valid upper capitalize a = true ->
          six_digit_id (stored_form (get_fields upper capitalize a).2))
    as Hnew.
  { intros Hv. exists (strip (entry_id a)).
    split; [apply id_of_form_record|by apply form_valid_id]. }
  split; [|split]; intros a' file' dlg Heq.
  - destruct (on_add_store _ _ _ _ _ Heq) as [-> | (Hv & _ & ->)]; [done|].
    apply Forall_app. split; [done|]. constructor; [by apply Hnew|done].
  - destruct (on_update_store _ _ _ _ _ _ Heq)
      as [-> | (Hv & es1 & e & es2 & Hes & ->)]; [done|].
    rewrite Hes in Hall. apply Forall_app in Hall as [H1 [_ H2]%Forall_cons].
    apply Forall_app. split; [done|]. constructor; [by apply Hnew|done].
  - destruct (on_delete_store _ _ _ _ _ _ Heq) as [-> | ->]; [done|].
    clear Heq. induction Hall as [|e es He _ IH]; [constructor|].
    rewrite filter_cons. destruct (decide _); [by constructor|done].
Qed.


End handlers.

(** X19 on the store with the row [100001,Ann,IT,Dev] and the form filled
    with a new employee: file and record are within the limit, [on_add]
    does not raise and leaves a file within the limit. *)
Lemma X19_on_add_outcome_witness :
  let file := Some (chars "100001,Ann,IT,Dev" ++ [LF]) in
  let a := mkApp (chars "100002") false (chars "bob") (chars "hr")
                 (chars "clerk") [] None [] in
  fields_fit file
  /\ record_fits (get_fields ascii_upper ascii_capitalize a).2
  /\ exists a' file' dlg,
       on_add_checked ascii_upper ascii_capitalize a file
       = Some (a', file', dlg)
       /\ fields_fit file'.
Proof.
  cbv zeta.
  assert (fields_fit (Some (chars "100001,Ann,IT,Dev" ++ [LF]))) as Hf.
  { apply (bool_decide_unpack _). vm_compute. exact I. }
  assert (record_fits
            (get_fields ascii_upper ascii_capitalize
               (mkApp (chars "100002") false (chars "bob") (chars "hr")
                      (chars "clerk") [] None [])).2) as Hr.
  { apply (bool_decide_unpack _). vm_compute. exact I. }
  split; [exact Hf|]. split; [exact Hr|].
  destruct (X19_on_add_outcome ascii_upper ascii_capitalize _ _ Hf Hr)
    as (a' & file' & dlg & E & Hf' & _).
  exists a', file', dlg. split; [exact E|exact Hf'].
Defined.

(** X20 on the same store, with the stored employee selected and the form
    filled with the new values. *)
Lemma X20_on_update_outcome_witness :
  let file := Some (chars "100001,Ann,IT,Dev" ++ [LF]) in
  let a := mkApp (chars "100001") true (chars "ann lee") (chars "hr")
                 (chars "clerk") [] (Some (chars "100001")) [] in
  fields_fit file
  /\ record_fits (get_fields ascii_upper ascii_capitalize a).2
  /\ exists a' file' dlg,
       on_update_checked ascii_upper ascii_capitalize a true file
       = Some (a', file', dlg)
       /\ fields_fit file'.
Proof.
  cbv zeta.
  assert (fields_fit (Some (chars "100001,Ann,IT,Dev" ++ [LF]))) as Hf.
  { apply (bool_decide_unpack _). vm_compute. exact I. }
  assert (record_fits
            (get_fields ascii_upper ascii_capitalize
               (mkApp (chars "100001") true (chars "ann lee") (chars "hr")
                      (chars "clerk") [] (Some (chars "100001")) [])).2)
    as Hr.
  { apply (bool_decide_unpack _). vm_compute. exact I. }
  split; [exact Hf|]. split; [exact Hr|].
  destruct (X20_on_update_outcome ascii_upper ascii_capitalize _ true _ Hf Hr)
    as (a' & file' & dlg & E & Hf' & _).
  exists a', file', dlg. split; [exact E|exact Hf'].
Defined.

(** X21 on the same store, with the stored employee selected. *)
Lemma X21_on_delete_outcome_witness :
  let file := Some (chars "100001,Ann,IT,Dev" ++ [LF]) in
  let a := mkApp (chars "100001") true (chars "Ann") (chars "IT")
                 (chars "Dev") [] (Some (chars "100001")) [] in
  fields_fit file
  /\ exists a' file' dlg,
       on_delete_checked a true file = Some (a', file', dlg)
       /\ fields_fit file'.
Proof.
  cbv zeta.
  assert (fields_fit (Some (chars "100001,Ann,IT,Dev" ++ [LF]))) as Hf.
  { apply (bool_decide_unpack _). vm_compute. exact I. }
  split; [exact Hf|].
  destruct (X21_on_delete_outcome
              (mkApp (chars "100001") true (chars "Ann") (chars "IT")
                     (chars "Dev") [] (Some (chars "100001")) [])
              true _ Hf)
    as (a' & file' & dlg & E & Hf' & _).
  exists a', file', dlg. split; [exact E|exact Hf'].
Defined.

(** X22 on the store with the row [100001,Ann,IT,Dev], adding the record
    of id [100002]. *)
Lemma X22_form_keeps_unique_ids_witness :
  let file := Some (chars "100001,Ann,IT,Dev" ++ [LF]) in
  let a := mkApp (chars "100002") false (chars "bob") (chars "hr")
                 (chars "clerk") [] None [] in
  unique_ids (persisted file)
  /\ exists a' file' dlg,
       on_add ascii_upper ascii_capitalize a file = Some (a', file', dlg)
       /\ unique_ids (persisted file').
Proof.
  cbv zeta.
  assert (unique_ids (persisted (Some (chars "100001,Ann,IT,Dev" ++ [LF]))))
    as Hu.
  { unfold unique_ids.
    assert (map id_of (persisted (Some (chars "100001,Ann,IT,Dev" ++ [LF])))
            = [Some (chars "100001")]) as -> by (vm_compute; reflexivity).
    apply NoDup_singleton. }
  split; [exact Hu|].
  assert (exists r,
            on_add ascii_upper ascii_capitalize
              (mkApp (chars "100002") false (chars "bob") (chars "hr")
                     (chars "clerk") [] None [])
              (Some (chars "100001,Ann,IT,Dev" ++ [LF])) = Some r)
    as [[[a' file'] dlg] E] by (eexists; vm_compute; reflexivity).
  exists a', file', dlg. split; [exact E|].
  exact (proj1 (X22_form_keeps_unique_ids ascii_upper ascii_capitalize
                  _ true _ Hu) a' file' dlg E).
Defined.

(** X23 on the store with the row [100001,Ann,IT,Dev], adding the record
    of id [100002]. *)
Lemma X23_form_keeps_six_digit_ids_witness :
  let file := Some (chars "100001,Ann,IT,Dev" ++ [LF]) in
  let a := mkApp (chars "100002") false (chars "bob") (chars "hr")
                 (chars "clerk") [] None [] in
  Forall six_digit_id (persisted file)
  /\ exists a' file' dlg,
       on_add ascii_upper ascii_capitalize a file = Some (a', file', dlg)
       /\ Forall six_digit_id (persisted file').
Proof.
  cbv zeta.
  assert (Forall six_digit_id
            (persisted (Some (chars "100001,Ann,IT,Dev" ++ [LF])))) as Hall.
  { assert (persisted (Some (chars "100001,Ann,IT,Dev" ++ [LF]))
            = [mk_emp (chars "100001") (chars "Ann") (chars "IT")
                      (chars "Dev")]) as -> by (vm_compute; reflexivity).
    constructor; [|constructor].
    exists (chars "100001"). repeat split; reflexivity. }
  split; [exact Hall|].
  assert (exists r,
            on_add ascii_upper ascii_capitalize
              (mkApp (chars "100002") false (chars "bob") (chars "hr")
                     (chars "clerk") [] None [])
              (Some (chars "100001,Ann,IT,Dev" ++ [LF])) = Some r)
    as [[[a' file'] dlg] E] by (eexists; vm_compute; reflexivity).
  exists a', file', dlg. split; [exact E|].
  exact (proj1 (X23_form_keeps_six_digit_ids ascii_upper ascii_capitalize
                  _ true _ Hall) a' file' dlg E).
Defined.


(** ** [smart_title] *)

Section titles.
Variables upper capitalize : str -> str.

Lemma title_words text :
  words_kept upper capitalize text ->
  Forall (fun w => is_word w = true)
         (map (title_word upper capitalize) (split_ws (strip text))).
Proof.
  unfold words_kept. induction 1 as [|w ws [Hu Hc] _ IH]; [constructor|].
  cbn [map]. constructor; [|done]. unfold title_word.
  by destruct (bool_decide _).
Qed.

Lemma smart_title_stripped text :
  words_kept upper capitalize text ->
  strip (smart_title upper capitalize text)
  = smart_title upper capitalize text.
Proof. intros H. by apply strip_join_words, title_words. Qed.

(** X24.  When [upper] and [capitalize] turn the words of the text into
    words, [smart_title] gives a text without surrounding whitespace whose
    words, separated by single spaces, are the words of the text with the
    casing rule applied to each; the result is empty exactly when the text
    holds nothing but whitespace. *)
Theorem X24_smart_title_shape text :
  words_kept upper capitalize text ->
  strip (smart_title upper capitalize text)
  = smart_title upper capitalize text
  /\ split_ws (smart_title upper capitalize text)
     = map (title_word upper capitalize) (split_ws text)
  /\ bool_decide (smart_title upper capitalize text = [])
     = forallb isspace text.
Proof.
  intros H. pose proof (title_words text H) as Hw.
  assert (split_ws (strip text) = split_ws text) as Hsplit.
  { destruct (strip_split text) as (l & r & Hs & Hl & Hr).
    rewrite Hs at 2. clear Hs. unfold split_ws.
    assert (forall l t, forallb isspace l = true ->
              split_ws_aux [] (l ++ t) = split_ws_aux [] t) as Hlead.
    { clear. intros l t. induction l as [|c l IH]; [done|]. cbn.
      intros [-> Hl]%andb_true_iff. by apply IH. }
    rewrite Hlead by done.
    assert (forall t cur, split_ws_aux cur (t ++ r) = split_ws_aux cur t)
      as Htrail; [|by rewrite Htrail].
    clear -Hr. intros t. induction t as [|c t IH]; intros cur.
    - cbn [app]. clear -Hr. revert cur.
      induction r as [|c r IH]; intros cur; [done|]. cbn in Hr.
      apply andb_true_iff in Hr as [Hc Hr]. cbn [split_ws_aux].
      rewrite Hc. destruct cur as [|x cur]; [by apply IH|].
      rewrite (IH Hr []). reflexivity.
    - cbn [app split_ws_aux]. destruct (isspace c); [|apply IH].
      destruct cur; by rewrite IH. }
  split; [by apply smart_title_stripped|]. split.
  - unfold smart_title. rewrite split_ws_join by done. by rewrite Hsplit.
  - unfold smart_title.
    destruct (forallb isspace text) eqn:E.
    + apply bool_decide_eq_true_2.
      assert (split_ws (strip text) = []) as ->; [|done].
      rewrite Hsplit. by apply split_ws_aux_nil.
    + apply bool_decide_eq_false_2. intros Hj.
      apply join_words_nil in Hj; [|done].
      apply map_eq_nil in Hj. rewrite Hsplit in Hj.
      apply split_ws_aux_nil in Hj as [_ Hj]. congruence.
Qed.

(** X25.  When, on the words of the text, [upper] and [capitalize] give
    words, change nothing when applied again, and [capitalize] does not
    change what [upper] gives, [smart_title] applied to its own result
    gives that result again. *)
Theorem X25_smart_title_idempotent text :
  words_kept upper capitalize text ->
  case_stable upper capitalize text ->
  smart_title upper capitalize (smart_title upper capitalize text)
  = smart_title upper capitalize text.
Proof.
  intros Hk Hs. pose proof (title_words text Hk) as Hw.
  unfold smart_title at 1. rewrite smart_title_stripped by done.
  unfold smart_title. rewrite split_ws_join by done. f_equal.
  rewrite map_map. unfold case_stable in Hs. clear Hk Hw.
  induction Hs as [|w ws (Huu & Hcc & Huc) _ IH]; [done|].
  cbn [map]. f_equal; [|done].
  destruct (decide (upper w ∈ special)) as [Hsp|Hsp].
  - assert (title_word upper capitalize w = upper w) as ->
      by (unfold title_word; by rewrite bool_decide_eq_true_2).
    unfold title_word. by rewrite Huu, bool_decide_eq_true_2.
  - assert (title_word upper capitalize w = capitalize w) as ->
      by (unfold title_word; by rewrite bool_decide_eq_false_2).
    unfold title_word. by rewrite Huc, bool_decide_eq_false_2.
Qed.

(** X26.  When [upper] and [capitalize] turn the words of the three text
    entries into words, the record [get_fields] builds is in stored form:
    saved and loaded, it is read back as it is.  So after [on_add] the
    persisted collection is the one before, or the one before followed by
    exactly the record of the form. *)
Theorem X26_form_record_stored a :
  words_kept upper capitalize (entry_name a) ->
  words_kept upper capitalize (entry_dept a) ->
  words_kept upper capitalize (entry_role a) ->
  stored_form (get_fields upper capitalize a).2
  = (get_fields upper capitalize a).2
  /\ (forall file a' file' dlg,
        on_add upper capitalize a file = Some (a', file', dlg) ->
        persisted file' = persisted file
        \/ persisted file'
           = persisted file ++ [(get_fields upper capitalize a).2]).
Proof.
  intros Hn Hd Hr.
  assert (stored_form (get_fields upper capitalize a).2
          = (get_fields upper capitalize a).2) as Hst.
  { rewrite get_fields_record, stored_form_mk_emp.
    by rewrite strip_idemp, !smart_title_stripped. }
  split; [exact Hst|]. intros file a' file' dlg Heq.
  destruct (on_add_store upper capitalize _ _ _ _ _ Heq)
    as [?|(_ & _ & Hp)]; [by left|right].
  by rewrite Hp, Hst.
Qed.

End titles.

(** X24 on the text [  senior   it analyst ]: the result is
    [Senior IT Analyst]. *)
Lemma X24_smart_title_shape_witness :
  let text := chars "  senior   it analyst " in
  words_kept ascii_upper ascii_capitalize text
  /\ smart_title ascii_upper ascii_capitalize text
     = chars "Senior IT Analyst"
  /\ strip (smart_title ascii_upper ascii_capitalize text)
     = smart_title ascii_upper ascii_capitalize text.
Proof.
  cbv zeta.
  assert (words_kept ascii_upper ascii_capitalize
            (chars "  senior   it analyst ")) as H.
  { unfold words_kept.
    assert (split_ws (strip (chars "  senior   it analyst "))
            = [chars "senior"; chars "it"; chars "analyst"]) as ->
      by (vm_compute; reflexivity).
    repeat constructor. }
  split; [exact H|]. split; [vm_compute; reflexivity|].
  exact (proj1 (X24_smart_title_shape ascii_upper ascii_capitalize _ H)).
Defined.

(** X25 on the text [  senior   it analyst ]. *)
Lemma X25_smart_title_idempotent_witness :
  let text := chars "  senior   it analyst " in
  words_kept ascii_upper ascii_capitalize text
  /\ case_stable ascii_upper ascii_capitalize text
  /\ smart_title ascii_upper ascii_capitalize
       (smart_title ascii_upper ascii_capitalize text)
     = smart_title ascii_upper ascii_capitalize text.
Proof.
  cbv zeta.
  assert (split_ws (strip (chars "  senior   it analyst "))
          = [chars "senior"; chars "it"; chars "analyst"]) as Hws
    by (vm_compute; reflexivity).
  assert (words_kept ascii_upper ascii_capitalize
            (chars "  senior   it analyst ")) as Hk.
  { unfold words_kept. rewrite Hws. repeat constructor. }
  assert (case_stable ascii_upper ascii_capitalize
            (chars "  senior   it analyst ")) as Hs.
  { unfold case_stable. rewrite Hws. repeat constructor. }
  split; [exact Hk|]. split; [exact Hs|].
  exact (X25_smart_title_idempotent ascii_upper ascii_capitalize _ Hk Hs).
Defined.

(** X26 on the form with the entries [100002], [bob], [hr], [clerk]. *)
Lemma X26_form_record_stored_witness :
  let a := mkApp (chars "100002") false (chars "bob") (chars "hr")
                 (chars "clerk") [] None [] in
  words_kept ascii_upper ascii_capitalize (entry_name a)
  /\ stored_form (get_fields ascii_upper ascii_capitalize a).2
     = (get_fields ascii_upper ascii_capitalize a).2.
Proof.
  cbv zeta.
  assert (words_kept ascii_upper ascii_capitalize (chars "bob")) as Hn.
  { unfold words_kept.
    assert (split_ws (strip (chars "bob")) = [chars "bob"]) as ->
      by (vm_compute; reflexivity).
    repeat constructor. }
  assert (words_kept ascii_upper ascii_capitalize (chars "hr")) as Hd.
  { unfold words_kept.
    assert (split_ws (strip (chars "hr")) = [chars "hr"]) as ->
      by (vm_compute; reflexivity).
    repeat constructor. }
  assert (words_kept ascii_upper ascii_capitalize (chars "clerk")) as Hr.
  { unfold words_kept.
    assert (split_ws (strip (chars "clerk")) = [chars "clerk"]) as ->
      by (vm_compute; reflexivity).
    repeat constructor. }
  split; [exact Hn|].
  exact (proj1 (X26_form_record_stored ascii_upper ascii_capitalize
                  (mkApp (chars "100002") false (chars "bob") (chars "hr")
                         (chars "clerk") [] None [])
                  Hn Hd Hr)).
Defined.


Lemma split_rounds_cons k sep s :
  exists x l, split_rounds k sep s = x :: l.
Proof.
  destruct k; cbn [split_rounds]; [by eexists _, _|].
  destruct (split_once sep s) as [[u v]|]; by eexists _, _.
Qed.

(** X27.  [on_select] raises a ValueError, and changes nothing, on a line
    that does not contain [ - ], and on the line of a record whose role
    contains [) | ]: such a record can be listed but not selected. *)
Theorem X27_on_select_raises a k :
  (forall text,
     listbox a !! k = Some text ->
     contains (chars " - ") text = false ->
     on_select a [k] = None)
  /\ (forall i n d r1 r2,
        listbox a !! k
        = Some (line_text i n d (r1 ++ chars ") | " ++ r2)) ->
        contains (chars " - ") i = false -> ~ chars " -" `suffix_of` i ->
        contains (chars " (") n = false ->
        contains (chars ") | ") d = false ->
        contains (chars ") | ") r1 = false ->
        on_select a [k] = None).
Proof.
  split.
  - intros text Hk Hc. unfold on_select. rewrite Hk. cbn [default].
    unfold id, split1. by rewrite split_once_None.
  - intros i n d r1 r2 Hk Hi1 Hi2 Hn Hd Hr1.
    unfold on_select. rewrite Hk. cbn [default]. unfold id.
    rewrite split_line_id, split_line_name by done.
    unfold split.
    destruct (length (d ++ chars ") | " ++ r1 ++ chars ") | " ++ r2))
      as [|[|m]] eqn:E.
    { rewrite !length_app in E. cbn in E. lia. }
    { rewrite !length_app in E. cbn in E. lia. }
    cbn [split_rounds].
    rewrite split_once_first by (by apply no_early_bar).
    rewrite split_once_first by (by apply no_early_bar).
    by destruct (split_rounds_cons m (chars ") | ") r2) as (x & l & ->).
Qed.

(** X27 on the line [100001 - Ann (IT) | Dev) | Ops]. *)
Lemma X27_on_select_raises_witness :
  let a := mkApp [] false [] [] [] [] None
             [line_text (chars "100001") (chars "Ann") (chars "IT")
                        (chars "Dev" ++ chars ") | " ++ chars "Ops")] in
  contains (chars ") | ") (chars "Dev") = false
  /\ on_select a [0] = None.
Proof.
  cbv zeta. split; [reflexivity|].
  exact (proj2 (X27_on_select_raises
                  (mkApp [] false [] [] [] [] None
                     [line_text (chars "100001") (chars "Ann") (chars "IT")
                        (chars "Dev" ++ chars ") | " ++ chars "Ops")]) 0)
           (chars "100001") (chars "Ann") (chars "IT") (chars "Dev")
           (chars "Ops") eq_refl eq_refl
           (proj2 (isdigit_no_dash (chars "100001") eq_refl))
           eq_refl eq_refl eq_refl).
Defined.

(** X28.  [on_select] cuts the name at its first [ (]: for a record whose
    name contains [ (], the form gets the part of the name before it, and
    the rest of the name, [ (] and the department together as the
    department. *)
Theorem X28_on_select_cuts_name a k i n1 n2 d r :
  listbox a !! k = Some (line_text i (n1 ++ chars " (" ++ n2) d r) ->
  contains (chars " - ") i = false -> ~ chars " -" `suffix_of` i ->
  contains (chars " (") n1 = false ->
  contains (chars ") | ") (n2 ++ chars " (" ++ d) = false ->
  contains (chars ") | ") r = false ->
  on_select a [k]
  = Some (mkApp i true n1 (n2 ++ chars " (" ++ d) r
                (dept_values a) (Some i) (listbox a)).
Proof.
  intros Hk Hi1 Hi2 Hn Hd Hr.
  assert (line_text i (n1 ++ chars " (" ++ n2) d r
          = line_text i n1 (n2 ++ chars " (" ++ d) r) as Hline.
  { unfold line_text. by rewrite <- !app_assoc. }
  rewrite Hline in Hk.
  unfold on_select. rewrite Hk. cbn [default]. unfold id.
  rewrite split_line_id by done.
  rewrite split_line_name by done.
  by rewrite split_line_rest.
Qed.

(** X28 on the line of the name [Ann (Annie) Lee] and the department
    [IT]. *)
Lemma X28_on_select_cuts_name_witness :
  let a := mkApp [] false [] [] [] [] None
             [line_text (chars "100001")
                (chars "Ann" ++ chars " (" ++ chars "Annie) Lee")
                (chars "IT") (chars "Dev")] in
  contains (chars " (") (chars "Ann") = false
  /\ on_select a [0]
     = Some (mkApp (chars "100001") true (chars "Ann")
                   (chars "Annie) Lee (IT") (chars "Dev") []
                   (Some (chars "100001")) (listbox a)).
Proof.
  cbv zeta. split; [reflexivity|].
  exact (X28_on_select_cuts_name
           (mkApp [] false [] [] [] [] None
              [line_text (chars "100001")
                 (chars "Ann" ++ chars " (" ++ chars "Annie) Lee")
                 (chars "IT") (chars "Dev")]) 0
           (chars "100001") (chars "Ann") (chars "Annie) Lee")
           (chars "IT") (chars "Dev") eq_refl eq_refl
           (proj2 (isdigit_no_dash (chars "100001") eq_refl))
           eq_refl eq_refl eq_refl).
Defined.

End form_properties.
